(** * DSP: a shallow embedding of the signal-processing module

  The development follows [src/__init__.py]: the on-the-fly circular-buffer
  convolver ([OTFConvolver]), the signal container ([DigitalSignal]), the
  Fourier-series [SignalGenerator], the mixer family and the predicate
  [is_quadrature].

  Python exceptions are results of an error monad; NumPy arrays are lists
  tagged with their dtype; sample values are real numbers and complex
  numbers over them (the idealised values of the float64 / complex128
  storage).  The convolver is generic in its scalar type, since nothing in
  it depends on the arithmetic beyond one addition and one product. *)

From Stdlib Require Import String Ascii.
From Stdlib Require Import List Arith Lia Bool ZArith.
From Stdlib Require Import Reals Lra.
From Stdlib Require Sorting.Sorted Sorting.Permutation.
Import ListNotations.

Set Implicit Arguments.

(* ================================================================== *)
(** * Python: exceptions and results *)

Module Py.

Inductive exn : Type :=
| NameError (name : string)
| ZeroDivisionError
| IndexError
| TypeError
| ValueError (msg : string)
| AttributeError (msg : string).

Inductive result (A : Type) : Type :=
| Ok (a : A)
| Raise (e : exn).

Arguments Ok {A} a.
Arguments Raise {A} e.

Definition bind {A B : Type} (m : result A) (k : A -> result B) : result B :=
  match m with
  | Ok a => k a
  | Raise e => Raise e
  end.

Definition raises {A : Type} (m : result A) : Prop :=
  exists e, m = Raise e.

(** [a % b] on non-negative ints. *)
Definition py_mod (a b : nat) : result nat :=
  if b =? 0 then Raise ZeroDivisionError else Ok (a mod b).

(** Values a Python name can be bound to, as far as the module needs
    them: a scalar sample, a sequence of samples, an int, or some other
    object (module, class, function, instance). *)
Inductive pyval (T : Type) : Type :=
| VScalar (x : T)
| VSeq (l : list T)
| VInt (n : nat)
| VObject.

Arguments VScalar {T} x.
Arguments VSeq {T} l.
Arguments VInt {T} n.
Arguments VObject {T}.

Definition env (T : Type) : Type := list (string * pyval T).

(** Loading a name: the innermost binding, [NameError] when there is none. *)
Fixpoint load {T : Type} (rho : env T) (name : string) : result (pyval T) :=
  match rho with
  | [] => Raise (NameError name)
  | (x, v) :: rho' => if String.eqb x name then Ok v else load rho' name
  end.

End Py.

Import Py.

Declare Scope py_scope.
Delimit Scope py_scope with py.
Notation "x <- m ;; k" := (Py.bind m (fun x => k))
(at level 61, m at next level, right associativity) : py_scope.
Notation "' p <- m ;; k" := (Py.bind m (fun p => k))
(at level 61, p pattern, m at next level, right associativity) : py_scope.
Open Scope py_scope.

(* ================================================================== *)
(** * OTFConvolver *)

Module Convolver.

Section WithScalars.

(** The scalar type of samples and taps, with the zero that fills a fresh
    buffer, and the sum and product [numpy] applies elementwise. *)
Variable T : Type.
Variable zero : T.
Variables add mul : T -> T -> T.

(** ** The NumPy operations the convolver uses *)

(** [NP.zeros(n)] *)
Definition np_zeros (n : nat) : list T := repeat zero n.

(** Elementwise product of two one-dimensional operands with NumPy's
    broadcasting: equal lengths pair up, a length-one operand is
    stretched, anything else is a [ValueError]. *)
Definition np_mul (a b : list T) : result (list T) :=
  if length a =? length b then Ok (map (fun p => mul (fst p) (snd p)) (combine a b))
  else match a, b with
       | [x], _ => Ok (map (fun y => mul x y) b)
       | _, [y] => Ok (map (fun x => mul x y) a)
       | _, _ => Raise (ValueError "operands could not be broadcast together")
       end.

(** [a.sum()] *)
Definition np_sum (a : list T) : T := fold_left add a zero.

(** The list [a] with slot [i] replaced by [x] (unchanged out of range). *)
Fixpoint upd (a : list T) (i : nat) (x : T) : list T :=
  match a, i with
  | [], _ => []
  | _ :: a', O => x :: a'
  | y :: a', S i' => y :: upd a' i' x
  end.

(** [a[i] = x] for a non-negative index: [IndexError] out of range. *)
Definition setitem (a : list T) (i : nat) (x : T) : result (list T) :=
  if i <? length a then Ok (upd a i x) else Raise IndexError.

(** [NP.append(a[o:], a[:o])] *)
Definition rotated (a : list T) (o : nat) : list T :=
  skipn o a ++ firstn o a.

(** ** The object *)

Record OTFConvolver : Type := mkOTF {
  F : list T;            (* FIR filter *)
  K : nat;               (* number of taps *)
  circ_buf : list T;     (* circular buffer, K slots *)
  filtered : list T;     (* history of filtered samples *)
  oldest : nat;          (* pointer to current data *)
  data : list T;         (* history of input samples *)
  M : option nat         (* length of data, set only when data is given *)
}.

Definition set_filtered (c : OTFConvolver) (fl : list T) : OTFConvolver :=
  mkOTF (F c) (K c) (circ_buf c) fl (oldest c) (data c) (M c).
Definition set_data (c : OTFConvolver) (d : list T) : OTFConvolver :=
  mkOTF (F c) (K c) (circ_buf c) (filtered c) (oldest c) d (M c).
Definition set_circ_buf (c : OTFConvolver) (b : list T) : OTFConvolver :=
  mkOTF (F c) (K c) b (filtered c) (oldest c) (data c) (M c).
Definition set_oldest (c : OTFConvolver) (o : nat) : OTFConvolver :=
  mkOTF (F c) (K c) (circ_buf c) (filtered c) o (data c) (M c).
Definition set_M (c : OTFConvolver) (m : nat) : OTFConvolver :=
  mkOTF (F c) (K c) (circ_buf c) (filtered c) (oldest c) (data c) (Some m).

(** ** [convolution_step]

    The sum of products is taken over the buffer as it stands; only then
    is [oldest] advanced and the sample stored at the new [oldest]. *)
Definition convolution_step (self : OTFConvolver) (sample : T)
  : result (T * OTFConvolver) :=
  prod <- np_mul (F self) (rotated (circ_buf self) (oldest self)) ;;
  let sumprod := np_sum prod in
  let self := set_filtered self (filtered self ++ [sumprod]) in
  o <- py_mod (oldest self + 1) (K self) ;;
  let self := set_oldest self o in
  buf <- setitem (circ_buf self) (oldest self) sample ;;
  let self := set_circ_buf self buf in
  Ok (sumprod, self).

(** ** [next]

    The result is [None] (Python's [None]) while the buffer fills. *)
Definition next (self : OTFConvolver) (sample : T)
  : result (option T * OTFConvolver) :=
  let self := set_data self (data self ++ [sample]) in
  let idx := length (data self) in
  if idx <? K self then
    buf <- setitem (circ_buf self) idx sample ;;
    let self := set_circ_buf self buf in
    let self := set_filtered self (filtered self ++ [zero]) in
    Ok (None, self)
  else
    '(y, self) <- convolution_step self sample ;;
    let self := set_filtered self (filtered self ++ [y]) in
    Ok (Some (last (filtered self) zero), self).

(** ** [__init__]

    The names in scope in the body of [__init__]: its parameters and the
    loop variable, over the names bound at the top level of the module.
    No [sample] is among them. *)
Definition module_globals : env T :=
  map (fun x => (x, VObject))
    ["logging"; "math"; "NP"; "SP"; "scipy"; "warnings"; "logger";
     "DigitalSignal"; "SignalGenerator"; "OTFConvolver"; "BasicMixer";
     "SimpleMixer"; "ComplexMixer"; "ParallelMixer"; "QuadratureSplitter";
     "QuadratureHybrid"; "sinc_filter"; "interpolate"; "box"; "vbox";
     "wbox"; "rect_to_polar"; "is_quadrature"; "is_analytic"]%string.

Definition init_env (FIRfilter dat : list T) (midx : nat) : env T :=
  [("self", VObject); ("FIRfilter", VSeq FIRfilter); ("data", VSeq dat);
   ("midx", VInt midx)]%string ++ module_globals.

(** A value passed as [sample] is stored into the complex buffer. *)
Definition as_sample (v : pyval T) : result T :=
  match v with
  | VScalar x => Ok x
  | _ => Raise TypeError
  end.

(** The loop [for midx in list(range(self.M)):
                self.filtered.append(self.convolution_step(sample))]. *)
Fixpoint init_loop (FIRfilter dat : list T) (midxs : list nat)
    (self : OTFConvolver) : result OTFConvolver :=
  match midxs with
  | [] => Ok self
  | midx :: rest =>
      v <- load (init_env FIRfilter dat midx) "sample" ;;
      sample <- as_sample v ;;
      '(y, self) <- convolution_step self sample ;;
      let self := set_filtered self (filtered self ++ [y]) in
      init_loop FIRfilter dat rest self
  end.

(** [OTFConvolver(FIRfilter, data=None)].  A Python list is true when it
    is not empty. *)
Definition __init__ (FIRfilter : list T) (dat : option (list T))
  : result OTFConvolver :=
  let self :=
    mkOTF FIRfilter (length FIRfilter) (np_zeros (length FIRfilter))
          [] 0 [] None in
  match dat with
  | Some (d :: ds) =>
      let self := set_data self (d :: ds) in
      let self := set_M self (length (d :: ds)) in
      init_loop FIRfilter (d :: ds) (seq 0 (length (d :: ds))) self
  | _ => Ok (set_data self [])
  end.

(** A convolver made without data, then stepped through the samples
    [xs]; the results of the calls are collected in order. *)
Fixpoint run (self : OTFConvolver) (xs : list T)
  : result (list (option T) * OTFConvolver) :=
  match xs with
  | [] => Ok ([], self)
  | x :: xs' =>
      '(y, self) <- next self x ;;
      '(ys, self) <- run self xs' ;;
      Ok (y :: ys, self)
  end.

(** The sum the filter is meant to deliver, written index by index. *)
Definition cross_correlation (kernel buffer : list T) (o k : nat) : T :=
  np_sum (map (fun n => mul (nth n kernel zero) (nth ((o + n) mod k) buffer zero))
              (seq 0 k)).

End WithScalars.

End Convolver.

(* ================================================================== *)
(** * Complex numbers over the reals *)

Module Cplx.

Local Open Scope R_scope.

Record C : Type := mkC { Re : R; Im : R }.

Definition C0 : C := mkC 0 0.
Definition RtoC (x : R) : C := mkC x 0.
(** Python's [complex(a, b)] *)
Definition complex_of (a b : R) : C := mkC a b.
(** Python's [1j] *)
Definition Ci : C := mkC 0 1.

Definition cadd (a b : C) : C := mkC (Re a + Re b) (Im a + Im b).
Definition cmul (a b : C) : C :=
  mkC (Re a * Re b - Im a * Im b) (Re a * Im b + Im a * Re b).
Definition conj (a : C) : C := mkC (Re a) (- Im a).
(** Division of a complex number by a real one. *)
Definition cdivr (a : C) (r : R) : C := mkC (Re a / r) (Im a / r).
(** [exp(z)] for [z = x + iy] *)
Definition cexp (z : C) : C :=
  mkC (exp (Re z) * cos (Im z)) (exp (Re z) * sin (Im z)).

(** Is a float different from zero (its truth value in Python). *)
Definition Rtruthy (x : R) : bool :=
  if Req_dec_T x 0 then false else true.

End Cplx.

Import Cplx.

(* ================================================================== *)
(** * NumPy arrays: one dimension, dtype float or complex

    These are the two dtypes of the module's signals ([float] is float64,
    [complex] is complex128); the mixers and [is_quadrature] compare
    [dtype] against exactly these two. *)

Module NumPy.

Local Open Scope R_scope.

Inductive dtype : Type := float | complex.

Inductive ndarray : Type :=
| FloatArr (v : list R)
| ComplexArr (v : list C).

Definition dtype_of (a : ndarray) : dtype :=
  match a with FloatArr _ => float | ComplexArr _ => complex end.

Definition dtype_eqb (d e : dtype) : bool :=
  match d, e with
  | float, float | complex, complex => true
  | _, _ => false
  end.

Definition len (a : ndarray) : nat :=
  match a with FloatArr v => length v | ComplexArr v => length v end.

(** [a[:n]] *)
Definition take (n : nat) (a : ndarray) : ndarray :=
  match a with
  | FloatArr v => FloatArr (firstn n v)
  | ComplexArr v => ComplexArr (firstn n v)
  end.

(** [a.real] and [a.imag]; the imaginary part of a float array is zeros. *)
Definition real (a : ndarray) : list R :=
  match a with FloatArr v => v | ComplexArr v => map Re v end.
Definition imag (a : ndarray) : list R :=
  match a with FloatArr v => repeat 0 (length v) | ComplexArr v => map Im v end.

(** The samples of an array as complex numbers ([a.astype(complex)]). *)
Definition as_complex (a : ndarray) : list C :=
  match a with FloatArr v => map RtoC v | ComplexArr v => v end.

(** Broadcasting of two one-dimensional operands under a binary
    operation: equal lengths pair up, a length-one operand is stretched,
    other shapes do not broadcast. *)
Definition broadcast2 {A B D : Type} (f : A -> B -> D)
    (a : list A) (b : list B) : result (list D) :=
  if length a =? length b then Ok (map (fun p => f (fst p) (snd p)) (combine a b))
  else match a, b with
       | [x], _ => Ok (map (fun y => f x y) b)
       | _, [y] => Ok (map (fun x => f x y) a)
       | _, _ => Raise (ValueError "operands could not be broadcast together")
       end.

(** [a * b]: float when both are float, complex otherwise (the float
    operand is converted first). *)
Definition mul (a b : ndarray) : result ndarray :=
  match a, b with
  | FloatArr x, FloatArr y => v <- broadcast2 Rmult x y ;; Ok (FloatArr v)
  | _, _ => v <- broadcast2 cmul (as_complex a) (as_complex b) ;; Ok (ComplexArr v)
  end.

(** [a + b] on float arrays *)
Definition addR (a b : list R) : result (list R) := broadcast2 Rplus a b.

(** [a.conjugate()] *)
Definition conjugate (a : ndarray) : ndarray :=
  match a with
  | FloatArr v => FloatArr v
  | ComplexArr v => ComplexArr (map conj v)
  end.

(** [a.all()] on floats: every element is different from zero. *)
Definition all (v : list R) : bool := forallb Rtruthy v.

(** Assignment of [src] to a whole view of [n] slots (as in
    [obj.real = src]): the source must broadcast to the view. *)
Definition assign (n : nat) (src : list R) : result (list R) :=
  if length src =? n then Ok src
  else match src with
       | [x] => Ok (repeat x n)
       | _ => Raise (ValueError "could not broadcast input array")
       end.

(** [NP.arange(M)] *)
Definition arange (M : nat) : list nat := seq 0 M.

End NumPy.

(* ================================================================== *)
(** * SciPy: the transforms the module imports

  These are not code of the module.  The mixers below take the two
  Hilbert primitives as parameters; the definitions here follow SciPy's
  documentation of them and serve where a concrete transform is needed. *)

Module SciPy.

Local Open Scope R_scope.

(** [exp(s * 2 pi i n k / N)] *)
Definition twiddle (s : R) (N n k : nat) : C :=
  cexp (mkC 0 (s * (2 * PI * INR (n * k) / INR N))).

Definition csum (l : list C) : C := fold_left cadd l C0.

(** Forward transform: [X[k] = sum_n x[n] exp(-2 pi i n k / N)]. *)
Definition fft (x : list C) : list C :=
  let N := length x in
  map (fun k => csum (map (fun p => cmul (snd p) (twiddle (-1) N (fst p) k))
                          (combine (seq 0 N) x)))
      (seq 0 N).

(** Inverse transform: [x[n] = (1/N) sum_k X[k] exp(2 pi i n k / N)]. *)
Definition ifft (X : list C) : list C :=
  let N := length X in
  map (fun n => cdivr (csum (map (fun p => cmul (snd p) (twiddle 1 N n (fst p)))
                                 (combine (seq 0 N) X)))
                      (INR N))
      (seq 0 N).

(** [scipy.signal.hilbert(x)]: the analytic signal of a real sequence.
    The spectrum is weighted by [h], with [h[0] = 1], [h[k] = 2] for
    [0 < k < N/2], [h[N/2] = 1] for even [N], and zero above.  An empty
    input is refused. *)
Definition h_weight (N k : nat) : R :=
  if k =? 0 then 1
  else if Nat.even N && (k =? N / 2) then 1
  else if 2 * k <? N then 2
  else 0.

Definition signal_hilbert (x : list R) : result (list C) :=
  let N := length x in
  if N =? 0 then Raise (ValueError "N must be positive.")
  else
    let Xf := fft (map RtoC x) in
    Ok (ifft (map (fun p => cmul (RtoC (h_weight N (fst p))) (snd p))
                  (combine (seq 0 N) Xf))).

(** [scipy.fftpack.hilbert(x)] on a real periodic sequence: the Fourier
    coefficients are multiplied by [sqrt(-1) * sign(j)], with [y_0 = 0]
    and the Nyquist mode of an even length taken zero; the result is
    real.  The kernel is set up with a division by the length: on an
    empty sequence the call raises [ZeroDivisionError]. *)
Definition sign_weight (N k : nat) : R :=
  if k =? 0 then 0
  else if 2 * k <? N then 1
  else if N <? 2 * k then -1
  else 0.

Definition periodic_hilbert (x : list R) : list R :=
  let N := length x in
  let Xf := fft (map RtoC x) in
  map Re (ifft (map (fun p => cmul (cmul Ci (RtoC (sign_weight N (fst p)))) (snd p))
                    (combine (seq 0 N) Xf))).

Definition fftpack_hilbert (x : list R) : result (list R) :=
  if length x =? 0 then Raise ZeroDivisionError else Ok (periodic_hilbert x).

(** Cosine and sine of [j] quarter turns, for transforms of length 4. *)
Fixpoint quarter (j : nat) : R * R :=
  match j with
  | O => (1, 0)
  | S j' => (- snd (quarter j'), fst (quarter j'))
  end.

End SciPy.

(* ================================================================== *)
(** * Python strings: [str.lower] and the substring test [x in y] *)

Module PyStr.

Definition lower_ascii (c : ascii) : ascii :=
  let n := nat_of_ascii c in
  if (65 <=? n) && (n <=? 90) then ascii_of_nat (n + 32) else c.

Fixpoint lower (s : string) : string :=
  match s with
  | EmptyString => EmptyString
  | String c s' => String (lower_ascii c) (lower s')
  end.

(** [x in y] for strings: [x] occurs in [y] as a contiguous substring. *)
Fixpoint py_in (x y : string) : bool :=
  String.prefix x y ||
  match y with
  | EmptyString => false
  | String _ y' => py_in x y'
  end.

End PyStr.

(* ================================================================== *)
(** * DigitalSignal *)

Module Signals.

Import NumPy.
Local Open Scope R_scope.

(** The [info] dict: the entry ["mode"], and the entries the generator
    files under the integer index of each component (small dicts from a
    property name to a float). *)
Record info_t : Type := mkInfo {
  mode : string;
  entries : list (nat * list (string * R))
}.

Record DigitalSignal : Type := mkSignal {
  samples : ndarray;
  info : info_t
}.

Definition set_mode (s : DigitalSignal) (md : string) : DigitalSignal :=
  mkSignal (samples s) (mkInfo md (entries (info s))).

(** [d[k] = v] on an insertion-ordered dict. *)
Fixpoint dict_set {V : Type} (d : list (nat * V)) (k : nat) (v : V)
  : list (nat * V) :=
  match d with
  | [] => [(k, v)]
  | (k', v') :: d' => if k' =? k then (k, v) :: d' else (k', v') :: dict_set d' k v
  end.

Definition set_entry (s : DigitalSignal) (k : nat) (v : list (string * R))
  : DigitalSignal :=
  mkSignal (samples s) (mkInfo (mode (info s)) (dict_set (entries (info s)) k v)).

Definition set_samples (s : DigitalSignal) (a : ndarray) : DigitalSignal :=
  mkSignal a (info s).

(** A complex array from its real and imaginary views. *)
Definition of_parts (re im : list R) : list C :=
  map (fun p => mkC (fst p) (snd p)) (combine re im).

(** [DigitalSignal(M, I, Q)] with [rms] left at [None] (no noise).  An
    argument is an ndarray of floats or is absent ([None]; the constructor
    treats anything that is not an ndarray the same way).

    The array is allocated with [M] slots, [M] being the shorter of the
    two lengths when [I] and [Q] are both given, and is then filled by
    assignment to its [real] and [imag] views.  Every path that returns
    overwrites all [M] slots, so the allocated contents never show. *)
Definition __new__ (M : nat) (I Q : option (list R)) : result DigitalSignal :=
  match I, Q with
  | Some i, Some q =>
      let n_I := length i in
      let n_Q := length q in
      let M := if n_Q =? n_I then n_I else Nat.min n_I n_Q in
      re <- assign M i ;;                       (* obj.real = I *)
      _ <- assign M (repeat 0 n_I) ;;           (* obj.imag = NP.zeros(n_I) *)
      im <- assign M q ;;                       (* obj.imag = Q *)
      Ok (mkSignal (ComplexArr (of_parts re im)) (mkInfo "complex" []))
  | Some i, None =>
      let M := length i in
      re <- assign M i ;;                       (* obj.real = I *)
      Ok (mkSignal (FloatArr re) (mkInfo "real" []))
  | None, Some _ =>
      Raise (ValueError "DigitalSignal: cannot create signal from Q alone")
  | None, None =>
      (* obj.real = NP.zeros(M); obj.imag = NP.zeros(M), when M is not 0 *)
      Ok (mkSignal (ComplexArr (of_parts (repeat 0 M) (repeat 0 M)))
                   (mkInfo "complex" []))
  end.

(** [is_quadrature(signal)].  The test on the product is
    [(signal*signal.conjugate()).imag.all() == 0]: [all()] is true when
    no element is zero, and the comparison with [0] negates it.  The
    product is taken over the reals, where [z * conj z] has imaginary part
    exactly zero; NumPy's floating-point product can leave a residual
    there, so on samples that are not zero the answer of the code can
    differ from this one.  The empty array, the arrays of zeros and the
    arrays that are not complex are free of rounding. *)
Definition is_quadrature (signal : ndarray) : result bool :=
  if negb (dtype_eqb (dtype_of signal) complex) then Ok false
  else
    p <- mul signal (conjugate signal) ;;
    if negb (all (imag p)) then Ok true else Ok false.

End Signals.

(* ================================================================== *)
(** * SignalGenerator *)

Module Generator.

Import NumPy Signals PyStr.
Local Open Scope R_scope.

(** A component is a list of three floats, [comp[0]], [comp[1]],
    [comp[2]]. *)
Definition component : Type := (R * R * R)%type.
Definition c0 (c : component) : R := fst (fst c).
Definition c1 (c : component) : R := snd (fst c).
Definition c2 (c : component) : R := snd c.

Definition component_eqb (a b : component) : bool :=
  (if Req_dec_T (c0 a) (c0 b) then true else false) &&
  (if Req_dec_T (c1 a) (c1 b) then true else false) &&
  (if Req_dec_T (c2 a) (c2 b) then true else false).

(** [components.index(comp)] for a [comp] taken from [components]. *)
Fixpoint index (components : list component) (comp : component) : nat :=
  match components with
  | [] => O
  | c :: cs => if component_eqb c comp then O else Datatypes.S (index cs comp)
  end.

Record SignalGenerator : Type := mkSG {
  m : list nat;
  M : nat;
  mode : string;
  components : option (list component);
  S : DigitalSignal
}.

(** In-place [dst += src] on arrays of one dtype. *)
Definition iaddR (dst src : list R) : result (list R) :=
  s <- assign (length dst) src ;;
  Ok (map (fun p => fst p + snd p) (combine dst s)).

Definition iaddC (dst src : list C) : result (list C) :=
  if length src =? length dst
  then Ok (map (fun p => cadd (fst p) (snd p)) (combine dst src))
  else match src with
       | [x] => Ok (map (fun d => cadd d x) dst)
       | _ => Raise (ValueError "could not broadcast input array")
       end.

(** [comp[0]*NP.cos(2*NP.pi*(comp[1]*self.m/M + comp[2]))] *)
Definition real_term (M : nat) (m : list nat) (comp : component) : list R :=
  map (fun n => c0 comp * cos (2 * PI * (c1 comp * INR n / INR M + c2 comp))) m.

(** [comp[0]*NP.exp(2*NP.pi*1j*(comp[1]*self.m/M + comp[2]))/2] *)
Definition analytic_term (M : nat) (m : list nat) (comp : component) : list C :=
  map (fun n =>
         cdivr (cmul (RtoC (c0 comp))
                     (cexp (cmul (cmul (RtoC (2 * PI)) Ci)
                                 (RtoC (c1 comp * INR n / INR M + c2 comp)))))
               2) m.

(** [s*complex(comp[1],comp[2])] with
    [s.real = NP.cos(2*NP.pi*comp[0]*self.m/M)] and
    [s.imag = NP.sin(2*NP.pi*comp[0]*self.m/M)] *)
Definition complex_term (M : nat) (m : list nat) (comp : component) : list C :=
  map (fun n =>
         cmul (mkC (cos (2 * PI * c0 comp * INR n / INR M))
                   (sin (2 * PI * c0 comp * INR n / INR M)))
              (complex_of (c1 comp) (c2 comp))) m.

(** The loops over the components.  Each turn adds the component's term
    to [self.S] in place and files the component's parameters in
    [self.S.info] under its index in [components]. *)
Fixpoint real_loop (all_comps : list component) (M : nat) (m : list nat)
    (comps : list component) (S : DigitalSignal) : result DigitalSignal :=
  match comps with
  | [] => Ok S
  | comp :: rest =>
      v <- iaddR (real (samples S)) (real_term M m comp) ;;
      let S := set_samples S (FloatArr v) in
      let S := set_entry S (index all_comps comp)
                 [("ampl", c0 comp); ("freq", c1 comp); ("phas", c2 comp)]%string in
      real_loop all_comps M m rest S
  end.

Fixpoint analytic_loop (all_comps : list component) (M : nat) (m : list nat)
    (comps : list component) (S : DigitalSignal) : result DigitalSignal :=
  match comps with
  | [] => Ok S
  | comp :: rest =>
      v <- iaddC (as_complex (samples S)) (analytic_term M m comp) ;;
      let S := set_samples S (ComplexArr v) in
      let S := set_entry S (index all_comps comp)
                 [("ampl", c0 comp); ("freq", c1 comp); ("phas", c2 comp)]%string in
      analytic_loop all_comps M m rest S
  end.

Fixpoint complex_loop (all_comps : list component) (M : nat) (m : list nat)
    (comps : list component) (S : DigitalSignal) : result DigitalSignal :=
  match comps with
  | [] => Ok S
  | comp :: rest =>
      v <- iaddC (as_complex (samples S)) (complex_term M m comp) ;;
      let S := set_samples S (ComplexArr v) in
      let S := set_entry S (index all_comps comp)
                 [("freq", c0 comp); ("ampI", c1 comp); ("ampQ", c2 comp)]%string in
      complex_loop all_comps M m rest S
  end.

(** [SignalGenerator(mode, M, components)] with [rms] left at [None].
    The mode is matched by [mode.lower() in "real"] and so on: a
    substring test. *)
Definition __init__ (mode : string) (M : nat)
    (components : option (list component)) : result SignalGenerator :=
  let m := arange M in
  S <- Signals.__new__ M None None ;;          (* an empty signal *)
  match components with
  | Some (c :: cs) =>
      let comps := c :: cs in
      let S := set_mode S (lower mode) in
      if py_in (lower mode) "real" then
        let S := set_samples S (FloatArr (real (samples S))) in  (* astype(float) *)
        S <- real_loop comps M m comps S ;;
        Ok (mkSG m M mode components S)
      else if py_in (lower mode) "analytic" then
        S <- analytic_loop comps M m comps S ;;
        Ok (mkSG m M mode components S)
      else if py_in (lower mode) "complex" then
        S <- complex_loop comps M m comps S ;;
        Ok (mkSG m M mode components S)
      else
        Raise (ValueError "mode is not valid")
  | _ => Ok (mkSG m M mode components S)
  end.

(** [signal()] *)
Definition signal (self : SignalGenerator) : DigitalSignal :=
  if String.eqb (mode self) "real"
  then set_samples (S self) (FloatArr (real (samples (S self))))
  else S self.

(** The samples of the signal a generator call produces. *)
Definition generated (mode : string) (M : nat) (comps : list component)
  : result ndarray :=
  g <- __init__ mode M (Some comps) ;;
  Ok (samples (signal g)).

(** What slot [n] of [self.S] holds once the loop has run over [comps],
    starting from [init]: one term added per component, in order. *)
Definition real_slot (M : nat) (comps : list component) (n : nat) (init : R) : R :=
  fold_left
    (fun acc comp =>
       acc + c0 comp * cos (2 * PI * (c1 comp * INR n / INR M + c2 comp)))
    comps init.

Definition complex_slot (M : nat) (comps : list component) (n : nat) (init : C) : C :=
  fold_left
    (fun acc comp =>
       cadd acc (cmul (mkC (cos (2 * PI * c0 comp * INR n / INR M))
                           (sin (2 * PI * c0 comp * INR n / INR M)))
                      (complex_of (c1 comp) (c2 comp))))
    comps init.

(** The sums as the specification words them (section 4.1), for
    comparison with the slots above: in real mode
    [amplitude * cos(2 pi (frequency n / N - phase))], in complex mode
    [Icoef * cos(2 pi frequency n / N) + i Qcoef * sin(2 pi frequency n / N)]. *)
Definition spec_real_value (N : nat) (comps : list component) (n : nat) : R :=
  fold_left
    (fun acc comp =>
       acc + c0 comp * cos (2 * PI * (c1 comp * INR n / INR N - c2 comp)))
    comps 0.

Definition spec_complex_value (N : nat) (comps : list component) (n : nat) : C :=
  fold_left
    (fun acc comp =>
       cadd acc (mkC (c1 comp * cos (2 * PI * c0 comp * INR n / INR N))
                     (c2 comp * sin (2 * PI * c0 comp * INR n / INR N))))
    comps C0.

End Generator.

(* ================================================================== *)
(** * The quadrature network and the mixers *)

Module Mixers.

Import NumPy Signals.
Local Open Scope R_scope.

(** Messages sent to the logger at warning, error and info level (debug
    messages are left out). *)
Inductive level : Type := WARNING | ERROR | INFO.

(** An attribute of an object: bound to a value or not there at all. *)
Inductive attr (A : Type) : Type :=
| Unset
| Bound (a : A).
Arguments Unset {A}.
Arguments Bound {A} a.

(** A mixer object: its attribute [IF] (which may hold [None]) and what
    it has logged so far. *)
Record Mixer : Type := mkMixer {
  IF_attr : attr (option DigitalSignal);
  log : list (level * string)
}.

Definition fresh : Mixer := mkMixer Unset [].
Definition set_IF (self : Mixer) (v : option DigitalSignal) : Mixer :=
  mkMixer (Bound v) (log self).
Definition emit (self : Mixer) (l : level) (msg : string) : Mixer :=
  mkMixer (IF_attr self) (log self ++ [(l, msg)]).

(** Python's truth value of what [_check_inputs] returns: [True],
    [False], or [None] when the function falls off its end. *)
Definition truthy (r : option bool) : bool :=
  match r with Some true => true | _ => false end.

(** ** BasicMixer *)

(** [BasicMixer.mixed(self, signal, LO)] *)
Definition BasicMixer_mixed (self : Mixer) (signal LO : ndarray)
  : result (DigitalSignal * Mixer) :=
  let n_signal := len signal in
  let n_LO := len LO in
  let '(signal, LO, self) :=
    if n_signal =? n_LO then (signal, LO, self)
    else if n_LO <? n_signal then
      (take n_LO signal, LO,
       emit self WARNING "mixed: signal truncated to length of LO")
    else if n_signal <? n_LO then
      (signal, take n_signal LO,
       emit self WARNING "mixed: LO truncated to length of signal")
    else (signal, LO, self) in
  IF <- mul signal LO ;;
  sig <- match IF with
         | FloatArr v => Signals.__new__ 1024 (Some v) None
         | ComplexArr _ => Signals.__new__ 1024 (Some (real IF)) (Some (imag IF))
         end ;;
  Ok (sig, set_IF self (Some sig)).

(** [BasicMixer.__init__(self, signal, LO)]; an argument is [None] or an
    array. *)
Definition BasicMixer_init (self : Mixer) (signal LO : option ndarray)
  : result Mixer :=
  match signal, LO with
  | Some s, Some l =>
      '(r, self) <- BasicMixer_mixed self s l ;;
      Ok (set_IF self (Some r))
  | _, _ => Ok (set_IF self None)
  end.

Definition BasicMixer (signal LO : option ndarray) : result Mixer :=
  BasicMixer_init fresh signal LO.

(** ** SimpleMixer *)

(** [_check_inputs] of [SimpleMixer] and of [ComplexMixer] (the two
    bodies are the same): both arrays must be float. *)
Definition float_check_inputs (self : Mixer) (signal LO : option ndarray)
  : option bool * Mixer :=
  match signal, LO with
  | Some s, Some l =>
      if negb (dtype_eqb (dtype_of s) float) then
        (Some false, emit self ERROR "_check_inputs: only dtype float signals allowed")
      else if negb (dtype_eqb (dtype_of l) float) then
        (Some false, emit self ERROR "_check_inputs: only dtype float LO allowed")
      else (Some true, self)
  | _, _ => (None, self)
  end.

(** The [raise ValueError(... % (signal.dtype, LO.dtype))] of the
    constructors: building the message reads [dtype] off both
    arguments, which [None] does not have. *)
Definition raise_wrong_dtype {A : Type} (signal LO : option ndarray) : result A :=
  match signal, LO with
  | Some _, Some _ => Raise (ValueError "signal dtype or LO dtype is wrong")
  | _, _ => Raise (AttributeError "'NoneType' object has no attribute 'dtype'")
  end.

Definition SimpleMixer (signal LO : option ndarray) : result Mixer :=
  let self := fresh in
  let '(ok, self) := float_check_inputs self signal LO in
  if truthy ok then BasicMixer_init self signal LO
  else raise_wrong_dtype signal LO.

(** ** ParallelMixer *)

(** [ParallelMixer._check_inputs]: a complex signal and a float LO. *)
Definition ParallelMixer_check_inputs (self : Mixer) (signal LO : option ndarray)
  : option bool * Mixer :=
  match signal, LO with
  | Some s, Some l =>
      if negb (dtype_eqb (dtype_of s) complex) then
        (Some false, emit self ERROR "_check_inputs: only dtype complex signals allowed")
      else if negb (dtype_eqb (dtype_of l) float) then
        (Some false, emit self ERROR "_check_inputs: only dtype float LO allowed")
      else (Some true, self)
  | _, _ => (None, self)
  end.

(** [ParallelMixer.__init__]: the [if] has no [else]. *)
Definition ParallelMixer (signal LO : option ndarray) : result Mixer :=
  let self := fresh in
  let '(ok, self) := ParallelMixer_check_inputs self signal LO in
  if truthy ok then BasicMixer_init self signal LO
  else Ok self.

(** ** The quadrature network and ComplexMixer, over the two Hilbert
    primitives of SciPy *)

Section WithHilbert.

(** [scipy.fftpack.hilbert] on a real sequence; it can raise *)
Variable fftpack_hilbert : list R -> result (list R).
(** [scipy.signal.hilbert] on a real sequence *)
Variable signal_hilbert : list R -> result (list C).

(** [scipy.fftpack.hilbert] on an array: a complex argument is
    transformed part by part. *)
Definition fftpack_hilbert_arr (x : ndarray) : result ndarray :=
  match x with
  | FloatArr v =>
      h <- fftpack_hilbert v ;;
      Ok (FloatArr h)
  | ComplexArr v =>
      hr <- fftpack_hilbert (map Re v) ;;
      hi <- fftpack_hilbert (map Im v) ;;
      Ok (ComplexArr (of_parts hr hi))
  end.

(** [QuadratureSplitter.split(signal)]: [scipy.signal.hilbert(signal)/2] *)
Definition QuadratureSplitter_split (signal : list R) : result ndarray :=
  a <- signal_hilbert signal ;;
  Ok (ComplexArr (map (fun z => cdivr z 2) a)).

(** [QuadratureHybrid.convert(signal)]:
    [signal.real+paths.imag, signal.imag+paths.real] *)
Definition QuadratureHybrid_convert (signal : ndarray)
  : result (list R * list R) :=
  paths <- fftpack_hilbert_arr signal ;;
  a <- addR (real signal) (imag paths) ;;
  b <- addR (imag signal) (real paths) ;;
  Ok (a, b).

(** [I + 1j*Q] on two float arrays *)
Definition I_plus_jQ (I Q : list R) : result ndarray :=
  let jQ := map (fun q => cmul Ci (RtoC q)) Q in
  v <- broadcast2 cadd (map RtoC I) jQ ;;
  Ok (ComplexArr v).

(** [ComplexMixer.mixed(self, signal, LO)]; [None] when the check
    fails. *)
Definition ComplexMixer_mixed (self : Mixer) (signal LO : option ndarray)
  : result (option DigitalSignal * Mixer) :=
  let '(ok, self) := float_check_inputs self signal LO in
  if truthy ok then
    match signal, LO with
    | Some s, Some l =>
        let self := emit self INFO "mixed (Complex): converting LO to quadrature" in
        '(I', Q') <- QuadratureHybrid_convert l ;;
        qlo <- I_plus_jQ I' Q' ;;
        '(sig, self) <- BasicMixer_mixed self s qlo ;;
        let sig := set_mode sig "complex" in
        Ok (Some sig, set_IF self (Some sig))
    | _, _ => Raise (AttributeError "'NoneType' object has no attribute 'dtype'")
    end
  else Ok (None, self).

(** [ComplexMixer.__init__] *)
Definition ComplexMixer (signal LO : option ndarray) : result Mixer :=
  let self := fresh in
  let '(ok, self) := float_check_inputs self signal LO in
  self <- (if truthy ok then BasicMixer_init self signal LO
           else raise_wrong_dtype signal LO) ;;
  (* do the mixing over again with a quadrature LO *)
  match signal, LO with
  | Some _, Some _ =>
      '(r, self) <- ComplexMixer_mixed self signal LO ;;
      Ok (set_IF self r)
  | _, _ => Ok (set_IF self None)
  end.

End WithHilbert.

(** ** Notions used to state what the mixers deliver *)

(** The product of two arrays of one length, element by element: float
    when both are float, complex otherwise. *)
Definition elementwise (a b : ndarray) : ndarray :=
  match a, b with
  | FloatArr x, FloatArr y => FloatArr (map (fun p => fst p * snd p) (combine x y))
  | _, _ =>
      ComplexArr (map (fun p => cmul (fst p) (snd p))
                      (combine (as_complex a) (as_complex b)))
  end.

(** The mode a signal wrapped around an array is tagged with. *)
Definition mode_of (a : ndarray) : string :=
  match a with FloatArr _ => "real" | ComplexArr _ => "complex" end.

(** The warning logged when one of the two arrays is cut. *)
Definition truncation_notice (n_signal n_LO : nat) : list (level * string) :=
  if n_signal =? n_LO then []
  else if n_LO <? n_signal
       then [(WARNING, "mixed: signal truncated to length of LO"%string)]
       else [(WARNING, "mixed: LO truncated to length of signal"%string)].

(** The intermediate frequency as the specification words it for
    ComplexMixer: the signal times the Splitter's analytic version of the
    LO. *)
Definition spec_complex_IF (signal_hilbert : list R -> result (list C))
    (signal LO : list R) : result ndarray :=
  qlo <- QuadratureSplitter_split signal_hilbert LO ;;
  mul (FloatArr signal) qlo.

End Mixers.

(* ================================================================== *)
(** * Module-level helpers: [box] and [rect_to_polar] *)

Module Helpers.
Local Open Scope R_scope.

(** [a < b], [a <= b] and [a == b] on floats, as booleans *)
Definition Rltb (a b : R) : bool := if Rlt_dec a b then true else false.
Definition Reqb (a b : R) : bool := if Req_dec_T a b then true else false.

(** A float as [math.atan2] reads it: its value, and its sign bit, which
    alone tells [-0.0] from [0.0]. *)
Record pyfloat : Type := mkFloat { fval : R; sign_bit : bool }.

(** Negative, the negative zero included. *)
Definition negative (x : pyfloat) : bool :=
  Rltb (fval x) 0 || (Reqb (fval x) 0 && sign_bit x).

(** [math.atan2(y, x)], as C's [atan2]: on the negative real axis the
    sign of the zero [y] chooses between [pi] and [-pi], and at the origin
    the signs of both zeros decide. *)
Definition atan2 (y x : pyfloat) : R :=
  if Rltb 0 (fval x) then atan (fval y / fval x)
  else if Rltb (fval x) 0 then
    (if negative y then atan (fval y / fval x) - PI
     else atan (fval y / fval x) + PI)
  else if Rltb 0 (fval y) then PI / 2
  else if Rltb (fval y) 0 then - (PI / 2)
  else if sign_bit x then (if sign_bit y then - PI else PI)
  else 0.

(** A Python complex number: its [real] and [imag] attributes. *)
Record pycomplex : Type := mkComplex { real_part : pyfloat; imag_part : pyfloat }.

(** [rect_to_polar(v)] on a complex number. *)
Definition rect_to_polar (v : pycomplex) : R * R :=
  let amp := sqrt (fval (real_part v) ^ 2 + fval (imag_part v) ^ 2) in
  let phs := atan2 (imag_part v) (real_part v) in
  (amp, phs).

(** What [rect_to_polar] may be handed: a complex number, or a Python list
    (a slice of a component), which has no attribute [real]. *)
Inductive polar_arg : Type :=
| ArgComplex (z : pycomplex)
| ArgList (l : list R).

Definition rect_to_polar_py (v : polar_arg) : result (R * R) :=
  match v with
  | ArgComplex z => Ok (rect_to_polar z)
  | ArgList _ => Raise (AttributeError "'list' object has no attribute 'real'")
  end.

(** A Python number: [box] returns the ints [0] and [1] and the float
    [0.5]. *)
Inductive number : Type :=
| PyInt (n : Z)
| PyFloat (x : R).

Definition number_value (v : number) : R :=
  match v with PyInt n => IZR n | PyFloat x => x end.

(** [box(x)]; [None] is what the last branch returns. *)
Definition box (x : R) : option number :=
  if Rltb x (- (1 / 2)) then Some (PyInt 0)
  else if Reqb x (- (1 / 2)) then Some (PyFloat (1 / 2))
  else if Rltb (- (1 / 2)) x && Rltb x (1 / 2) then Some (PyInt 1)
  else if Reqb x (1 / 2) then Some (PyFloat (1 / 2))
  else if Rltb (1 / 2) x then Some (PyInt 0)
  else None.

(** The cast of a float to an integer dtype: toward zero. *)
Definition trunc (x : R) : Z :=
  if Rle_dec 0 x then Int_part x else (- Int_part (- x))%Z.

(** What [numpy.vectorize(f)] returns on a one-dimensional array: an
    array of ints, of floats, or of objects. *)
Inductive outputs : Type :=
| IntArr (v : list Z)
| FltArr (v : list R)
| ObjArr (v : list (option number)).

(** One result of the function stored in an int array, in a float array. *)
Definition as_int (v : option number) : result Z :=
  match v with
  | Some (PyInt n) => Ok n
  | Some (PyFloat x) => Ok (trunc x)
  | None => Raise TypeError
  end.

Definition as_float (v : option number) : result R :=
  match v with
  | Some n => Ok (number_value n)
  | None => Raise TypeError
  end.

Fixpoint traverse {A B : Type} (f : A -> result B) (l : list A) : result (list B) :=
  match l with
  | [] => Ok []
  | a :: l' =>
      b <- f a ;;
      bs <- traverse f l' ;;
      Ok (b :: bs)
  end.

(** [numpy.vectorize(f)(a)] with [otypes] not given: the dtype of the
    output is the type of [f] on the first element, and every result is
    cast to it; an empty input is refused. *)
Definition vectorize (f : R -> option number) (a : list R) : result outputs :=
  match a with
  | [] =>
      Raise (ValueError
               "cannot call `vectorize` on size 0 inputs unless `otypes` is set")
  | a0 :: _ =>
      match f a0 with
      | Some (PyInt _) => v <- traverse (fun x => as_int (f x)) a ;; Ok (IntArr v)
      | Some (PyFloat _) => v <- traverse (fun x => as_float (f x)) a ;; Ok (FltArr v)
      | None => Ok (ObjArr (map f a))
      end
  end.

(** [vbox = NP.vectorize(box)] *)
Definition vbox (a : list R) : result outputs := vectorize box a.

(** [wbox(x, width)] on a float array: [w = float(width);
    vbox(x/w)/w].  An object array has [None] first, which does not
    divide.  (For [w = 0] NumPy gives [inf] and [nan], which the reals do
    not have: the model is for [w <> 0].) *)
Definition wbox (x : list R) (width : R) : result NumPy.ndarray :=
  let w := width in
  v <- vbox (map (fun xi => xi / w) x) ;;
  match v with
  | IntArr v => Ok (NumPy.FloatArr (map (fun n => IZR n / w) v))
  | FltArr v => Ok (NumPy.FloatArr (map (fun y => y / w) v))
  | ObjArr _ => Raise TypeError
  end.

End Helpers.

(* ================================================================== *)
(** * The generator: closed forms, the [info] entries, [show_components] *)

Module GeneratorMethods.
Import NumPy Signals PyStr Generator Helpers.
Local Open Scope R_scope.

(** What slot [n] holds once the analytic-mode loop has run over [comps]:
    per component, half the amplitude times [cos t + i sin t],
    [t = 2 pi (frequency n / M + phase)]. *)
Definition analytic_slot (M : nat) (comps : list component) (n : nat) (init : C) : C :=
  fold_left
    (fun acc comp =>
       cadd acc
         (mkC (c0 comp * cos (2 * PI * (c1 comp * INR n / INR M + c2 comp)) / 2)
              (c0 comp * sin (2 * PI * (c1 comp * INR n / INR M + c2 comp)) / 2)))
    comps init.

(** A component (amplitude, frequency, phase) in the form complex mode
    takes: (frequency, amplitude cos(2 pi phase), amplitude sin(2 pi phase)),
    the triple [comp[1], comp[0]*cos(2*pi*comp[2]), comp[0]*sin(2*pi*comp[2])]
    that the last branch of [show_components] is written to append. *)
Definition polar_to_IQ (comp : component) : component :=
  (c1 comp, c0 comp * cos (2 * PI * c2 comp), c0 comp * sin (2 * PI * c2 comp)).

(** [d[k]] on the insertion-ordered dict, [None] for a missing key. *)
Fixpoint dict_get {V : Type} (d : list (nat * V)) (k : nat) : option V :=
  match d with
  | [] => None
  | (k', v) :: d' => if k' =? k then Some v else dict_get d' k
  end.

(** What the loops file in [info] for a component. *)
Definition polar_entry (comp : component) : list (string * R) :=
  [("ampl", c0 comp); ("freq", c1 comp); ("phas", c2 comp)]%string.
Definition IQ_entry (comp : component) : list (string * R) :=
  [("freq", c0 comp); ("ampI", c1 comp); ("ampQ", c2 comp)]%string.

(** The entries the loop over [comps] files in the dict [E], each under
    the position [components.index(comp)] of its component. *)
Definition filed (all_comps : list component)
    (entry : component -> list (string * R)) (comps : list component)
    (E : list (nat * list (string * R))) : list (nat * list (string * R)) :=
  fold_left (fun E comp => dict_set E (index all_comps comp) (entry comp)) comps E.

(** The loop of [show_components] over complex-mode components:
    [frq = comp[0]; amp, phs = rect_to_polar(comp[1:]); phs /= 2 pi;
     response.append([amp, frq, phs])]. *)
Fixpoint to_polar_loop (comps : list component) (response : list component)
  : result (list component) :=
  match comps with
  | [] => Ok response
  | comp :: rest =>
      let frq := c0 comp in
      '(amp, phs) <- rect_to_polar_py (ArgList [c1 comp; c2 comp]) ;;
      let phs := phs / (2 * PI) in
      to_polar_loop rest (response ++ [(amp, frq, phs)])
  end.

(** [show_components(in_mode)]: the components, a new list, or [None].
    In the branch for [in_mode == "complex"] the name [comp] is a local of
    the function that no statement has bound yet: Python raises
    [UnboundLocalError], which is a [NameError]. *)
Definition show_components (self : SignalGenerator) (in_mode : string)
  : result (option (list component)) :=
  match components self with
  | Some (c :: cs) =>
      let response : list component := [] in
      if String.eqb in_mode (mode self) then Ok (components self)
      else if String.eqb in_mode "real" || String.eqb in_mode "analytic" then
        if String.eqb (mode self) "complex" then
          response <- to_polar_loop (c :: cs) response ;;
          Ok (Some response)
        else Ok (components self)
      else if String.eqb in_mode "complex" then
        _ <- load (T := R) [("self", VObject); ("in_mode", VObject);
                            ("response", VSeq [])]%string "comp" ;;
        Ok None
      else Ok None
  | _ => Ok None
  end.

End GeneratorMethods.

(* ================================================================== *)
(** * The [mixed] methods of SimpleMixer and ParallelMixer *)

Module MixerMethods.
Import NumPy Signals Mixers.
Local Open Scope R_scope.

(** [SimpleMixer.mixed(self, signal, LO)]; [None] when the check fails. *)
Definition SimpleMixer_mixed (self : Mixer) (signal LO : option ndarray)
  : result (option DigitalSignal * Mixer) :=
  let '(ok, self) := float_check_inputs self signal LO in
  if truthy ok then
    match signal, LO with
    | Some s, Some l =>
        '(sig, self) <- BasicMixer_mixed self s l ;;
        Ok (Some sig, set_IF self (Some sig))
    | _, _ => Raise (AttributeError "'NoneType' object has no attribute 'dtype'")
    end
  else Ok (None, self).

(** [x.astype(complex)] on what [SimpleMixer.mixed] returned. *)
Definition astype_complex (r : option DigitalSignal) : result DigitalSignal :=
  match r with
  | Some sig => Ok (set_samples sig (ComplexArr (as_complex (samples sig))))
  | None => Raise (AttributeError "'NoneType' object has no attribute 'astype'")
  end.

(** [1j*x] on what [SimpleMixer.mixed] returned. *)
Definition times_1j (r : option DigitalSignal) : result (list C) :=
  match r with
  | Some sig => Ok (map (fun z => cmul Ci z) (as_complex (samples sig)))
  | None => Raise TypeError
  end.

(** [ParallelMixer.mixed(self, signal, LO)].  The value of [self.IF] that
    [+=] adds to is read before the right-hand side is evaluated, so it
    is the converted I product, although the second call of
    [SimpleMixer.mixed] rebinds [self.IF] meanwhile. *)
Definition ParallelMixer_mixed (self : Mixer) (signal LO : option ndarray)
  : result (option DigitalSignal * Mixer) :=
  let '(ok, self) := ParallelMixer_check_inputs self signal LO in
  if truthy ok then
    match signal, LO with
    | Some s, Some l =>
        '(r1, self) <- SimpleMixer_mixed self (Some (FloatArr (real s))) (Some l) ;;
        A <- astype_complex r1 ;;
        let self := set_IF self (Some A) in
        '(r2, self) <- SimpleMixer_mixed self (Some (FloatArr (imag s))) (Some l) ;;
        jB <- times_1j r2 ;;
        v <- Generator.iaddC (as_complex (samples A)) jB ;;
        let A := set_samples A (ComplexArr v) in
        let self := set_IF self (Some A) in
        let A := set_mode A "complex" in
        Ok (Some A, set_IF self (Some A))
    | _, _ => Raise (AttributeError "'NoneType' object has no attribute 'dtype'")
    end
  else Ok (None, self).

End MixerMethods.

(* ================================================================== *)
(** * [sinc_filter] *)

Module Filters.
Import NumPy.
Local Open Scope R_scope.

(** [numpy.linspace(start, stop, num)], end point included. *)
Definition linspace (start stop : R) (num : nat) : list R :=
  match num with
  | O => []
  | Datatypes.S O => [start]
  | _ => map (fun j => start + INR j * ((stop - start) / INR (num - 1))) (seq 0 num)
  end.

(** [numpy.sinc(x)]: [sin(pi x) / (pi x)], and 1 at 0. *)
Definition sinc (x : R) : R :=
  if Req_dec_T x 0 then 1 else sin (PI * x) / (PI * x).

(** How [sinc_filter] can fail: its own [RuntimeError], or an exception
    of an operation it uses. *)
Inductive failure : Type :=
| RuntimeError (msg : string)
| Exn (e : exn).

(** The truth value of an optional float: [None] and [0] are false. *)
Definition truthy_opt (x : option R) : bool :=
  match x with Some v => Rtruthy v | None => false end.

(** The pair [(factor, W)] after
    [if factor: W = factor/M  elif W and M: factor = W/M  else: raise]. *)
Definition filter_width (factor W : option R) (M : Z) : failure + (R * R) :=
  match factor, W with
  | Some fac, _ =>
      if Rtruthy fac then
        if (M =? 0)%Z then inl (Exn ZeroDivisionError) else inr (fac, fac / IZR M)
      else
        match W with
        | Some w =>
            if Rtruthy w && negb (M =? 0)%Z then inr (w / IZR M, w)
            else inl (RuntimeError "no filter width specified ('factor' or 'W' and 'M')")
        | None => inl (RuntimeError "no filter width specified ('factor' or 'W' and 'M')")
        end
  | None, Some w =>
      if Rtruthy w && negb (M =? 0)%Z then inr (w / IZR M, w)
      else inl (RuntimeError "no filter width specified ('factor' or 'W' and 'M')")
  | None, None => inl (RuntimeError "no filter width specified ('factor' or 'W' and 'M')")
  end.

(** One tap of the filter at tap index [kj]:
    [template = factor*sinc(factor*k)], then
    [template * exp(-2 pi 1j f0 W k / M)] in mode ["complex"],
    [2*template * cos(2 pi f0 W k / M)] in mode ["real"]. *)
Definition template_tap (factor kj : R) : R := factor * sinc (factor * kj).

Definition complex_tap (f0 factor W : R) (M : Z) (kj : R) : C :=
  cmul (RtoC (template_tap factor kj))
       (cexp (cdivr (cmul (cmul (cmul (cmul (RtoC (- 2 * PI)) Ci) (RtoC f0)) (RtoC W))
                          (RtoC kj))
                    (IZR M))).

Definition real_tap (f0 factor W : R) (M : Z) (kj : R) : R :=
  2 * template_tap factor kj * cos (2 * PI * f0 * W * kj / IZR M).

(** [sinc_filter(K, f0, mode, factor, W, M)]: the tap indices [k], the
    taps [F] and [max_tap]. *)
Definition sinc_filter (K : nat) (f0 : R) (mode : string) (factor W : option R) (M : Z)
  : failure + (list R * ndarray * R) :=
  let max_tap := INR K / 2 in
  let k := linspace (- max_tap) max_tap K in
  match filter_width factor W M with
  | inl e => inl e
  | inr (factor, W) =>
      let F :=
        if String.eqb mode "complex" then ComplexArr (map (complex_tap f0 factor W M) k)
        else if String.eqb mode "real" then FloatArr (map (real_tap f0 factor W M) k)
        else FloatArr (map (template_tap factor) k) in
      inr (k, F, max_tap)
  end.

End Filters.

(* ================================================================== *)
(** * The convolver's buffer as it is read *)

Module ConvolverWindow.

Section WithScalars.

Variable T : Type.

(** The buffer as [convolution_step] reads it, [circ_buf[oldest:]] followed
    by [circ_buf[:oldest]], after one more step: [oldest] has moved on by
    one slot and the sample [x] sits there, so [x] is read first, the slot
    read second before is gone, and the one read first before is read last. *)
Definition shift (w : list T) (x : T) : list T :=
  match w with
  | a :: _ :: rest => x :: rest ++ [a]
  | _ => [x]
  end.

End WithScalars.

End ConvolverWindow.

(* ================================================================== *)
(** * The test support: [src/tests/__init__.py] and [src/tests/test_mixers.py] *)

Module TestSupport.
Import Generator Helpers.
Local Open Scope R_scope.

(** [signal_components(sigmode)] of the test support module: three
    components in polar form, or in I/Q form "(should give same signal as
    analytic)"; an unknown mode is logged as an error and gives none. *)
Definition signal_components (sigmode : string) : list component :=
  if String.eqb sigmode "real" || String.eqb sigmode "analytic" then
    [(1 / 2, - 60, 1 / 2); (1, 75, 0); (1 / 4, 90, 1 / 4)]
  else if String.eqb sigmode "complex" then
    [(- 60, - (1 / 2), 0); (75, 1, 0); (90, 0, 1 / 4)]
  else [].

(** [check_component(freq, components, idx_pos, sigmode)] of the test
    support module: the parameters of the first component at that
    frequency, or [None].  For an int [idx_pos] one of [if idx_pos:] and
    [elif idx_pos == 0:] holds, so the [ValueError] of the last branch is
    out of reach. *)
Fixpoint check_loop (freq : R) (idx_pos : Z) (components : list component)
  : option (R * R) :=
  match components with
  | [] => None
  | comp :: rest =>
      if negb (Z.eqb idx_pos 0) then
        if Reqb freq (c1 comp) then Some (c0 comp, c2 comp)
        else check_loop freq idx_pos rest
      else
        if Reqb freq (c0 comp) then Some (c1 comp, c2 comp)
        else check_loop freq idx_pos rest
  end.

Definition check_component (freq : R) (components : list component)
    (idx_pos : Z) (sigmode : option string) : option (R * R) :=
  let idx_pos :=
    match sigmode with
    | Some md =>
        if String.eqb md "real" || String.eqb md "analytic" then 1%Z
        else if String.eqb md "complex" then 0%Z
        else idx_pos
    | None => idx_pos
    end in
  check_loop freq idx_pos components.







End TestSupport.

(* ================================================================== *)
(** * Equality of complex numbers *)

Module CplxProps.

Lemma C_eq (a b : C) : Re a = Re b -> Im a = Im b -> a = b.
Proof. destruct a, b; simpl; intros -> ->; reflexivity. Qed.

Lemma cmul_comm (a b : C) : cmul a b = cmul b a.
Proof. apply C_eq; simpl; ring. Qed.

Lemma cmul_RtoC (x y : R) : cmul (RtoC x) (RtoC y) = RtoC (x * y).
Proof. apply C_eq; simpl; ring. Qed.

End CplxProps.

Import CplxProps.

(* ================================================================== *)
(** * Properties of the convolver *)

Module ConvolverProps.

Import Convolver.

Section WithScalars.

Variable T : Type.
Variable zero : T.
Variables add mul : T -> T -> T.

Local Abbreviation OTF := (OTFConvolver T).
Local Abbreviation next := (@next T zero add mul).
Local Abbreviation run := (@run T zero add mul).
Local Abbreviation convolution_step := (@convolution_step T zero add mul).
Local Abbreviation cross_correlation := (@cross_correlation T zero add mul).
Local Abbreviation __init__ := (@__init__ T zero add mul).

Lemma length_upd (a : list T) (i : nat) (x : T) :
  length (upd a i x) = length a.
Proof.
  revert i; induction a as [|y a IH]; intros [|i]; simpl; auto.
Qed.

Lemma nth_upd_same (a : list T) (i : nat) (x d : T) :
  i < length a -> nth i (upd a i x) d = x.
Proof.
  revert i; induction a as [|y a IH]; intros [|i] Hi; simpl in *; try lia; auto.
  apply IH; lia.
Qed.

Lemma nth_upd_other (a : list T) (i j : nat) (x d : T) :
  i <> j -> nth j (upd a i x) d = nth j a d.
Proof.
  revert i j; induction a as [|y a IH]; intros [|i] [|j] Hij; simpl; auto; try lia.
Qed.

Lemma setitem_in_range (a : list T) (i : nat) (x : T) :
  i < length a -> setitem a i x = Ok (upd a i x).
Proof.
  intros Hi; unfold setitem.
  destruct (Nat.ltb_spec i (length a)); [reflexivity | lia].
Qed.

Lemma length_rotated (a : list T) (o : nat) :
  o <= length a -> length (rotated a o) = length a.
Proof.
  intros Ho; unfold rotated.
  rewrite length_app, length_skipn, length_firstn; lia.
Qed.

(** Reading the rotated buffer at [n] reads the buffer at
    [(o + n) mod K]. *)
Lemma nth_rotated (a : list T) (o n : nat) (d : T) :
  o < length a -> n < length a ->
  nth n (rotated a o) d = nth ((o + n) mod length a) a d.
Proof.
  intros Ho Hn; unfold rotated.
  destruct (Nat.lt_ge_cases n (length a - o)) as [Hlt | Hge].
  - rewrite app_nth1 by (rewrite length_skipn; exact Hlt).
    rewrite nth_skipn, Nat.mod_small by lia; reflexivity.
  - rewrite app_nth2 by (rewrite length_skipn; exact Hge).
    rewrite length_skipn, nth_firstn.
    destruct (Nat.ltb_spec (n - (length a - o)) o) as [_ | Hbad]; [| lia].
    f_equal.
    apply Nat.mod_unique with (q := 1); lia.
Qed.

Lemma np_mul_same_length (a b : list T) :
  length a = length b ->
  np_mul mul a b = Ok (map (fun p => mul (fst p) (snd p)) (combine a b)).
Proof.
  intros H; unfold np_mul; rewrite H, Nat.eqb_refl; reflexivity.
Qed.

(** The products taken by [convolution_step], tap by tap. *)
Lemma products_by_index (kernel buf : list T) (o : nat) :
  length buf = length kernel -> o < length kernel ->
  map (fun p => mul (fst p) (snd p)) (combine kernel (rotated buf o)) =
  map (fun n => mul (nth n kernel zero) (nth ((o + n) mod length kernel) buf zero))
      (seq 0 (length kernel)).
Proof.
  intros Hb Ho.
  assert (Hr : length (rotated buf o) = length kernel)
    by (rewrite length_rotated; lia).
  set (f := fun p : T * T => mul (fst p) (snd p)).
  set (g := fun n => mul (nth n kernel zero) (nth ((o + n) mod length kernel) buf zero)).
  apply nth_ext with (d := f (zero, zero)) (d' := g 0).
  - rewrite !length_map, length_combine, length_seq, Hr; lia.
  - intros n Hn.
    rewrite length_map, length_combine, Hr, Nat.min_id in Hn.
    rewrite (map_nth f), (map_nth g).
    rewrite combine_nth by (symmetry; exact Hr).
    rewrite seq_nth by exact Hn.
    unfold f, g; simpl.
    rewrite nth_rotated by lia.
    rewrite Hb; reflexivity.
Qed.

(** The state a convolver keeps between calls. *)
Record wf (kernel : list T) (c : OTF) : Prop := mkWf {
  wf_F : F c = kernel;
  wf_K : K c = length kernel;
  wf_buf : length (circ_buf c) = length kernel;
  wf_oldest : oldest c < length kernel;
  wf_unprimed : length (data c) < length kernel -> oldest c = 0;
  wf_M : M c = None
}.

(** [convolution_step] on a well-formed convolver. *)
Lemma convolution_step_wf (kernel : list T) (c : OTF) (x : T) :
  wf kernel c ->
  let k := length kernel in
  let y := cross_correlation kernel (circ_buf c) (oldest c) k in
  let o := (oldest c + 1) mod k in
  convolution_step c x =
    Ok (y, mkOTF kernel k (upd (circ_buf c) o x) (filtered c ++ [y]) o (data c) None).
Proof.
  intros [HF HK Hb Ho Hu HM] k y o.
  assert (Hk : k <> 0) by (unfold k; lia).
  assert (Ho' : o < k) by (apply Nat.mod_upper_bound; exact Hk).
  unfold convolution_step.
  rewrite np_mul_same_length by (rewrite length_rotated, HF; lia).
  simpl. rewrite HF, HK.
  unfold py_mod. destruct (Nat.eqb_spec (length kernel) 0) as [E | _]; [lia |].
  simpl. rewrite setitem_in_range by (rewrite Hb; exact Ho').
  simpl. rewrite products_by_index by assumption.
  unfold set_circ_buf, set_oldest, set_filtered; simpl.
  rewrite HF, HK, HM; reflexivity.
Qed.

(** [next] while the buffer fills. *)
Lemma next_unprimed (kernel : list T) (c : OTF) (x : T) :
  wf kernel c ->
  Datatypes.S (length (data c)) < length kernel ->
  next c x =
    Ok (None, mkOTF kernel (length kernel)
                    (upd (circ_buf c) (Datatypes.S (length (data c))) x)
                    (filtered c ++ [zero]) (oldest c) (data c ++ [x]) None).
Proof.
  intros [HF HK Hb Ho Hu HM] Hi.
  unfold Convolver.next; simpl.
  rewrite length_app, Nat.add_1_r; simpl.
  rewrite HK.
  destruct (Nat.ltb_spec (Datatypes.S (length (data c))) (length kernel)); [| lia].
  rewrite setitem_in_range by (rewrite Hb; exact Hi).
  simpl. unfold set_filtered, set_circ_buf, set_data; simpl.
  rewrite HF, HK, HM; reflexivity.
Qed.

(** [next] once primed. *)
Lemma next_primed (kernel : list T) (c : OTF) (x : T) :
  wf kernel c ->
  length kernel <= Datatypes.S (length (data c)) ->
  let k := length kernel in
  let y := cross_correlation kernel (circ_buf c) (oldest c) k in
  let o := (oldest c + 1) mod k in
  next c x =
    Ok (Some y, mkOTF kernel k (upd (circ_buf c) o x) (filtered c ++ [y; y]) o
                      (data c ++ [x]) None).
Proof.
  intros Hwf Hi k y o.
  pose proof Hwf as [HF HK Hb Ho Hu HM].
  unfold Convolver.next; simpl.
  rewrite length_app, Nat.add_1_r; simpl.
  rewrite HK.
  destruct (Nat.ltb_spec (Datatypes.S (length (data c))) (length kernel)); [lia |].
  assert (Hwf' : wf kernel (set_data c (data c ++ [x]))).
  { constructor; simpl; auto. intros Hd. rewrite length_app in Hd; simpl in Hd; lia. }
  rewrite (convolution_step_wf x Hwf'); simpl.
  unfold set_filtered; simpl.
  rewrite last_last, <- app_assoc; reflexivity.
Qed.

Lemma next_preserves_wf (kernel : list T) (c : OTF) (x : T) :
  wf kernel c ->
  exists y c', next c x = Ok (y, c') /\ wf kernel c' /\ data c' = data c ++ [x].
Proof.
  intros Hwf.
  pose proof Hwf as [HF HK Hb Ho Hu HM].
  assert (Hk : length kernel <> 0) by lia.
  destruct (Nat.lt_ge_cases (Datatypes.S (length (data c))) (length kernel)) as [Hlt | Hge].
  - rewrite (next_unprimed x Hwf Hlt).
    eexists _, _; split; [reflexivity |].
    split; [| reflexivity].
    constructor; simpl; auto.
    + rewrite length_upd; exact Hb.
    + intros _; apply Hu; lia.
  - rewrite (next_primed x Hwf Hge).
    eexists _, _; split; [reflexivity |].
    split; [| reflexivity].
    constructor; simpl; auto.
    + rewrite length_upd; exact Hb.
    + apply Nat.mod_upper_bound; exact Hk.
    + rewrite length_app; simpl; lia.
Qed.

Lemma run_wf (kernel : list T) (xs : list T) (c : OTF) :
  wf kernel c ->
  exists outs c', run c xs = Ok (outs, c') /\ wf kernel c' /\
                  data c' = data c ++ xs /\ length outs = length xs.
Proof.
  revert c; induction xs as [|x xs IH]; intros c Hwf.
  - exists [], c; simpl; rewrite app_nil_r; auto.
  - destruct (next_preserves_wf x Hwf) as (y & c1 & Hn & Hwf1 & Hd1).
    destruct (IH c1 Hwf1) as (outs & c2 & Hr & Hwf2 & Hd2 & Hl).
    exists (y :: outs), c2; simpl.
    rewrite Hn; simpl; rewrite Hr; simpl.
    split; [reflexivity |].
    split; [exact Hwf2 |].
    split; [rewrite Hd2, Hd1, <- app_assoc; reflexivity | simpl; rewrite Hl; reflexivity].
Qed.

Lemma init_no_data (kernel : list T) :
  __init__ kernel None =
    Ok (mkOTF kernel (length kernel) (np_zeros zero (length kernel)) [] 0 [] None).
Proof. reflexivity. Qed.

Lemma init_wf (kernel : list T) :
  1 <= length kernel ->
  wf kernel (mkOTF kernel (length kernel) (np_zeros zero (length kernel)) [] 0 [] None).
Proof.
  intros Hk; constructor; simpl; auto.
  unfold np_zeros; apply repeat_length.
Qed.

(** C1.  With a kernel of [K >= 1] taps and a convolver made without data,
    consider the [i]-th call of [next], [i = 1 + length xs], after the calls
    on the samples [xs]; the buffer has [K] slots before and after it.
    If [i < K] the call returns [None], leaves [oldest] at 0 and writes the
    sample into slot [i] of the buffer, every other slot staying as it
    was.  If [i >= K] it returns the sum over [n < K] of
    [kernel[n] * buffer[(oldest + n) mod K]], taken on the buffer as the call
    found it; [oldest] then moves on by one (mod [K]) and the sample is
    stored at the new [oldest], every other slot staying as it was.  The
    sum is written out as the fold it is, the buffer by its length and its
    slots. *)
Theorem next_ith_call (kernel xs : list T) (x : T) :
  1 <= length kernel ->
  exists outs c y c',
    (c0 <- __init__ kernel None ;; run c0 xs) = Ok (outs, c) /\
    next c x = Ok (y, c') /\
    data c = xs /\ data c' = xs ++ [x] /\
    length (circ_buf c) = length kernel /\
    length (circ_buf c') = length kernel /\
    (Datatypes.S (length xs) < length kernel ->
       y = None /\
       oldest c = 0 /\ oldest c' = 0 /\
       nth (Datatypes.S (length xs)) (circ_buf c') zero = x /\
       (forall j, j <> Datatypes.S (length xs) ->
          nth j (circ_buf c') zero = nth j (circ_buf c) zero) /\
       filtered c' = filtered c ++ [zero]) /\
    (length kernel <= Datatypes.S (length xs) ->
       let sum :=
         fold_left add
           (map (fun n => mul (nth n kernel zero)
                              (nth ((oldest c + n) mod length kernel) (circ_buf c) zero))
                (seq 0 (length kernel)))
           zero in
       y = Some sum /\
       oldest c' = (oldest c + 1) mod length kernel /\
       nth (oldest c') (circ_buf c') zero = x /\
       (forall j, j <> oldest c' ->
          nth j (circ_buf c') zero = nth j (circ_buf c) zero) /\
       filtered c' = filtered c ++ [sum; sum]).
Proof.
  intros Hk.
  rewrite init_no_data; simpl.
  destruct (run_wf xs (@init_wf kernel Hk)) as (outs & c & Hrun & Hwf & Hd & _).
  simpl in Hd.
  pose proof Hwf as [HF HK Hb Ho Hu HM].
  assert (Hk0 : length kernel <> 0) by lia.
  destruct (Nat.lt_ge_cases (Datatypes.S (length xs)) (length kernel)) as [Hi | Hi].
  - assert (H0 : oldest c = 0) by (apply Hu; rewrite Hd; lia).
    eexists outs, c, _, _.
    split; [exact Hrun |].
    split; [apply (@next_unprimed kernel c x Hwf); rewrite Hd; exact Hi |].
    cbn [data circ_buf oldest filtered].
    rewrite length_upd, Hd.
    repeat split; try assumption; try reflexivity; try (intros; exfalso; lia).
    + apply nth_upd_same; rewrite Hb; exact Hi.
    + intros j Hj; apply nth_upd_other; intros E; apply Hj; symmetry; exact E.
  - eexists outs, c, _, _.
    split; [exact Hrun |].
    split; [apply (@next_primed kernel c x Hwf); rewrite Hd; exact Hi |].
    cbn [data circ_buf oldest filtered].
    rewrite length_upd, Hd.
    repeat split; try assumption; try reflexivity; try (intros; exfalso; lia).
    + apply nth_upd_same; rewrite Hb; apply Nat.mod_upper_bound; exact Hk0.
    + intros j Hj; apply nth_upd_other; intros E; apply Hj; symmetry; exact E.
Qed.

(** C7, as the code has it.  Making a convolver without data (no data, or
    an empty list) succeeds for every kernel, the empty one included: the
    object has [K = len(kernel)], a buffer of [K] zeros, [oldest = 0] and
    empty histories.  With the empty kernel it is the first call of [next]
    that fails, on the division by zero in [(oldest+1) % K]. *)
Theorem init_without_data_succeeds (kernel : list T) :
  __init__ kernel None =
    Ok (mkOTF kernel (length kernel) (np_zeros zero (length kernel)) [] 0 [] None) /\
  __init__ kernel (Some []) = __init__ kernel None /\
  (forall x : T, next (mkOTF [] 0 [] [] 0 [] None) x = Raise ZeroDivisionError).
Proof.
  split; [reflexivity |].
  split; [reflexivity |].
  intros x; reflexivity.
Qed.

(** C8.  Making a convolver with a non-empty data list raises [NameError]:
    the loop passes the name [sample], which is bound nowhere, so no
    sample is processed and no filtered history is left. *)
Theorem init_with_data_raises (kernel : list T) (d : T) (ds : list T) :
  __init__ kernel (Some (d :: ds)) = Raise (NameError "sample").
Proof. reflexivity. Qed.

End WithScalars.

(** ** The convolver on integer samples *)

(** C1 at the taps [2; 3], for the third call, with sample 11 after the
    samples 5 and 7: here [i = 3 >= K = 2], so the call returns a sum. *)
Lemma next_ith_call_witness :
  exists outs c y c',
    (c0 <- Convolver.__init__ 0%Z Z.add Z.mul [2; 3]%Z None ;;
     Convolver.run 0%Z Z.add Z.mul c0 [5; 7]%Z) = Ok (outs, c) /\
    Convolver.next 0%Z Z.add Z.mul c 11%Z = Ok (y, c') /\
    data c = [5; 7]%Z /\ data c' = [5; 7; 11]%Z /\
    length (circ_buf c) = 2 /\
    length (circ_buf c') = 2 /\
    (3 < 2 ->
       y = None /\
       oldest c = 0 /\ oldest c' = 0 /\
       nth 3 (circ_buf c') 0%Z = 11%Z /\
       (forall j, j <> 3 -> nth j (circ_buf c') 0%Z = nth j (circ_buf c) 0%Z) /\
       filtered c' = filtered c ++ [0%Z]) /\
    (2 <= 3 ->
       let sum :=
         fold_left Z.add
           (map (fun n => Z.mul (nth n [2; 3]%Z 0%Z)
                                (nth ((oldest c + n) mod 2) (circ_buf c) 0%Z))
                (seq 0 2))
           0%Z in
       y = Some sum /\
       oldest c' = (oldest c + 1) mod 2 /\
       nth (oldest c') (circ_buf c') 0%Z = 11%Z /\
       (forall j, j <> oldest c' ->
          nth j (circ_buf c') 0%Z = nth j (circ_buf c) 0%Z) /\
       filtered c' = filtered c ++ [sum; sum]).
Proof.
  apply (@next_ith_call Z 0%Z Z.add Z.mul [2; 3]%Z [5; 7]%Z 11%Z).
  simpl; lia.
Defined.

(** C7 as stated fails: the empty kernel is accepted at construction. *)
Lemma empty_kernel_is_accepted :
  Convolver.__init__ 0%Z Z.add Z.mul [] None = Ok (mkOTF [] 0 [] [] 0 [] None) /\
  ~ raises (Convolver.__init__ 0%Z Z.add Z.mul [] None).
Proof.
  split; [reflexivity |].
  intros [e He]; discriminate He.
Qed.

(** A run on the taps [2; 3]: two calls prime the filter, and the third
    reads the buffer in rotated order. *)
Example run_three_samples :
  (c0 <- Convolver.__init__ 0%Z Z.add Z.mul [2; 3]%Z None ;;
   Convolver.run 0%Z Z.add Z.mul c0 [5; 7; 11]%Z) =
  Ok ([None; Some 15%Z; Some 14%Z],
      mkOTF [2; 3]%Z 2 [11; 7]%Z [0; 15; 15; 14; 14]%Z 0 [5; 7; 11]%Z None).
Proof. reflexivity. Qed.

End ConvolverProps.

(* ================================================================== *)
(** * Properties of DigitalSignal and of is_quadrature *)

Module SignalProps.

Import NumPy Signals.
Local Open Scope R_scope.

Lemma assign_same_length (n : nat) (src : list R) :
  length src = n -> assign n src = Ok src.
Proof.
  intros H; unfold assign.
  destruct (Nat.eqb_spec (length src) n); [reflexivity | contradiction].
Qed.

(** A source of two or more elements does not broadcast to another length. *)
Lemma assign_mismatch (n : nat) (src : list R) :
  length src <> n -> (2 <= length src)%nat ->
  assign n src = Raise (ValueError "could not broadcast input array").
Proof.
  intros Hn H2; unfold assign.
  destruct (Nat.eqb_spec (length src) n) as [E | _]; [contradiction |].
  destruct src as [|a [|b src]]; simpl in H2; try lia; reflexivity.
Qed.

(** A source of no element does not broadcast to a longer view. *)
Lemma assign_empty (n : nat) :
  (1 <= n)%nat -> assign n [] = Raise (ValueError "could not broadcast input array").
Proof.
  intros Hn; unfold assign; simpl.
  destruct n; [lia | reflexivity].
Qed.

(** What [DigitalSignal(I=..., Q=...)] does on arrays of different lengths
    when the longer one has two or more elements: the assignment of the
    longer array to the shorter view raises [ValueError]; nothing is
    truncated. *)
Lemma new_unequal_lengths (M : nat) (i q : list R) :
  length i <> length q ->
  (2 <= Nat.max (length i) (length q))%nat ->
  __new__ M (Some i) (Some q) =
    Raise (ValueError "could not broadcast input array").
Proof.
  intros Hne H2; unfold __new__.
  destruct (Nat.eqb_spec (length q) (length i)) as [E | _]; [congruence |].
  destruct (Nat.lt_ge_cases (length q) (length i)) as [Hlt | Hge].
  - (* I is the longer: [obj.real = I] fails *)
    rewrite Nat.min_r by lia.
    rewrite assign_mismatch by lia; reflexivity.
  - (* Q is the longer: [obj.imag = Q] fails *)
    rewrite Nat.min_l by lia.
    rewrite assign_same_length by reflexivity; simpl.
    rewrite assign_same_length by apply repeat_length; simpl.
    rewrite assign_mismatch by lia; reflexivity.
Qed.

(** C6.  [I] of length 10 and [Q] of length 7: the constructor computes
    [M = 7] and then raises [ValueError] at [obj.real = I]; no signal of
    length 7 comes back. *)
Theorem new_I10_Q7_raises :
  __new__ 1024 (Some (repeat 0 10)) (Some (repeat 0 7)) =
    Raise (ValueError "could not broadcast input array") /\
  forall (M : nat) (i q : list R),
    length i = 10%nat -> length q = 7%nat ->
    __new__ M (Some i) (Some q) =
      Raise (ValueError "could not broadcast input array").
Proof.
  split.
  - apply new_unequal_lengths; rewrite !repeat_length; lia.
  - intros M i q Hi Hq; apply new_unequal_lengths; rewrite Hi, Hq; lia.
Qed.

(** With equal lengths the constructor pairs the two arrays. *)
Lemma new_equal_lengths (M : nat) (i q : list R) :
  length i = length q ->
  __new__ M (Some i) (Some q) =
    Ok (mkSignal (ComplexArr (of_parts i q)) (mkInfo "complex" [])).
Proof.
  intros H; unfold __new__.
  destruct (Nat.eqb_spec (length q) (length i)) as [_ | E]; [| congruence].
  rewrite (@assign_same_length (length i) i eq_refl); simpl.
  rewrite (@assign_same_length (length i) (repeat 0 (length i)) (repeat_length _ _)); simpl.
  rewrite (@assign_same_length (length i) q (eq_sym H)); reflexivity.
Qed.

Lemma new_real (M : nat) (i : list R) :
  __new__ M (Some i) None = Ok (mkSignal (FloatArr i) (mkInfo "real" [])).
Proof.
  unfold __new__; rewrite assign_same_length by reflexivity; reflexivity.
Qed.

Lemma of_parts_Re_Im (v : list C) : of_parts (map Re v) (map Im v) = v.
Proof.
  unfold of_parts; induction v as [|[a b] v IH]; simpl; [reflexivity |].
  f_equal; exact IH.
Qed.

Lemma length_of_parts (re im : list R) :
  length (of_parts re im) = Nat.min (length re) (length im).
Proof. unfold of_parts; rewrite length_map, length_combine; reflexivity. Qed.

(** ** is_quadrature *)

Lemma Rtruthy_0 : Rtruthy 0 = false.
Proof. unfold Rtruthy; destruct (Req_dec_T 0 0) as [_ | H]; [reflexivity | contradiction]. Qed.

Lemma combine_map_r {A B : Type} (f : A -> B) (v : list A) :
  combine v (map f v) = map (fun z => (z, f z)) v.
Proof. induction v as [|a v IH]; simpl; [reflexivity | f_equal; exact IH]. Qed.

(** A sample times its own conjugate has imaginary part zero. *)
Lemma Im_mul_conj (z : C) : Im (cmul z (conj z)) = 0.
Proof. destruct z as [a b]; simpl; ring. Qed.

Lemma mul_conjugate (v : list C) :
  mul (ComplexArr v) (conjugate (ComplexArr v)) =
    Ok (ComplexArr (map (fun z => cmul z (conj z)) v)).
Proof.
  simpl; unfold broadcast2.
  rewrite length_map, Nat.eqb_refl.
  rewrite combine_map_r, map_map; reflexivity.
Qed.

Lemma all_zero_imag (v : list C) :
  all (imag (ComplexArr (map (fun z => cmul z (conj z)) v))) =
    match v with [] => true | _ :: _ => false end.
Proof.
  destruct v as [|z v]; [reflexivity |].
  cbn [imag map all forallb].
  rewrite Im_mul_conj, Rtruthy_0; reflexivity.
Qed.

(** What the predicate computes over exact products: true exactly on
    complex arrays that are not empty. *)
Lemma is_quadrature_computes (a : ndarray) :
  is_quadrature a =
    Ok match a with
       | ComplexArr (_ :: _) => true
       | _ => false
       end.
Proof.
  destruct a as [v | v]; [reflexivity |].
  unfold is_quadrature.
  change (negb (dtype_eqb (dtype_of (ComplexArr v)) complex)) with false.
  cbv iota.
  rewrite mul_conjugate; cbv beta iota delta [bind].
  rewrite all_zero_imag.
  destruct v; reflexivity.
Qed.

(** C10.  On the empty complex signal every index (there is none) has a
    product with zero imaginary part, yet the predicate returns [False]:
    [all()] of an empty array is true, and [True == 0] is false. *)
Theorem is_quadrature_empty_complex :
  dtype_of (ComplexArr []) = complex /\
  Forall (fun z => Im (cmul z (conj z)) = 0) [] /\
  is_quadrature (ComplexArr []) = Ok false.
Proof.
  split; [reflexivity |].
  split; [constructor |].
  apply is_quadrature_computes.
Qed.

End SignalProps.

(* ================================================================== *)
(** * Properties of the signal generator *)

Module GeneratorProps.

Import NumPy Signals PyStr Generator.
Local Open Scope R_scope.

Section Zips.

Variables A B D : Type.

Lemma map_fst_combine_eq (v : list A) (m : list B) :
  length v = length m -> map fst (combine v m) = v.
Proof.
  revert m; induction v as [|a v IH]; intros [|b m] H; simpl in *;
    try discriminate; [reflexivity |].
  f_equal; apply IH; congruence.
Qed.

Lemma combine_map_snd (t : B -> D) (v : list A) (m : list B) :
  combine v (map t m) = map (fun p => (fst p, t (snd p))) (combine v m).
Proof.
  revert m; induction v as [|a v IH]; intros [|b m]; simpl; try reflexivity.
  f_equal; apply IH.
Qed.

Lemma map_combine_map_combine (f : A * B -> A) (g : A * B -> D)
    (v : list A) (m : list B) :
  map g (combine (map f (combine v m)) m) =
  map (fun p => g (f p, snd p)) (combine v m).
Proof.
  revert m; induction v as [|a v IH]; intros [|b m]; simpl; try reflexivity.
  f_equal; apply IH.
Qed.

Lemma map_combine_repeat_seq (g : A * nat -> D) (z : A) (k a : nat) :
  map g (combine (repeat z k) (seq a k)) = map (fun n => g (z, n)) (seq a k).
Proof.
  revert a; induction k as [|k IH]; intros a; simpl; [reflexivity |].
  f_equal; apply IH.
Qed.

End Zips.

Lemma zero_signal_real (M : nat) :
  map Re (of_parts (repeat 0 M) (repeat 0 M)) = repeat 0 M.
Proof.
  unfold of_parts; induction M as [|M IH]; simpl; [reflexivity | f_equal; exact IH].
Qed.

Lemma zero_signal_complex (M : nat) :
  of_parts (repeat 0 M) (repeat 0 M) = repeat C0 M.
Proof.
  unfold of_parts; induction M as [|M IH]; simpl; [reflexivity | f_equal; exact IH].
Qed.

(** ** The loops, slot by slot *)

Lemma iaddR_same_length (v t : list R) :
  length t = length v ->
  iaddR v t = Ok (map (fun p => fst p + snd p) (combine v t)).
Proof.
  intros H; unfold iaddR, assign.
  destruct (Nat.eqb_spec (length t) (length v)); [reflexivity | contradiction].
Qed.

Lemma iaddC_same_length (v t : list C) :
  length t = length v ->
  iaddC v t = Ok (map (fun p => cadd (fst p) (snd p)) (combine v t)).
Proof.
  intros H; unfold iaddC.
  destruct (Nat.eqb_spec (length t) (length v)); [reflexivity | contradiction].
Qed.

Lemma real_loop_computes (all_comps : list component) (M : nat) (m : list nat)
    (comps : list component) :
  forall (S0 : DigitalSignal) (v : list R),
    samples S0 = FloatArr v -> length v = length m ->
    exists S1,
      real_loop all_comps M m comps S0 = Ok S1 /\
      samples S1 =
        FloatArr (map (fun p => real_slot M comps (snd p) (fst p)) (combine v m)).
Proof.
  induction comps as [|comp rest IH]; intros S0 v Hs Hl.
  - exists S0; split; [reflexivity |].
    rewrite Hs; f_equal; symmetry.
    change (fun p : R * nat => real_slot M [] (snd p) (fst p)) with (@fst R nat).
    apply map_fst_combine_eq; exact Hl.
  - cbn [real_loop].
    rewrite Hs; cbn [real].
    rewrite iaddR_same_length by (unfold real_term; rewrite length_map; auto).
    cbv beta iota delta [bind].
    unfold real_term at 1; rewrite combine_map_snd, map_map; cbn [fst snd].
    match goal with
    | |- context [real_loop _ _ _ _ ?S'] =>
        destruct (IH S' _ eq_refl) as (S1 & Hrun & Hv)
    end.
    { rewrite length_map, length_combine, Hl, Nat.min_id; reflexivity. }
    exists S1; split; [exact Hrun |].
    rewrite Hv; f_equal.
    rewrite (map_combine_map_combine
               (fun p => fst p + c0 comp * cos (2 * PI * (c1 comp * INR (snd p) / INR M + c2 comp)))
               (fun p => real_slot M rest (snd p) (fst p))).
    reflexivity.
Qed.

Lemma complex_loop_computes (all_comps : list component) (M : nat) (m : list nat)
    (comps : list component) :
  forall (S0 : DigitalSignal) (v : list C),
    samples S0 = ComplexArr v -> length v = length m ->
    exists S1,
      complex_loop all_comps M m comps S0 = Ok S1 /\
      samples S1 =
        ComplexArr (map (fun p => complex_slot M comps (snd p) (fst p)) (combine v m)).
Proof.
  induction comps as [|comp rest IH]; intros S0 v Hs Hl.
  - exists S0; split; [reflexivity |].
    rewrite Hs; f_equal; symmetry.
    change (fun p : C * nat => complex_slot M [] (snd p) (fst p)) with (@fst C nat).
    apply map_fst_combine_eq; exact Hl.
  - cbn [complex_loop].
    rewrite Hs; cbn [as_complex].
    rewrite iaddC_same_length by (unfold complex_term; rewrite length_map; auto).
    cbv beta iota delta [bind].
    unfold complex_term at 1; rewrite combine_map_snd, map_map; cbn [fst snd].
    match goal with
    | |- context [complex_loop _ _ _ _ ?S'] =>
        destruct (IH S' _ eq_refl) as (S1 & Hrun & Hv)
    end.
    { rewrite length_map, length_combine, Hl, Nat.min_id; reflexivity. }
    exists S1; split; [exact Hrun |].
    rewrite Hv; f_equal.
    rewrite (map_combine_map_combine
               (fun p => cadd (fst p)
                              (cmul (mkC (cos (2 * PI * c0 comp * INR (snd p) / INR M))
                                         (sin (2 * PI * c0 comp * INR (snd p) / INR M)))
                                    (complex_of (c1 comp) (c2 comp))))
               (fun p => complex_slot M rest (snd p) (fst p))).
    reflexivity.
Qed.

(** ** The generated signal *)

(** Real mode: every slot is the sum over the components of
    [amplitude * cos(2 pi (frequency n / M + phase))], stored as floats. *)
Lemma generated_real (md : string) (M : nat) (c : component) (cs : list component) :
  py_in (lower md) "real" = true ->
  generated md M (c :: cs) =
    Ok (FloatArr (map (fun n => real_slot M (c :: cs) n 0) (seq 0 M))).
Proof.
  intros Hmode.
  unfold generated, Generator.__init__.
  cbn [Signals.__new__ bind].
  rewrite Hmode.
  destruct (@real_loop_computes (c :: cs) M (arange M) (c :: cs)
              (set_samples
                 (set_mode
                    (mkSignal (ComplexArr (of_parts (repeat 0 M) (repeat 0 M)))
                              (mkInfo "complex" []))
                    (lower md))
                 (FloatArr (real (samples
                    (set_mode
                       (mkSignal (ComplexArr (of_parts (repeat 0 M) (repeat 0 M)))
                                 (mkInfo "complex" []))
                       (lower md))))))
              (repeat 0 M)) as (S1 & Hrun & Hv).
  { cbn [set_samples set_mode samples real]. rewrite zero_signal_real; reflexivity. }
  { unfold arange; rewrite repeat_length, length_seq; reflexivity. }
  rewrite Hrun; cbn [bind].
  unfold signal; cbn [Generator.mode Generator.S].
  assert (E : map (fun p : R * nat => real_slot M (c :: cs) (snd p) (fst p))
                  (combine (repeat 0 M) (arange M)) =
              map (fun n => real_slot M (c :: cs) n 0) (seq 0 M)).
  { unfold arange.
    apply (map_combine_repeat_seq
             (fun p : R * nat => real_slot M (c :: cs) (snd p) (fst p)) 0 M 0). }
  destruct (String.eqb md "real"); cbn [set_samples samples];
    rewrite Hv; cbn [real]; rewrite E; reflexivity.
Qed.

(** Complex mode: every slot is the sum over the components of the complex
    product [(cos t + i sin t) * (Icoef + i Qcoef)],
    [t = 2 pi frequency n / M]. *)
Lemma generated_complex (M : nat) (c : component) (cs : list component) :
  generated "complex" M (c :: cs) =
    Ok (ComplexArr (map (fun n => complex_slot M (c :: cs) n C0) (seq 0 M))).
Proof.
  unfold generated, Generator.__init__.
  cbn [Signals.__new__ bind].
  change (py_in (lower "complex") "real") with false.
  change (py_in (lower "complex") "analytic") with false.
  change (py_in (lower "complex") "complex") with true.
  cbv iota.
  destruct (@complex_loop_computes (c :: cs) M (arange M) (c :: cs)
              (set_mode
                 (mkSignal (ComplexArr (of_parts (repeat 0 M) (repeat 0 M)))
                           (mkInfo "complex" []))
                 (lower "complex"))
              (repeat C0 M)) as (S1 & Hrun & Hv).
  { cbn [set_mode samples]. rewrite zero_signal_complex; reflexivity. }
  { unfold arange; rewrite repeat_length, length_seq; reflexivity. }
  rewrite Hrun; cbn [bind].
  unfold signal; cbn [Generator.mode Generator.S].
  change (String.eqb "complex" "real") with false; cbv iota.
  rewrite Hv; unfold arange.
  rewrite (map_combine_repeat_seq
             (fun p : C * nat => complex_slot M (c :: cs) (snd p) (fst p)) C0 M 0).
  reflexivity.
Qed.

(** The slot formulas written out: one complex product per component. *)
Lemma complex_slot_parts (M : nat) (comp : component) (n : nat) :
  complex_slot M [comp] n C0 =
    mkC (0 + (cos (2 * PI * c0 comp * INR n / INR M) * c1 comp
              - sin (2 * PI * c0 comp * INR n / INR M) * c2 comp))
        (0 + (cos (2 * PI * c0 comp * INR n / INR M) * c2 comp
              + sin (2 * PI * c0 comp * INR n / INR M) * c1 comp)).
Proof. reflexivity. Qed.

(** C4.  Real mode with [M = 4] and the one component
    (amplitude 1, frequency 1, phase 1/4): the generated sample at
    [n = 1] is [cos(2 pi (1/4 + 1/4)) = -1], the phase being added; the
    sum of the specification, with the phase subtracted, is
    [cos(2 pi (1/4 - 1/4)) = 1]. *)
Theorem real_mode_adds_phase :
  exists v,
    generated "real" 4 [(1, 1, / 4)] = Ok (FloatArr v) /\
    nth 1 v 0 = -1 /\
    spec_real_value 4 [(1, 1, / 4)] 1 = 1.
Proof.
  eexists; split; [apply generated_real; reflexivity |].
  split.
  - cbn [seq map nth real_slot fold_left c0 c1 c2 fst snd INR].
    replace (2 * PI * (1 * 1 / (1 + 1 + 1 + 1) + / 4)) with PI by field.
    rewrite cos_PI; ring.
  - cbn [spec_real_value fold_left c0 c1 c2 fst snd INR].
    replace (2 * PI * (1 * 1 / (1 + 1 + 1 + 1) - / 4)) with 0 by field.
    rewrite cos_0; ring.
Qed.

(** One component's share of a complex-mode sample, part by part. *)
Lemma complex_slot_unfolded (M : nat) (comps : list component) (n : nat) :
  forall init : C,
    complex_slot M comps n init =
      fold_left
        (fun acc comp =>
           cadd acc
             (mkC (c1 comp * cos (2 * PI * c0 comp * INR n / INR M)
                   - c2 comp * sin (2 * PI * c0 comp * INR n / INR M))
                  (c1 comp * sin (2 * PI * c0 comp * INR n / INR M)
                   + c2 comp * cos (2 * PI * c0 comp * INR n / INR M))))
        comps init.
Proof.
  unfold complex_slot.
  induction comps as [|comp rest IH]; intros init; [reflexivity |].
  cbn [fold_left]; rewrite IH; f_equal; f_equal.
  apply C_eq; cbn [cmul complex_of Re Im]; ring.
Qed.

(** C2, as the code has it.  In complex mode the signal has [M] samples,
    and sample [n] is the sum over the components
    (frequency, Icoef, Qcoef) of the complex product
    [(cos t + i sin t) * (Icoef + i Qcoef)], [t = 2 pi frequency n / M]:
    its real part is [Icoef cos t - Qcoef sin t], its imaginary part
    [Icoef sin t + Qcoef cos t].  With no component the signal is [M]
    zeros. *)
Theorem complex_mode_is_complex_product (M : nat) (c : component) (cs : list component) :
  (exists v,
     generated "complex" M (c :: cs) = Ok (ComplexArr v) /\
     length v = M /\
     forall n : nat, (n < M)%nat ->
       nth n v C0 =
         fold_left
           (fun acc comp =>
              cadd acc
                (mkC (c1 comp * cos (2 * PI * c0 comp * INR n / INR M)
                      - c2 comp * sin (2 * PI * c0 comp * INR n / INR M))
                     (c1 comp * sin (2 * PI * c0 comp * INR n / INR M)
                      + c2 comp * cos (2 * PI * c0 comp * INR n / INR M))))
           (c :: cs) C0) /\
  generated "complex" M [] = Ok (ComplexArr (repeat C0 M)).
Proof.
  split.
  - eexists; split; [apply generated_complex |].
    split; [rewrite length_map, length_seq; reflexivity |].
    intros n Hn.
    rewrite (nth_indep _ C0 (complex_slot M (c :: cs) 0 C0))
      by (rewrite length_map, length_seq; exact Hn).
    rewrite (map_nth (fun n => complex_slot M (c :: cs) n C0)).
    rewrite seq_nth by exact Hn.
    apply complex_slot_unfolded.
  - unfold generated, Generator.__init__; cbn [Signals.__new__ bind].
    unfold signal; cbn [Generator.mode Generator.S String.eqb Ascii.eqb Bool.eqb samples].
    rewrite zero_signal_complex; reflexivity.
Qed.

(** C2 as stated fails.  Complex mode with [M = 4] and the one component
    (frequency 1, Icoef 1, Qcoef 0): the generated sample at [n = 1] is
    [(cos(pi/2) + i sin(pi/2)) * (1 + 0i) = i]; the sum of the
    specification, [Icoef cos + i Qcoef sin], is [0]. *)
Lemma complex_mode_multiplies :
  exists v,
    generated "complex" 4 [(1, 1, 0)] = Ok (ComplexArr v) /\
    nth 1 v C0 = mkC 0 1 /\
    spec_complex_value 4 [(1, 1, 0)] 1 = mkC 0 0 /\
    nth 1 v C0 <> spec_complex_value 4 [(1, 1, 0)] 1.
Proof.
  eexists; split; [apply generated_complex |].
  assert (E : 2 * PI * 1 * 1 / (1 + 1 + 1 + 1) = PI / 2) by field.
  assert (Hc : nth 1 (map (fun n => complex_slot 4 [(1, 1, 0)] n C0) (seq 0 4)) C0 =
               mkC 0 1).
  { cbn [seq map nth].
    rewrite complex_slot_parts.
    cbn [c0 c1 c2 fst snd INR].
    rewrite E, cos_PI2, sin_PI2.
    apply C_eq; simpl; ring. }
  assert (Hs : spec_complex_value 4 [(1, 1, 0)] 1 = mkC 0 0).
  { cbn [spec_complex_value fold_left c0 c1 c2 fst snd INR].
    rewrite E, cos_PI2, sin_PI2.
    apply C_eq; simpl; ring. }
  split; [exact Hc |].
  split; [exact Hs |].
  intros H.
  assert (H' : mkC 0 1 = mkC 0 0) by exact (eq_trans (eq_sym Hc) (eq_trans H Hs)).
  injection H' as H'; lra.
Qed.

End GeneratorProps.

(* ================================================================== *)
(** * Properties of the mixers *)

Module MixerProps.

Import NumPy Signals Mixers SignalProps.
Local Open Scope R_scope.

Lemma broadcast2_same_length {A B D : Type} (f : A -> B -> D)
    (a : list A) (b : list B) :
  length a = length b ->
  broadcast2 f a b = Ok (map (fun p => f (fst p) (snd p)) (combine a b)).
Proof.
  intros H; unfold broadcast2.
  destruct (Nat.eqb_spec (length a) (length b)); [reflexivity | contradiction].
Qed.

Lemma len_as_complex (a : ndarray) : length (as_complex a) = len a.
Proof. destruct a; simpl; [apply length_map | reflexivity]. Qed.

Lemma mul_same_len (a b : ndarray) :
  len a = len b -> mul a b = Ok (elementwise a b).
Proof.
  intros H.
  destruct a as [x | x], b as [y | y]; simpl in *;
    rewrite broadcast2_same_length by (rewrite ?length_map; exact H);
    reflexivity.
Qed.

Lemma take_all (n : nat) (a : ndarray) : (len a <= n)%nat -> take n a = a.
Proof.
  destruct a as [v | v]; simpl; intros H; rewrite firstn_all2 by exact H; reflexivity.
Qed.

Lemma len_take (n : nat) (a : ndarray) : len (take n a) = Nat.min n (len a).
Proof. destruct a as [v | v]; simpl; apply length_firstn. Qed.

Lemma as_complex_take (n : nat) (a : ndarray) :
  as_complex (take n a) = firstn n (as_complex a).
Proof. destruct a as [v | v]; simpl; [symmetry; apply firstn_map | reflexivity]. Qed.

Lemma len_elementwise (a b : ndarray) :
  len (elementwise a b) = Nat.min (len a) (len b).
Proof.
  destruct a, b; simpl; rewrite length_map, length_combine, ?length_map; reflexivity.
Qed.

(** Wrapping a product as a signal gives back the product, tagged with
    its mode: the I and Q views of a complex product pair up again to the
    product. *)
Lemma wrap_product (p : ndarray) :
  match p with
  | FloatArr v => Signals.__new__ 1024 (Some v) None
  | ComplexArr _ => Signals.__new__ 1024 (Some (real p)) (Some (imag p))
  end = Ok (mkSignal p (mkInfo (mode_of p) [])).
Proof.
  destruct p as [v | v]; simpl mode_of.
  - apply new_real.
  - cbn [real imag].
    rewrite new_equal_lengths by (rewrite !length_map; reflexivity).
    rewrite of_parts_Re_Im; reflexivity.
Qed.

(** [BasicMixer.mixed] in closed form. *)
Lemma BasicMixer_mixed_computes (self : Mixer) (s l : ndarray) :
  let n := Nat.min (len s) (len l) in
  let product := elementwise (take n s) (take n l) in
  let sig := mkSignal product (mkInfo (mode_of product) []) in
  BasicMixer_mixed self s l =
    Ok (sig, mkMixer (Bound (Some sig))
                     (log self ++ truncation_notice (len s) (len l))).
Proof.
  intros n product sig.
  unfold BasicMixer_mixed, truncation_notice.
  assert (Hwrap := wrap_product product).
  destruct (Nat.eqb_spec (len s) (len l)) as [E | NE].
  - assert (Hs : take n s = s) by (apply take_all; unfold n; lia).
    assert (Hl : take n l = l) by (apply take_all; unfold n; lia).
    rewrite mul_same_len by exact E.
    cbv beta iota delta [bind].
    unfold product in Hwrap; rewrite Hs, Hl in Hwrap; rewrite Hwrap.
    unfold sig, product, set_IF; rewrite Hs, Hl, app_nil_r; reflexivity.
  - destruct (Nat.ltb_spec (len l) (len s)) as [Hlt | Hge].
    + assert (Hn : n = len l) by (unfold n; lia).
      assert (Hl : take n l = l) by (apply take_all; lia).
      rewrite mul_same_len by (rewrite len_take; lia).
      cbv beta iota delta [bind].
      unfold product in Hwrap; rewrite Hl, Hn in Hwrap; rewrite Hwrap.
      unfold sig, product, set_IF, emit; rewrite Hl, Hn; reflexivity.
    + destruct (Nat.ltb_spec (len s) (len l)) as [Hlt | Hge']; [| lia].
      assert (Hn : n = len s) by (unfold n; lia).
      assert (Hs : take n s = s) by (apply take_all; lia).
      rewrite mul_same_len by (rewrite len_take; lia).
      cbv beta iota delta [bind].
      unfold product in Hwrap; rewrite Hs, Hn in Hwrap; rewrite Hwrap.
      unfold sig, product, set_IF, emit; rewrite Hs, Hn; reflexivity.
Qed.

(** The float product seen as complex numbers is the complex product of
    the converted operands. *)
Lemma as_complex_elementwise (a b : ndarray) :
  as_complex (elementwise a b) =
    map (fun p => cmul (fst p) (snd p)) (combine (as_complex a) (as_complex b)).
Proof.
  destruct a as [x | x], b as [y | y]; try reflexivity.
  simpl. revert y; induction x as [|a x IH]; intros [|b y]; simpl; try reflexivity.
  f_equal; [| apply IH].
  apply C_eq; simpl; ring.
Qed.

(** Two runs of the base mixer: a longer float signal is cut to the LO,
    and a float signal against a longer complex LO gives a complex IF. *)
Example mix_truncates_signal :
  BasicMixer (Some (FloatArr [1; 2; 3])) (Some (FloatArr [4; 5])) =
    Ok (mkMixer
          (Bound (Some (mkSignal (FloatArr [1 * 4; 2 * 5]) (mkInfo "real" []))))
          [(WARNING, "mixed: signal truncated to length of LO"%string)]).
Proof.
  unfold BasicMixer, BasicMixer_init.
  rewrite BasicMixer_mixed_computes; reflexivity.
Qed.

Example mix_truncates_LO :
  BasicMixer (Some (FloatArr [2])) (Some (ComplexArr [mkC 3 4; mkC 5 6])) =
    Ok (mkMixer
          (Bound (Some (mkSignal (ComplexArr [cmul (RtoC 2) (mkC 3 4)])
                                 (mkInfo "complex" []))))
          [(WARNING, "mixed: LO truncated to length of signal"%string)]).
Proof.
  unfold BasicMixer, BasicMixer_init.
  rewrite BasicMixer_mixed_computes; reflexivity.
Qed.

Lemma of_parts_zero_imag (v : list R) :
  of_parts v (repeat 0 (length v)) = map RtoC v.
Proof.
  unfold of_parts; induction v as [|a v IH]; simpl; [reflexivity |].
  f_equal; exact IH.
Qed.

(** C3.  BasicMixer: with either argument absent the IF is [None].  With
    two arrays, both are cut to [n = min(m, n)] (a warning is logged when
    one is longer), the IF holds their elementwise product, its mode is
    "real" and its samples float when both arrays are float, and
    otherwise its mode is "complex" and its samples are the complex
    product, put together from the product's real and imaginary parts. *)
Theorem BasicMixer_contract :
  (forall LO, BasicMixer None LO = Ok (mkMixer (Bound None) [])) /\
  (forall signal, BasicMixer signal None = Ok (mkMixer (Bound None) [])) /\
  (forall s l : ndarray,
     let n := Nat.min (len s) (len l) in
     let product := elementwise (take n s) (take n l) in
     BasicMixer (Some s) (Some l) =
       Ok (mkMixer (Bound (Some (mkSignal product (mkInfo (mode_of product) []))))
                   (truncation_notice (len s) (len l))) /\
     len product = n /\
     as_complex product =
       map (fun p => cmul (fst p) (snd p))
           (combine (firstn n (as_complex s)) (firstn n (as_complex l))) /\
     dtype_of product =
       (if dtype_eqb (dtype_of s) float && dtype_eqb (dtype_of l) float
        then float else complex) /\
     mode_of product =
       (if dtype_eqb (dtype_of s) float && dtype_eqb (dtype_of l) float
        then "real" else "complex")%string /\
     of_parts (real product) (imag product) = as_complex product).
Proof.
  split; [intros LO; reflexivity |].
  split; [intros [s |]; reflexivity |].
  intros s l n product.
  split.
  { unfold BasicMixer, BasicMixer_init.
    rewrite BasicMixer_mixed_computes; reflexivity. }
  split.
  { unfold product; rewrite len_elementwise, !len_take; unfold n; lia. }
  split.
  { unfold product; rewrite as_complex_elementwise, !as_complex_take; reflexivity. }
  split; [destruct s, l; reflexivity |].
  split; [destruct s, l; reflexivity |].
  destruct product as [v | v]; simpl.
  - apply of_parts_zero_imag.
  - apply of_parts_Re_Im.
Qed.

(** ** ParallelMixer *)

(** The sibling constructors refuse arrays of the wrong dtype by raising. *)
Lemma SimpleMixer_wrong_dtype_raises (s l : ndarray) :
  dtype_of s <> float \/ dtype_of l <> float ->
  SimpleMixer (Some s) (Some l) =
    Raise (ValueError "signal dtype or LO dtype is wrong").
Proof.
  intros H; destruct s, l; try reflexivity.
  destruct H as [H | H]; exfalso; apply H; reflexivity.
Qed.

Lemma ComplexMixer_wrong_dtype_raises (fh : list R -> result (list R)) (s l : ndarray) :
  dtype_of s <> float \/ dtype_of l <> float ->
  ComplexMixer fh (Some s) (Some l) =
    Raise (ValueError "signal dtype or LO dtype is wrong").
Proof.
  intros H; destruct s, l; try reflexivity.
  destruct H as [H | H]; exfalso; apply H; reflexivity.
Qed.

(** C9.  ParallelMixer with a signal that is not complex or an LO that is
    not float: the constructor logs an error and returns normally.  No
    exception is raised, and the object it hands back has no attribute
    [IF]. *)
Theorem ParallelMixer_wrong_dtype_returns (s l : ndarray) :
  dtype_of s <> complex \/ dtype_of l <> float ->
  exists msg,
    ParallelMixer (Some s) (Some l) = Ok (mkMixer Unset [(ERROR, msg)]) /\
    ~ raises (ParallelMixer (Some s) (Some l)).
Proof.
  intros H.
  assert (E : exists msg, ParallelMixer (Some s) (Some l) = Ok (mkMixer Unset [(ERROR, msg)])).
  { destruct s, l; try (eexists; reflexivity).
    destruct H as [H | H]; exfalso; apply H; reflexivity. }
  destruct E as [msg E]; exists msg; split; [exact E |].
  intros [e He]; rewrite E in He; discriminate He.
Qed.

(** C9 on a float signal and a float LO of one sample each. *)
Lemma ParallelMixer_wrong_dtype_witness :
  exists msg,
    ParallelMixer (Some (FloatArr [1])) (Some (FloatArr [1])) =
      Ok (mkMixer Unset [(ERROR, msg)]) /\
    ~ raises (ParallelMixer (Some (FloatArr [1])) (Some (FloatArr [1]))).
Proof.
  apply (@ParallelMixer_wrong_dtype_returns (FloatArr [1]) (FloatArr [1])).
  left; simpl; discriminate.
Defined.

(** With a complex signal and a float LO the base class mixes them. *)
Lemma ParallelMixer_right_dtype (v : list C) (l : list R) :
  ParallelMixer (Some (ComplexArr v)) (Some (FloatArr l)) =
    BasicMixer (Some (ComplexArr v)) (Some (FloatArr l)).
Proof. reflexivity. Qed.

(** ** ComplexMixer *)

(** The complex LO that [ComplexMixer.mixed] builds from what
    [QuadratureHybrid.convert] returns: real part the LO, imaginary part
    its [fftpack] Hilbert transform. *)
Lemma hybrid_LO (l h : list R) :
  length h = length l ->
  map (fun p => cadd (fst p) (snd p))
      (combine (map RtoC (map (fun p => fst p + snd p)
                              (combine l (repeat 0 (length h)))))
               (map (fun q => cmul Ci (RtoC q))
                    (map (fun p => fst p + snd p)
                         (combine (repeat 0 (length l)) h)))) =
  of_parts l h.
Proof.
  unfold of_parts.
  revert h; induction l as [|a l IH]; intros [|b h] H; simpl in *;
    try discriminate; [reflexivity |].
  f_equal; [apply C_eq; simpl; ring | apply IH; congruence].
Qed.

Section WithHilbert.

Variable fftpack_hilbert : list R -> result (list R).

Lemma convert_float (l h : list R) :
  fftpack_hilbert l = Ok h -> length h = length l ->
  QuadratureHybrid_convert fftpack_hilbert (FloatArr l) =
    Ok (map (fun p => fst p + snd p)
            (combine l (repeat 0 (length h))),
        map (fun p => fst p + snd p)
            (combine (repeat 0 (length l)) h)).
Proof.
  intros Hh Hlen.
  unfold QuadratureHybrid_convert, addR; cbn [fftpack_hilbert_arr].
  rewrite Hh; cbv beta iota delta [bind]; cbn [real imag].
  rewrite broadcast2_same_length
    by (rewrite repeat_length, Hlen; reflexivity).
  cbv beta iota delta [bind].
  rewrite broadcast2_same_length
    by (rewrite repeat_length, Hlen; reflexivity).
  reflexivity.
Qed.

(** What the transform raises, the hybrid raises. *)
Lemma convert_float_raises (l : list R) (e : exn) :
  fftpack_hilbert l = Raise e ->
  QuadratureHybrid_convert fftpack_hilbert (FloatArr l) = Raise e.
Proof.
  intros Hh.
  unfold QuadratureHybrid_convert; cbn [fftpack_hilbert_arr].
  rewrite Hh; reflexivity.
Qed.

Lemma ComplexMixer_mixed_float (self : Mixer) (s l h : list R) :
  fftpack_hilbert l = Ok h -> length h = length l ->
  length s = length l ->
  ComplexMixer_mixed fftpack_hilbert self (Some (FloatArr s)) (Some (FloatArr l)) =
    let sig :=
      mkSignal (ComplexArr (map (fun p => cmul (fst p) (snd p))
                                (combine (map RtoC s) (of_parts l h))))
               (mkInfo "complex" []) in
    Ok (Some sig,
        mkMixer (Bound (Some sig))
                (log self ++ [(INFO, "mixed (Complex): converting LO to quadrature"%string)])).
Proof.
  intros Hh Hhl Hlen.
  unfold ComplexMixer_mixed; cbn [float_check_inputs dtype_of dtype_eqb negb truthy].
  rewrite (convert_float Hh Hhl); cbv beta iota delta [bind].
  unfold I_plus_jQ.
  rewrite broadcast2_same_length
    by (rewrite !length_map, !length_combine, !repeat_length, Hhl; lia).
  cbv beta iota delta [bind].
  rewrite hybrid_LO by exact Hhl.
  rewrite BasicMixer_mixed_computes.
  cbv beta iota delta [bind].
  assert (Hq : length (of_parts l h) = length l).
  { rewrite length_of_parts, Hhl; lia. }
  cbn [len].
  rewrite Hq, Hlen, Nat.min_id.
  unfold truncation_notice; rewrite Nat.eqb_refl, app_nil_r.
  cbn [take].
  rewrite !(@firstn_all2 _ (length l) s) by lia.
  rewrite !(@firstn_all2 _ (length l) (of_parts l h)) by lia.
  reflexivity.
Qed.

Lemma ComplexMixer_float_computes (s l h : list R) :
  fftpack_hilbert l = Ok h -> length h = length l ->
  length s = length l ->
  ComplexMixer fftpack_hilbert (Some (FloatArr s)) (Some (FloatArr l)) =
    Ok (mkMixer
          (Bound (Some (mkSignal
                          (ComplexArr (map (fun p => cmul (fst p) (snd p))
                                           (combine (map RtoC s) (of_parts l h))))
                          (mkInfo "complex" []))))
          [(INFO, "mixed (Complex): converting LO to quadrature"%string)]).
Proof.
  intros Hh Hhl Hlen.
  unfold ComplexMixer; cbn [float_check_inputs dtype_of dtype_eqb negb truthy].
  unfold BasicMixer_init.
  rewrite BasicMixer_mixed_computes; cbv beta iota delta [bind].
  rewrite (@ComplexMixer_mixed_float _ s l h Hh Hhl Hlen).
  cbv beta iota zeta delta [bind].
  cbn [len]; unfold truncation_notice, set_IF, fresh; cbn [log].
  rewrite Hlen, Nat.eqb_refl; reflexivity.
Qed.

(** What the transform raises on the LO, the constructor raises, for
    float arrays of any two lengths. *)
Lemma ComplexMixer_float_raises (s l : list R) (e : exn) :
  fftpack_hilbert l = Raise e ->
  ComplexMixer fftpack_hilbert (Some (FloatArr s)) (Some (FloatArr l)) = Raise e.
Proof.
  intros Hh.
  unfold ComplexMixer; cbn [float_check_inputs dtype_of dtype_eqb negb truthy].
  unfold BasicMixer_init.
  rewrite BasicMixer_mixed_computes; cbv beta iota zeta delta [bind].
  unfold ComplexMixer_mixed; cbn [float_check_inputs dtype_of dtype_eqb negb truthy].
  rewrite (convert_float_raises Hh); reflexivity.
Qed.

End WithHilbert.

(** C5, as the code has it.  For a float signal and a float LO of one
    length, when [scipy.fftpack.hilbert(LO)] returns (an array [h] of the
    length of the LO), the IF of ComplexMixer is the elementwise product
    of the signal with the complex LO whose real part is the LO and whose
    imaginary part is [h], the pair returned by [QuadratureHybrid.convert];
    nothing is halved and the Splitter is not called.  The IF is complex,
    with mode "complex".  When the transform raises, as SciPy's does on an
    empty LO, the constructor raises the same exception. *)
Theorem ComplexMixer_uses_hybrid (fftpack_hilbert : list R -> result (list R))
    (s l : list R) :
  length s = length l ->
  (forall h,
     fftpack_hilbert l = Ok h -> length h = length l ->
     exists sig,
       ComplexMixer fftpack_hilbert (Some (FloatArr s)) (Some (FloatArr l)) =
         Ok (mkMixer (Bound (Some sig))
                     [(INFO, "mixed (Complex): converting LO to quadrature"%string)]) /\
       samples sig =
         ComplexArr (map (fun p => cmul (fst p) (snd p))
                         (combine (map RtoC s) (of_parts l h))) /\
       mode (info sig) = "complex"%string) /\
  (forall e,
     fftpack_hilbert l = Raise e ->
     ComplexMixer fftpack_hilbert (Some (FloatArr s)) (Some (FloatArr l)) = Raise e).
Proof.
  intros Hlen; split.
  - intros h Hh Hhl.
    eexists; split; [apply (@ComplexMixer_float_computes fftpack_hilbert s l h Hh Hhl Hlen) |].
    split; reflexivity.
  - intros e Hh; apply (@ComplexMixer_float_raises fftpack_hilbert s l e Hh).
Qed.

End MixerProps.

(* ================================================================== *)
(** * The mixers over SciPy's transforms *)

Module SciPyProps.

Import NumPy Signals Mixers SignalProps MixerProps SciPy.
Local Open Scope R_scope.

Lemma length_fft (x : list C) : length (fft x) = length x.
Proof. unfold fft; rewrite length_map, length_seq; reflexivity. Qed.

Lemma length_ifft (X : list C) : length (ifft X) = length X.
Proof. unfold ifft; rewrite length_map, length_seq; reflexivity. Qed.

Lemma periodic_hilbert_length (x : list R) :
  length (periodic_hilbert x) = length x.
Proof.
  unfold periodic_hilbert.
  rewrite length_map, length_ifft, length_map, length_combine, length_seq,
    length_fft, length_map, Nat.min_id.
  reflexivity.
Qed.

(** SciPy's transform returns on every sequence but the empty one, and
    keeps the length. *)
Lemma fftpack_hilbert_returns (x : list R) :
  x <> [] ->
  fftpack_hilbert x = Ok (periodic_hilbert x) /\
  length (periodic_hilbert x) = length x.
Proof.
  intros Hx; split; [| apply periodic_hilbert_length].
  destruct x as [|a x]; [contradiction | reflexivity].
Qed.

Lemma fftpack_hilbert_empty : fftpack_hilbert [] = Raise ZeroDivisionError.
Proof. reflexivity. Qed.

Lemma twiddle_0_0 (s : R) (N : nat) : twiddle s N 0 0 = mkC 1 0.
Proof.
  unfold twiddle, cexp; cbn [Re Im Nat.mul INR].
  replace (s * (2 * PI * 0 / INR N)) with 0 by (unfold Rdiv; ring).
  rewrite exp_0, cos_0, sin_0.
  apply C_eq; simpl; ring.
Qed.

Lemma fft_singleton (z : C) : fft [z] = [z].
Proof.
  unfold fft, csum; cbn [length seq map combine fold_left fst snd].
  rewrite twiddle_0_0; f_equal.
  destruct z; apply C_eq; simpl; ring.
Qed.

Lemma ifft_singleton (z : C) : ifft [z] = [z].
Proof.
  unfold ifft, csum; cbn [length seq map combine fold_left fst snd].
  rewrite twiddle_0_0; f_equal.
  destruct z; apply C_eq; simpl; field.
Qed.

(** One sample: its analytic signal is the sample itself, and its
    [fftpack] Hilbert transform is zero (the mean is removed). *)
Lemma signal_hilbert_singleton (x : R) : signal_hilbert [x] = Ok [RtoC x].
Proof.
  unfold signal_hilbert; cbn [length Nat.eqb map].
  rewrite fft_singleton; cbn [seq combine map fst snd h_weight Nat.eqb].
  rewrite ifft_singleton; do 2 f_equal.
  apply C_eq; simpl; ring.
Qed.

Lemma fftpack_hilbert_singleton (x : R) : fftpack_hilbert [x] = Ok [0].
Proof.
  unfold fftpack_hilbert; cbn [length Nat.eqb]; f_equal.
  unfold periodic_hilbert; cbn [length map].
  rewrite fft_singleton; cbn [seq combine map fst snd sign_weight Nat.eqb].
  rewrite ifft_singleton; cbn [map]; f_equal.
  simpl; ring.
Qed.

(** C5 as stated fails.  On the one-sample signal [1] and LO [1] the mixer
    delivers [1 * (1 + 0i) = 1], whereas the signal times the Splitter's
    output, [hilbert([1])/2 = 1/2], is [1/2]. *)
Lemma ComplexMixer_is_not_splitter_product :
  exists sig p,
    ComplexMixer fftpack_hilbert (Some (FloatArr [1])) (Some (FloatArr [1])) =
      Ok (mkMixer (Bound (Some sig))
                  [(INFO, "mixed (Complex): converting LO to quadrature"%string)]) /\
    spec_complex_IF signal_hilbert [1] [1] = Ok p /\
    samples sig = ComplexArr [mkC 1 0] /\
    p = ComplexArr [mkC (1 / 2) 0] /\
    samples sig <> p.
Proof.
  exists (mkSignal (ComplexArr [mkC 1 0]) (mkInfo "complex" [])),
         (ComplexArr [mkC (1 / 2) 0]).
  split.
  { rewrite (@ComplexMixer_float_computes fftpack_hilbert [1] [1] [0]
               (fftpack_hilbert_singleton 1) eq_refl eq_refl).
    cbn [of_parts map combine fst snd].
    repeat f_equal; apply C_eq; simpl; ring. }
  split.
  { unfold spec_complex_IF, QuadratureSplitter_split.
    rewrite signal_hilbert_singleton; cbv beta iota delta [bind].
    cbn [map mul as_complex broadcast2 length Nat.eqb combine fst snd bind].
    repeat f_equal; apply C_eq; simpl; field. }
  split; [reflexivity |].
  split; [reflexivity |].
  cbn [samples]; intros H.
  injection H as H; lra.
Qed.

(** ** A tone of one cycle in four samples *)

Lemma quarter_turns (j : nat) :
  cos (INR j * (PI / 2)) = fst (quarter j) /\
  sin (INR j * (PI / 2)) = snd (quarter j).
Proof.
  induction j as [|j [IHc IHs]].
  - simpl. rewrite Rmult_0_l, cos_0, sin_0; split; reflexivity.
  - rewrite S_INR.
    replace ((INR j + 1) * (PI / 2)) with (PI / 2 + INR j * (PI / 2)) by ring.
    cbn [quarter fst snd]; split.
    + rewrite <- IHs, (sin_cos (INR j * (PI / 2))); ring.
    + rewrite <- IHc; symmetry; apply cos_sin.
Qed.

Lemma twiddle_plus_4 (n k : nat) :
  twiddle 1 4 n k = mkC (fst (quarter (n * k))) (snd (quarter (n * k))).
Proof.
  unfold twiddle, cexp; cbn [Re Im].
  replace (1 * (2 * PI * INR (n * k) / INR 4)) with (INR (n * k) * (PI / 2))
    by (simpl INR; field).
  destruct (quarter_turns (n * k)) as [-> ->].
  rewrite exp_0; apply C_eq; simpl; ring.
Qed.

Lemma twiddle_minus_4 (n k : nat) :
  twiddle (-1) 4 n k = mkC (fst (quarter (n * k))) (- snd (quarter (n * k))).
Proof.
  unfold twiddle, cexp; cbn [Re Im].
  replace (-1 * (2 * PI * INR (n * k) / INR 4)) with (- (INR (n * k) * (PI / 2)))
    by (simpl INR; field).
  rewrite cos_neg, sin_neg.
  destruct (quarter_turns (n * k)) as [-> ->].
  rewrite exp_0; apply C_eq; simpl; ring.
Qed.

(** The LO [cos(2 pi n / 4)]: [scipy.fftpack.hilbert] turns it into
    [-sin(2 pi n / 4)], [scipy.signal.hilbert] into
    [cos(2 pi n / 4) + i sin(2 pi n / 4)]. *)
Lemma fftpack_hilbert_cos4 : fftpack_hilbert [1; 0; -1; 0] = Ok [0; -1; 0; 1].
Proof.
  unfold fftpack_hilbert; cbn [length Nat.eqb]; f_equal.
  unfold periodic_hilbert, fft, ifft, csum.
  cbn [length seq map combine fst snd fold_left].
  rewrite !twiddle_plus_4, !twiddle_minus_4.
  cbn [Nat.mul Nat.add quarter fst snd sign_weight Nat.eqb Nat.ltb Nat.leb].
  repeat f_equal; simpl; field.
Qed.

Lemma signal_hilbert_cos4 :
  signal_hilbert [1; 0; -1; 0] = Ok [mkC 1 0; mkC 0 1; mkC (-1) 0; mkC 0 (-1)].
Proof.
  unfold signal_hilbert, fft, ifft, csum.
  cbn [length seq map combine fst snd fold_left Nat.eqb].
  rewrite !twiddle_plus_4, !twiddle_minus_4.
  cbn [Nat.mul Nat.add quarter fst snd h_weight Nat.eqb Nat.ltb Nat.leb
       Nat.even Nat.div Nat.divmod andb].
  repeat f_equal; apply C_eq; simpl; field.
Qed.

(** C5 on a constant signal and the LO [cos(2 pi n / 4)], over SciPy's
    transform, which turns that LO into [-sin(2 pi n / 4)]: the IF is the
    signal times [cos - i sin]. *)
Lemma ComplexMixer_uses_hybrid_witness :
  exists sig,
    ComplexMixer fftpack_hilbert (Some (FloatArr [1; 1; 1; 1]))
                 (Some (FloatArr [1; 0; -1; 0])) =
      Ok (mkMixer (Bound (Some sig))
                  [(INFO, "mixed (Complex): converting LO to quadrature"%string)]) /\
    samples sig =
      ComplexArr (map (fun p => cmul (fst p) (snd p))
                      (combine (map RtoC [1; 1; 1; 1])
                               (of_parts [1; 0; -1; 0] [0; -1; 0; 1]))) /\
    mode (info sig) = "complex"%string.
Proof.
  apply (proj1 (@ComplexMixer_uses_hybrid fftpack_hilbert
                  [1; 1; 1; 1] [1; 0; -1; 0] eq_refl)
               [0; -1; 0; 1]).
  - exact fftpack_hilbert_cos4.
  - reflexivity.
Defined.

(** On empty arrays SciPy's transform divides by zero, and so does the
    constructor. *)
Example ComplexMixer_on_empty_arrays :
  ComplexMixer fftpack_hilbert (Some (FloatArr [])) (Some (FloatArr [])) =
    Raise ZeroDivisionError.
Proof. apply (@ComplexMixer_float_raises fftpack_hilbert [] [] ZeroDivisionError); reflexivity. Qed.

(** On a constant signal and that LO the mixer delivers
    [cos - i sin], sample by sample, where the signal times the
    Splitter's output is [(cos + i sin)/2]: twice its conjugate. *)
Example ComplexMixer_on_cos4 :
  ComplexMixer fftpack_hilbert (Some (FloatArr [1; 1; 1; 1]))
               (Some (FloatArr [1; 0; -1; 0])) =
    Ok (mkMixer
          (Bound (Some (mkSignal
                          (ComplexArr [mkC 1 0; mkC 0 (-1); mkC (-1) 0; mkC 0 1])
                          (mkInfo "complex" []))))
          [(INFO, "mixed (Complex): converting LO to quadrature"%string)]) /\
  spec_complex_IF signal_hilbert [1; 1; 1; 1] [1; 0; -1; 0] =
    Ok (ComplexArr [mkC (1 / 2) 0; mkC 0 (1 / 2); mkC (- (1 / 2)) 0; mkC 0 (- (1 / 2))]).
Proof.
  split.
  - rewrite (@ComplexMixer_float_computes fftpack_hilbert [1; 1; 1; 1] [1; 0; -1; 0]
               [0; -1; 0; 1] fftpack_hilbert_cos4 eq_refl eq_refl).
    cbn [of_parts map combine fst snd].
    repeat f_equal; apply C_eq; simpl; ring.
  - unfold spec_complex_IF, QuadratureSplitter_split.
    rewrite signal_hilbert_cos4; cbv beta iota delta [bind].
    cbn [map mul as_complex broadcast2 length Nat.eqb combine fst snd bind].
    repeat f_equal; apply C_eq; simpl; field.
Qed.

End SciPyProps.

(* ================================================================== *)
(** * Lists *)

Module ListFacts.

Lemma map_snd_combine_eq {A B : Type} (v : list A) (m : list B) :
  length v = length m -> map snd (combine v m) = m.
Proof.
  revert m; induction v as [|a v IH]; intros [|b m] H; simpl in *;
    try discriminate; [reflexivity |].
  f_equal; apply IH; congruence.
Qed.

End ListFacts.

(* ================================================================== *)
(** * The convolver over a whole run *)

Module ConvolverRuns.

Import Convolver ConvolverProps ConvolverWindow.

Section WithScalars.

Variable T : Type.
Variable zero : T.
Variables add mul : T -> T -> T.

Local Abbreviation OTF := (OTFConvolver T).
Local Abbreviation next := (@Convolver.next T zero add mul).
Local Abbreviation run := (@Convolver.run T zero add mul).
Local Abbreviation cross_correlation := (@Convolver.cross_correlation T zero add mul).
Local Abbreviation __init__ := (@Convolver.__init__ T zero add mul).

Lemma upd_middle (l r : list T) (z x : T) :
  upd (l ++ z :: r) (length l) x = l ++ x :: r.
Proof. induction l as [|a l IH]; simpl; [reflexivity | f_equal; exact IH]. Qed.

(** What a convolver made without data has become after some calls of
    [next], in terms of the number of samples it has taken. *)
Record tracked (kernel : list T) (c : OTF) : Prop := mkTracked {
  tr_wf : wf kernel c;
  tr_oldest :
    oldest c = (length (data c) + 1 - length kernel) mod length kernel;
  tr_filtered :
    length (filtered c) = length (data c) + (length (data c) + 1 - length kernel);
  tr_priming :
    length (data c) < length kernel ->
    circ_buf c = zero :: data c ++ repeat zero (length kernel - 1 - length (data c));
  tr_window :
    length kernel <= Datatypes.S (length (data c)) ->
    rotated (circ_buf c) (oldest c) =
      fold_left (@shift T) (skipn (length kernel - 1) (data c))
                (zero :: firstn (length kernel - 1) (data c))
}.

Lemma rotated_at_split (l r : list T) : rotated (l ++ r) (length l) = r ++ l.
Proof.
  unfold rotated.
  rewrite skipn_app, firstn_app, Nat.sub_diag, skipn_all, firstn_all.
  cbn [skipn firstn app]; rewrite app_nil_r; reflexivity.
Qed.

Lemma rotated_step_split (l r : list T) (a x : T) :
  rotated (upd (l ++ a :: r) ((length l + 1) mod length (l ++ a :: r)) x)
          ((length l + 1) mod length (l ++ a :: r)) =
    shift (rotated (l ++ a :: r) (length l)) x.
Proof.
  rewrite rotated_at_split, length_app; cbn [length].
  destruct r as [|b r].
  - cbn [length]; rewrite Nat.Div0.mod_same.
    destruct l as [|c l]; [reflexivity |].
    cbn [app upd shift]; unfold rotated; cbn [skipn firstn].
    rewrite app_nil_r; reflexivity.
  - cbn [length].
    rewrite Nat.mod_small by lia.
    replace (length l + 1) with (length (l ++ [a])) by (rewrite length_app; reflexivity).
    replace (l ++ a :: b :: r) with ((l ++ [a]) ++ b :: r)
      by (rewrite <- app_assoc; reflexivity).
    rewrite upd_middle, rotated_at_split.
    cbn [app shift]; rewrite <- app_assoc; reflexivity.
Qed.

Lemma rotated_step (buf : list T) (o : nat) (x : T) :
  o < length buf ->
  rotated (upd buf ((o + 1) mod length buf) x) ((o + 1) mod length buf) =
    shift (rotated buf o) x.
Proof.
  intros Ho.
  assert (Hl : length (firstn o buf) = o) by (rewrite length_firstn; lia).
  assert (Hs : length (skipn o buf) = length buf - o) by apply length_skipn.
  rewrite <- (firstn_skipn o buf).
  destruct (skipn o buf) as [|a r]; [simpl in Hs; lia |].
  clear Hs; revert Hl; generalize (firstn o buf); intros l Hl.
  rewrite <- Hl; apply rotated_step_split.
Qed.


Lemma init_tracked (kernel : list T) :
  1 <= length kernel ->
  tracked kernel
    (mkOTF kernel (length kernel) (np_zeros zero (length kernel)) [] 0 [] None).
Proof.
  intros Hk; constructor; cbn [oldest data filtered circ_buf length Nat.add].
  - apply init_wf; exact Hk.
  - replace (1 - length kernel) with 0 by lia.
    symmetry; apply Nat.Div0.mod_0_l.
  - lia.
  - intros _. unfold np_zeros.
    destruct (length kernel) as [|k]; [lia |].
    cbn [repeat app Nat.sub]; rewrite !Nat.sub_0_r; reflexivity.
  - intros HK. unfold np_zeros.
    destruct (length kernel) as [|[|k]]; [lia | reflexivity | lia].
Qed.

Lemma next_tracked (kernel : list T) (c : OTF) (x : T) :
  tracked kernel c ->
  exists y c',
    next c x = Ok (y, c') /\
    tracked kernel c' /\
    data c' = data c ++ [x] /\
    (Datatypes.S (length (data c)) < length kernel -> y = None) /\
    (length kernel <= Datatypes.S (length (data c)) ->
       y = Some (cross_correlation kernel (circ_buf c) (oldest c) (length kernel)) /\
       nth (oldest c') (circ_buf c') zero = x).
Proof.
  intros [Hwf Ho Hf Hp Hw].
  pose proof Hwf as [HF HK Hb Hlt Hu HM].
  assert (Hk : length kernel <> 0) by lia.
  destruct (next_preserves_wf zero add mul x Hwf) as (y0 & c0 & Hn0 & Hwf0 & Hd0).
  destruct (Nat.lt_ge_cases (Datatypes.S (length (data c))) (length kernel)) as [Hi | Hi].
  - rewrite (next_unprimed zero add mul x Hwf Hi) in *.
    injection Hn0 as <- <-.
    eexists _, _; split; [reflexivity |].
    split.
    + constructor; simpl; auto.
      * rewrite length_app; simpl.
        rewrite Ho.
        replace (length (data c) + 1 - length kernel) with 0 by lia.
        replace (length (data c) + 1 + 1 - length kernel) with 0 by lia.
        reflexivity.
      * rewrite !length_app; simpl. lia.
      * rewrite length_app; simpl; intros _.
        rewrite Hp by lia.
        replace (length kernel - 1 - length (data c))
          with (Datatypes.S (length kernel - 1 - (length (data c) + 1))) by lia.
        simpl. f_equal.
        rewrite upd_middle, <- app_assoc; reflexivity.
      * rewrite length_app; cbn [length]; intros HK'.
        rewrite Hp, Hu by lia.
        replace (length kernel - 1 - length (data c)) with 1 by lia.
        replace (length kernel - 1) with (length (data c ++ [x]))
          by (rewrite length_app; cbn [length]; lia).
        rewrite skipn_all, firstn_all; cbn [fold_left repeat].
        replace (length (data c) + 1) with (length (zero :: data c))
          by (cbn [length]; lia).
        change (zero :: data c ++ [zero]) with ((zero :: data c) ++ [zero]).
        rewrite upd_middle; unfold rotated; cbn [skipn firstn].
        rewrite app_nil_r; reflexivity.
    + split; [reflexivity |].
      split; [reflexivity | intros; lia].
  - rewrite (next_primed zero add mul x Hwf Hi) in *.
    injection Hn0 as <- <-.
    eexists _, _; split; [reflexivity |].
    split.
    + constructor; simpl; auto.
      * rewrite length_app; simpl.
        rewrite Ho, Nat.Div0.add_mod_idemp_l.
        f_equal; lia.
      * rewrite !length_app; simpl. lia.
      * rewrite length_app; simpl; intros; lia.
      * intros _.
        rewrite <- Hb, rotated_step by (rewrite Hb; exact Hlt).
        rewrite Hw, Hb by exact Hi.
        rewrite skipn_app, firstn_app.
        replace (length kernel - 1 - length (data c)) with 0 by lia.
        cbn [skipn firstn]; rewrite app_nil_r, fold_left_app; reflexivity.
    + split; [reflexivity |].
      split; [intros; lia |].
      intros _; split; [reflexivity |].
      simpl. apply nth_upd_same.
      rewrite Hb; apply Nat.mod_upper_bound; exact Hk.
Qed.

Lemma run_tracked (kernel : list T) (xs : list T) :
  forall c : OTF,
    tracked kernel c ->
    exists outs c',
      run c xs = Ok (outs, c') /\
      tracked kernel c' /\
      data c' = data c ++ xs /\
      length outs = length xs /\
      (forall j, j < length xs ->
         (length (data c) + j + 1 < length kernel -> nth j outs (Some zero) = None) /\
         (length kernel <= length (data c) + j + 1 -> nth j outs None <> None)).
Proof.
  induction xs as [|x xs IH]; intros c Htr.
  - exists [], c; simpl; rewrite app_nil_r.
    split; [reflexivity |].
    split; [exact Htr |].
    split; [reflexivity |].
    split; [reflexivity |].
    intros j Hj; lia.
  - destruct (@next_tracked kernel c x Htr) as (y & c1 & Hn & Htr1 & Hd1 & Hnone & Hsome).
    destruct (IH c1 Htr1) as (outs & c2 & Hr & Htr2 & Hd2 & Hl & Hj).
    exists (y :: outs), c2; simpl.
    rewrite Hn; simpl; rewrite Hr; simpl.
    split; [reflexivity |].
    split; [exact Htr2 |].
    split; [rewrite Hd2, Hd1, <- app_assoc; reflexivity |].
    split; [rewrite Hl; reflexivity |].
    intros [|j] Hlt.
    + split; intros H.
      * apply Hnone; lia.
      * destruct Hsome as [-> _]; [lia | discriminate].
    + assert (Hlt' : j < length xs) by lia.
      destruct (Hj j Hlt') as [H1 H2].
      rewrite Hd1, length_app in H1, H2; simpl in H1, H2.
      split; intros H; [apply H1 | apply H2]; lia.
Qed.

(** X1.  A convolver made without data, with a kernel of at least one tap, takes
    any number [n] of calls of [next] without raising.  The first [K - 1]
    results are [None] and every later one is a number.  Afterwards [F]
    and [K] are as set, [data] holds the samples in order, the buffer has
    [K] slots, [oldest] is [(n + 1 - K) mod K] (the difference cut at 0)
    and [filtered] has [n + (n + 1 - K)] entries: a primed call appends
    its sum twice, in [convolution_step] and again in [next]. *)
Theorem run_keeps_state (kernel xs : list T) :
  1 <= length kernel ->
  exists outs c,
    (c0 <- __init__ kernel None ;; run c0 xs) = Ok (outs, c) /\
    length outs = length xs /\
    (forall j, j < length xs ->
       (j + 1 < length kernel -> nth j outs (Some zero) = None) /\
       (length kernel <= j + 1 -> nth j outs None <> None)) /\
    F c = kernel /\ K c = length kernel /\
    data c = xs /\
    length (circ_buf c) = length kernel /\
    oldest c = (length xs + 1 - length kernel) mod length kernel /\
    length (filtered c) = length xs + (length xs + 1 - length kernel).
Proof.
  intros Hk.
  rewrite init_no_data; simpl.
  destruct (@run_tracked kernel xs _ (@init_tracked kernel Hk))
    as (outs & c & Hr & [Hwf Ho Hf Hp Hw] & Hd & Hl & Hj).
  simpl in Hd; rewrite Hd in *.
  destruct Hwf as [HF HK Hb _ _ _].
  exists outs, c.
  split; [exact Hr |]; split; [exact Hl |]; split.
  - intros j Hlt; destruct (Hj j Hlt) as [H1 H2]; simpl in H1, H2.
    split; assumption.
  - repeat split; assumption.
Qed.

(** X2.  While fewer than [K] samples have been fed, slot 0 of the buffer keeps
    its initial zero and the samples sit in slots 1, 2, ... in order.  So
    the first number returned, at call [K], is the sum of the taps times
    [(0, x1, ..., x(K-1))]: tap 0 weights the initial zero and the sample
    of that call is not in the sum. *)
Theorem priming_fills_from_slot_one (kernel xs : list T) :
  length xs < length kernel ->
  exists outs c,
    (c0 <- __init__ kernel None ;; run c0 xs) = Ok (outs, c) /\
    circ_buf c = zero :: xs ++ repeat zero (length kernel - 1 - length xs) /\
    (Datatypes.S (length xs) = length kernel ->
     forall x, exists c',
       next c x =
         Ok (Some (cross_correlation kernel (zero :: xs) 0 (length kernel)), c')).
Proof.
  intros Hn.
  assert (Hk : 1 <= length kernel) by lia.
  rewrite init_no_data; simpl.
  destruct (@run_tracked kernel xs _ (@init_tracked kernel Hk)) as (outs & c & Hr & Htr & Hd & _ & _).
  simpl in Hd.
  pose proof Htr as [Hwf Ho Hf Hp Hw].
  rewrite Hd in Hp, Ho.
  exists outs, c; split; [exact Hr |].
  split; [apply Hp; exact Hn |].
  intros HK x.
  destruct (@next_tracked kernel c x Htr) as (y & c' & Hnx & _ & _ & _ & Hsome).
  destruct Hsome as [Hy _]; [rewrite Hd; lia |].
  exists c'; rewrite Hnx, Hy, Ho, Hp by exact Hn.
  replace (length xs + 1 - length kernel) with 0 by lia.
  replace (length kernel - 1 - length xs) with 0 by lia.
  rewrite Nat.Div0.mod_0_l.
  simpl; rewrite app_nil_r; reflexivity.
Qed.


Lemma last_default (l : list T) (a d d' : T) : last (a :: l) d = last (a :: l) d'.
Proof.
  revert a; induction l as [|b l IH]; intros a; [reflexivity |].
  change (last (b :: l) d = last (b :: l) d'); apply IH.
Qed.

(** The buffer as read from [oldest] after the samples [ys] have gone
    through [shift]: the last sample first, then what is left of a queue
    that every step has pushed the sample before onto. *)
Lemma fold_shift (ys : list T) :
  forall (h : T) (q : list T),
    fold_left (@shift T) ys (h :: q) =
      last (h :: ys) h :: skipn (length ys) (q ++ removelast (h :: ys)).
Proof.
  induction ys as [|y ys IH]; intros h q.
  - cbn [fold_left length skipn removelast last]; rewrite app_nil_r; reflexivity.
  - cbn [fold_left].
    change (last (h :: y :: ys) h) with (last (y :: ys) h).
    change (removelast (h :: y :: ys)) with (h :: removelast (y :: ys)).
    rewrite (last_default ys y h y).
    destruct q as [|b q]; cbn [shift].
    + rewrite IH; reflexivity.
    + rewrite IH, <- app_assoc; reflexivity.
Qed.

Lemma skipn_split (l r : list T) : skipn (length l) (l ++ r) = r.
Proof.
  rewrite skipn_app, skipn_all, Nat.sub_diag; reflexivity.
Qed.

Lemma window_after (pre tail : list T) (y : T) :
  length tail <= length pre ->
  fold_left (@shift T) (skipn (length tail) (pre ++ tail ++ [y]))
            (zero :: firstn (length tail) (pre ++ tail ++ [y])) =
    y :: tail.
Proof.
  intros Hpre.
  assert (Hl : length (firstn (length tail) pre) = length tail)
    by (rewrite length_firstn; lia).
  rewrite <- (firstn_skipn (length tail) pre).
  revert Hl; generalize (firstn (length tail) pre) (skipn (length tail) pre).
  intros p1 p2 Hl.
  rewrite <- app_assoc, <- Hl at 1 2.
  rewrite skipn_split, firstn_app, Nat.sub_diag, firstn_all.
  cbn [firstn]; rewrite app_nil_r, fold_shift.
  replace (zero :: p2 ++ tail ++ [y]) with ((zero :: p2 ++ tail) ++ [y])
    by (cbn [app]; rewrite <- app_assoc; reflexivity).
  rewrite last_last, removelast_last.
  f_equal.
  replace (p1 ++ zero :: p2 ++ tail) with ((p1 ++ zero :: p2) ++ tail)
    by (rewrite <- app_assoc; reflexivity).
  replace (length (p2 ++ tail ++ [y])) with (length (p1 ++ zero :: p2))
    by (rewrite !length_app; cbn [length]; lia).
  apply skipn_split.
Qed.

(** X3.  Once at least [2K - 1] samples have been fed, the buffer read from
    [oldest] holds the sample stored last first, and then the [K - 1]
    samples before it, oldest first.  The next call returns the sum of the
    taps times that window, whatever sample it is called with: the slot
    [oldest] points at holds the newest sample, and a sample enters the
    sum one call after it was passed. *)
Theorem steady_state_window (kernel pre tail : list T) (y x : T) :
  Datatypes.S (length tail) = length kernel ->
  length tail <= length pre ->
  exists outs c c',
    (c0 <- __init__ kernel None ;; run c0 (pre ++ tail ++ [y])) = Ok (outs, c) /\
    rotated (circ_buf c) (oldest c) = y :: tail /\
    next c x =
      Ok (Some (@np_sum T zero add
                  (map (fun p => mul (fst p) (snd p)) (combine kernel (y :: tail)))),
          c').
Proof.
  intros HK Hpre.
  assert (Hk : 1 <= length kernel) by lia.
  rewrite init_no_data; cbv beta iota delta [bind].
  destruct (@run_tracked kernel (pre ++ tail ++ [y]) _ (@init_tracked kernel Hk))
    as (outs & c & Hr & Htr & Hd & _ & _).
  cbn [data app] in Hd.
  destruct (@next_tracked kernel c x Htr) as (y0 & c' & Hnx & _ & _ & _ & Hsome).
  assert (Hn : length kernel <= Datatypes.S (length (data c))).
  { rewrite Hd, !length_app; cbn [length]; lia. }
  destruct (Hsome Hn) as [Hy _].
  destruct Htr as [[HF HKc Hb Hlt _ _] _ _ _ Hw].
  assert (Hwin : rotated (circ_buf c) (oldest c) = y :: tail).
  { rewrite (Hw Hn), Hd.
    replace (length kernel - 1) with (length tail) by lia.
    apply window_after; exact Hpre. }
  exists outs, c, c'; split; [exact Hr |]; split; [exact Hwin |].
  rewrite Hnx, Hy; unfold Convolver.cross_correlation.
  rewrite <- (products_by_index zero mul kernel (circ_buf c) Hb Hlt), Hwin.
  reflexivity.
Qed.

(** ** A single tap *)
Lemma run_single_tap (k : T) (xs : list T) :
  forall (c : OTF) (p : T),
    wf [k] c -> circ_buf c = [p] ->
    exists c',
      run c xs =
        Ok (map (fun q => Some (add zero (mul k q))) (firstn (length xs) (p :: xs)), c').
Proof.
  induction xs as [|x xs IH]; intros c p Hwf Hb.
  - exists c; reflexivity.
  - pose proof Hwf as [HF HK Hbl Ho Hu HM]. simpl in *.
    assert (Ho0 : oldest c = 0) by lia.
    cbn [Convolver.run].
    rewrite (next_primed zero add mul x Hwf) by (simpl; lia).
    cbv beta iota zeta delta [bind].
    rewrite Hb, Ho0. simpl length. cbn [Nat.add Nat.modulo Nat.divmod fst snd Nat.sub upd].
    match goal with
    | |- context [Convolver.run _ _ _ ?c1 xs] =>
        destruct (IH c1 x) as (c' & Hr)
    end.
    { constructor; simpl; auto; lia. }
    { reflexivity. }
    rewrite Hr; cbv beta iota zeta delta [bind].
    exists c'. reflexivity.
Qed.

(** With a single tap [k] every call returns a number: [k] times the
    initial zero at the first call, [k] times the sample of the call before
    at every later one. *)
Lemma single_tap_delays_by_one (k : T) (xs : list T) :
  exists c,
    (c0 <- __init__ [k] None ;; run c0 xs) =
      Ok (map (fun q => Some (add zero (mul k q))) (firstn (length xs) (zero :: xs)), c).
Proof.
  rewrite init_no_data; cbv beta iota delta [bind].
  apply run_single_tap.
  - apply (@init_wf T zero [k]); simpl; lia.
  - reflexivity.
Qed.

End WithScalars.

Lemma run_keeps_state_witness :
  exists outs c,
    (c0 <- Convolver.__init__ 0%Z Z.add Z.mul [2; 3]%Z None ;;
     Convolver.run 0%Z Z.add Z.mul c0 [5; 6; 7]%Z) = Ok (outs, c) /\
    length outs = length [5; 6; 7]%Z /\
    (forall j, j < length [5; 6; 7]%Z ->
       (j + 1 < length [2; 3]%Z -> nth j outs (Some 0%Z) = None) /\
       (length [2; 3]%Z <= j + 1 -> nth j outs None <> None)) /\
    F c = [2; 3]%Z /\ K c = length [2; 3]%Z /\
    data c = [5; 6; 7]%Z /\
    length (circ_buf c) = length [2; 3]%Z /\
    oldest c = (length [5; 6; 7]%Z + 1 - length [2; 3]%Z) mod length [2; 3]%Z /\
    length (filtered c) =
      length [5; 6; 7]%Z + (length [5; 6; 7]%Z + 1 - length [2; 3]%Z).
Proof.
  apply (@run_keeps_state Z 0%Z Z.add Z.mul [2; 3]%Z [5; 6; 7]%Z).
  simpl; lia.
Defined.

Lemma priming_fills_from_slot_one_witness :
  exists outs c,
    (c0 <- Convolver.__init__ 0%Z Z.add Z.mul [2; 3; 4]%Z None ;;
     Convolver.run 0%Z Z.add Z.mul c0 [5; 6]%Z) = Ok (outs, c) /\
    circ_buf c =
      0%Z :: [5; 6]%Z ++ repeat 0%Z (length [2; 3; 4]%Z - 1 - length [5; 6]%Z) /\
    (Datatypes.S (length [5; 6]%Z) = length [2; 3; 4]%Z ->
     forall x, exists c',
       Convolver.next 0%Z Z.add Z.mul c x =
         Ok (Some (Convolver.cross_correlation 0%Z Z.add Z.mul [2; 3; 4]%Z
                     (0%Z :: [5; 6]%Z) 0 (length [2; 3; 4]%Z)), c')).
Proof.
  apply (@priming_fills_from_slot_one Z 0%Z Z.add Z.mul [2; 3; 4]%Z [5; 6]%Z).
  simpl; lia.
Defined.

Lemma steady_state_window_witness :
  exists outs c c',
    (c0 <- Convolver.__init__ 0%Z Z.add Z.mul [2; 3]%Z None ;;
     Convolver.run 0%Z Z.add Z.mul c0 ([5] ++ [6] ++ [7])%Z) = Ok (outs, c) /\
    rotated (circ_buf c) (oldest c) = [7; 6]%Z /\
    Convolver.next 0%Z Z.add Z.mul c 8%Z =
      Ok (Some (Convolver.np_sum 0%Z Z.add
                  (map (fun p => Z.mul (fst p) (snd p))
                       (combine [2; 3]%Z [7; 6]%Z))), c').
Proof.
  apply (@steady_state_window Z 0%Z Z.add Z.mul [2; 3]%Z [5]%Z [6]%Z 7%Z 8%Z);
    simpl; lia.
Defined.

End ConvolverRuns.

(* ================================================================== *)
(** * The signal constructor and [is_quadrature] *)

Module SignalNewProps.
Import NumPy Signals SignalProps GeneratorProps ListFacts.
Local Open Scope R_scope.

(** X4.  The real and imaginary views of a signal made from [I] and [Q] of one
    length give [I] and [Q] back, whatever [M] was passed; the signal is
    complex, of that length, with only the mode in [info]. *)
Theorem new_from_I_and_Q_round_trip (M : nat) (i q : list R) :
  length i = length q ->
  exists sig,
    __new__ M (Some i) (Some q) = Ok sig /\
    real (samples sig) = i /\
    imag (samples sig) = q /\
    dtype_of (samples sig) = complex /\
    len (samples sig) = length i /\
    info sig = mkInfo "complex" [].
Proof.
  intros H.
  eexists; split; [apply new_equal_lengths; exact H |].
  cbn [samples real imag dtype_of len info]; unfold of_parts.
  rewrite !map_map, length_map, length_combine, <- H, Nat.min_id; cbn [Re Im].
  repeat split.
  - change (fun x : R * R => fst x) with (@fst R R).
    apply map_fst_combine_eq; exact H.
  - change (fun x : R * R => snd x) with (@snd R R).
    apply map_snd_combine_eq; exact H.
Qed.

Lemma new_from_I_and_Q_round_trip_witness :
  exists sig,
    __new__ 1024 (Some [1; 2]) (Some [3; 4]) = Ok sig /\
    real (samples sig) = [1; 2] /\
    imag (samples sig) = [3; 4] /\
    dtype_of (samples sig) = complex /\
    len (samples sig) = length [1; 2] /\
    info sig = mkInfo "complex" [].
Proof.
  apply (@new_from_I_and_Q_round_trip 1024 [1; 2] [3; 4]); reflexivity.
Defined.

(** X5.  Construction from [I] and [Q] raises nothing exactly when the two
    lengths agree, or are 1 and 0 in either order (one element broadcasts
    to the empty signal). *)
Theorem new_succeeds_iff (M : nat) (i q : list R) :
  ~ raises (__new__ M (Some i) (Some q)) <->
  (length i = length q \/
   (length i = 1%nat /\ length q = 0%nat) \/
   (length i = 0%nat /\ length q = 1%nat)).
Proof.
  split.
  - intros Hok.
    destruct (Nat.eq_dec (length i) (length q)) as [E | NE]; [left; exact E |].
    destruct (le_lt_dec 2 (Nat.max (length i) (length q))) as [H2 | H2].
    + exfalso; apply Hok; eexists; apply new_unequal_lengths; assumption.
    + right; lia.
  - intros [E | [[Hi Hq] | [Hi Hq]]] [e He].
    + rewrite (new_equal_lengths M i q E) in He; discriminate He.
    + destruct i as [|a [|b i]], q as [|c q]; try discriminate; discriminate He.
    + destruct i as [|a i], q as [|c [|d q]]; try discriminate; discriminate He.
Qed.

End SignalNewProps.

(* ================================================================== *)
(** * The generator in its three modes *)

Module GeneratorMethodProps.
Import NumPy Signals PyStr Generator GeneratorProps GeneratorMethods SignalProps Helpers.
Local Open Scope R_scope.

Lemma analytic_term_value (M : nat) (comp : component) (n : nat) :
  cdivr (cmul (RtoC (c0 comp))
              (cexp (cmul (cmul (RtoC (2 * PI)) Ci)
                          (RtoC (c1 comp * INR n / INR M + c2 comp)))))
        2 =
  mkC (c0 comp * cos (2 * PI * (c1 comp * INR n / INR M + c2 comp)) / 2)
      (c0 comp * sin (2 * PI * (c1 comp * INR n / INR M + c2 comp)) / 2).
Proof.
  set (t := 2 * PI * (c1 comp * INR n / INR M + c2 comp)).
  unfold cdivr, cmul, cexp, RtoC, Ci; cbn [Re Im].
  match goal with
  | |- context [exp ?e] => replace e with 0 by ring
  end.
  match goal with
  | |- context [cos ?e] => replace e with t by (unfold t; ring)
  end.
  rewrite exp_0.
  apply C_eq; cbn [Re Im]; field.
Qed.

Lemma analytic_loop_computes (all_comps : list component) (M : nat) (m : list nat)
    (comps : list component) :
  forall (S0 : DigitalSignal) (v : list C),
    samples S0 = ComplexArr v -> length v = length m ->
    exists S1,
      analytic_loop all_comps M m comps S0 = Ok S1 /\
      samples S1 =
        ComplexArr (map (fun p => analytic_slot M comps (snd p) (fst p)) (combine v m)).
Proof.
  induction comps as [|comp rest IH]; intros S0 v Hs Hl.
  - exists S0; split; [reflexivity |].
    rewrite Hs; f_equal; symmetry.
    change (fun p : C * nat => analytic_slot M [] (snd p) (fst p)) with (@fst C nat).
    apply map_fst_combine_eq; exact Hl.
  - cbn [analytic_loop].
    rewrite Hs; cbn [as_complex].
    rewrite iaddC_same_length by (unfold analytic_term; rewrite length_map; auto).
    cbv beta iota delta [bind].
    unfold analytic_term at 1; rewrite combine_map_snd, map_map; cbn [fst snd].
    match goal with
    | |- context [analytic_loop _ _ _ _ ?S'] =>
        destruct (IH S' _ eq_refl) as (S1 & Hrun & Hv)
    end.
    { rewrite length_map, length_combine, Hl, Nat.min_id; reflexivity. }
    exists S1; split; [exact Hrun |].
    rewrite Hv; f_equal.
    rewrite (map_combine_map_combine
               (fun p => cadd (fst p)
                  (cdivr (cmul (RtoC (c0 comp))
                     (cexp (cmul (cmul (RtoC (2 * PI)) Ci)
                                 (RtoC (c1 comp * INR (snd p) / INR M + c2 comp)))))
                     2))
               (fun p => analytic_slot M rest (snd p) (fst p))).
    apply map_ext; intros [z n]; cbn [fst snd analytic_slot fold_left].
    rewrite analytic_term_value; reflexivity.
Qed.

Lemma generated_analytic (md : string) (M : nat) (c : component) (cs : list component) :
  py_in (lower md) "real" = false ->
  py_in (lower md) "analytic" = true ->
  generated md M (c :: cs) =
    Ok (ComplexArr (map (fun n => analytic_slot M (c :: cs) n C0) (seq 0 M))).
Proof.
  intros Hr Ha.
  unfold generated, Generator.__init__.
  cbn [Signals.__new__ bind].
  rewrite Hr, Ha.
  destruct (@analytic_loop_computes (c :: cs) M (arange M) (c :: cs)
              (set_mode
                 (mkSignal (ComplexArr (of_parts (repeat 0 M) (repeat 0 M)))
                           (mkInfo "complex" []))
                 (lower md))
              (repeat C0 M)) as (S1 & Hrun & Hv).
  { cbn [set_mode samples]. rewrite zero_signal_complex; reflexivity. }
  { unfold arange; rewrite repeat_length, length_seq; reflexivity. }
  rewrite Hrun; cbn [bind].
  unfold signal; cbn [Generator.mode Generator.S].
  assert (Hne : String.eqb md "real" = false).
  { destruct (String.eqb_spec md "real") as [-> | _]; [discriminate Hr | reflexivity]. }
  rewrite Hne, Hv; unfold arange.
  rewrite (map_combine_repeat_seq
             (fun p : C * nat => analytic_slot M (c :: cs) (snd p) (fst p)) C0 M 0).
  reflexivity.
Qed.

(** The real part of the analytic slot is half the real slot. *)
Lemma analytic_slot_real (M : nat) (comps : list component) (n : nat) :
  forall (z : C) (r : R),
    Re z = r / 2 ->
    Re (analytic_slot M comps n z) = real_slot M comps n r / 2.
Proof.
  induction comps as [|comp rest IH]; intros z r H; [exact H |].
  cbn [analytic_slot real_slot fold_left].
  apply IH; cbn [cadd Re]; rewrite H; field.
Qed.

(** Complex mode on the converted components doubles the analytic slot. *)
Lemma complex_slot_polar (M : nat) (comps : list component) (n : nat) :
  forall z w : C,
    z = cmul (RtoC 2) w ->
    complex_slot M (map polar_to_IQ comps) n z =
    cmul (RtoC 2) (analytic_slot M comps n w).
Proof.
  induction comps as [|comp rest IH]; intros z w H; [exact H |].
  cbn [map complex_slot analytic_slot fold_left].
  apply IH.
  rewrite H.
  unfold polar_to_IQ, complex_of; cbn [c0 c1 c2 fst snd].
  replace (2 * PI * (c1 comp * INR n / INR M + c2 comp))
    with (2 * PI * c1 comp * INR n / INR M + 2 * PI * c2 comp)
    by (unfold Rdiv; ring).
  rewrite cos_plus, sin_plus.
  destruct w as [a b]; apply C_eq; cbn [cadd cmul RtoC Re Im]; field.
Qed.


Lemma generated_complex_any (md : string) (M : nat) (c : component) (cs : list component) :
  py_in (lower md) "real" = false ->
  py_in (lower md) "analytic" = false ->
  py_in (lower md) "complex" = true ->
  generated md M (c :: cs) =
    Ok (ComplexArr (map (fun n => complex_slot M (c :: cs) n C0) (seq 0 M))).
Proof.
  intros Hr Ha Hc.
  unfold generated, Generator.__init__.
  cbn [Signals.__new__ bind].
  rewrite Hr, Ha, Hc.
  destruct (@complex_loop_computes (c :: cs) M (arange M) (c :: cs)
              (set_mode
                 (mkSignal (ComplexArr (of_parts (repeat 0 M) (repeat 0 M)))
                           (mkInfo "complex" []))
                 (lower md))
              (repeat C0 M)) as (S1 & Hrun & Hv).
  { cbn [set_mode samples]. rewrite zero_signal_complex; reflexivity. }
  { unfold arange; rewrite repeat_length, length_seq; reflexivity. }
  rewrite Hrun; cbn [bind].
  unfold signal; cbn [Generator.mode Generator.S].
  assert (Hne : String.eqb md "real" = false).
  { destruct (String.eqb_spec md "real") as [-> | _]; [discriminate Hr | reflexivity]. }
  rewrite Hne, Hv; unfold arange.
  rewrite (map_combine_repeat_seq
             (fun p : C * nat => complex_slot M (c :: cs) (snd p) (fst p)) C0 M 0).
  reflexivity.
Qed.

(** ** What the loops leave in [info] *)

Lemma real_loop_info (all_comps : list component) (M : nat) (m : list nat)
    (comps : list component) :
  forall S0 S1 : DigitalSignal,
    real_loop all_comps M m comps S0 = Ok S1 ->
    info S1 =
      mkInfo (Signals.mode (info S0))
             (filed all_comps polar_entry comps (entries (info S0))).
Proof.
  induction comps as [|comp rest IH]; intros S0 S1 H.
  - injection H as <-; destruct S0 as [a [md E]]; reflexivity.
  - cbn [real_loop] in H.
    destruct (iaddR (real (samples S0)) (real_term M m comp)) as [v | e];
      [| discriminate H].
    cbv beta iota delta [bind] in H.
    rewrite (IH _ _ H); reflexivity.
Qed.

Lemma analytic_loop_info (all_comps : list component) (M : nat) (m : list nat)
    (comps : list component) :
  forall S0 S1 : DigitalSignal,
    analytic_loop all_comps M m comps S0 = Ok S1 ->
    info S1 =
      mkInfo (Signals.mode (info S0))
             (filed all_comps polar_entry comps (entries (info S0))).
Proof.
  induction comps as [|comp rest IH]; intros S0 S1 H.
  - injection H as <-; destruct S0 as [a [md E]]; reflexivity.
  - cbn [analytic_loop] in H.
    destruct (iaddC (as_complex (samples S0)) (analytic_term M m comp)) as [v | e];
      [| discriminate H].
    cbv beta iota delta [bind] in H.
    rewrite (IH _ _ H); reflexivity.
Qed.

Lemma complex_loop_info (all_comps : list component) (M : nat) (m : list nat)
    (comps : list component) :
  forall S0 S1 : DigitalSignal,
    complex_loop all_comps M m comps S0 = Ok S1 ->
    info S1 =
      mkInfo (Signals.mode (info S0))
             (filed all_comps IQ_entry comps (entries (info S0))).
Proof.
  induction comps as [|comp rest IH]; intros S0 S1 H.
  - injection H as <-; destruct S0 as [a [md E]]; reflexivity.
  - cbn [complex_loop] in H.
    destruct (iaddC (as_complex (samples S0)) (complex_term M m comp)) as [v | e];
      [| discriminate H].
    cbv beta iota delta [bind] in H.
    rewrite (IH _ _ H); reflexivity.
Qed.

(** [dict_get] after [dict_set] *)
Lemma dict_get_set_same {V : Type} (d : list (nat * V)) (k : nat) (v : V) :
  dict_get (dict_set d k v) k = Some v.
Proof.
  induction d as [|[k' v'] d IH]; simpl.
  - rewrite Nat.eqb_refl; reflexivity.
  - destruct (Nat.eqb_spec k' k) as [-> | Hne]; simpl.
    + rewrite Nat.eqb_refl; reflexivity.
    + destruct (Nat.eqb_spec k' k); [contradiction | exact IH].
Qed.

Lemma dict_get_set_other {V : Type} (d : list (nat * V)) (k j : nat) (v : V) :
  k <> j -> dict_get (dict_set d k v) j = dict_get d j.
Proof.
  intros Hkj; induction d as [|[k' v'] d IH]; simpl.
  - destruct (Nat.eqb_spec k j); [contradiction | reflexivity].
  - destruct (Nat.eqb_spec k' k) as [-> | Hne]; simpl.
    + destruct (Nat.eqb_spec k j); [contradiction | reflexivity].
    + destruct (Nat.eqb_spec k' j); [reflexivity | exact IH].
Qed.

Lemma component_eqb_eq (a b : component) : component_eqb a b = true <-> a = b.
Proof.
  destruct a as [[a0 a1] a2], b as [[b0 b1] b2].
  unfold component_eqb; cbn [c0 c1 c2 fst snd].
  destruct (Req_dec_T a0 b0), (Req_dec_T a1 b1), (Req_dec_T a2 b2);
    cbn; split; intros H; try discriminate; try congruence;
    injection H; intros; contradiction.
Qed.

Lemma nth_index (all_comps : list component) (comp d : component) :
  In comp all_comps -> nth (index all_comps comp) all_comps d = comp.
Proof.
  induction all_comps as [|c cs IH]; intros Hin; [contradiction |].
  cbn [index].
  destruct (component_eqb c comp) eqn:E.
  - apply component_eqb_eq in E; exact E.
  - destruct Hin as [-> | Hin].
    + assert (component_eqb comp comp = true) by (apply component_eqb_eq; reflexivity).
      congruence.
    + simpl; apply IH; exact Hin.
Qed.

Lemma index_inj (all_comps : list component) (a b : component) :
  In a all_comps -> In b all_comps ->
  index all_comps a = index all_comps b -> a = b.
Proof.
  intros Ha Hb H.
  rewrite <- (nth_index all_comps a a Ha), <- (nth_index all_comps b a Hb), H.
  reflexivity.
Qed.

Lemma filed_lookup (all_comps : list component)
    (entry : component -> list (string * R)) (comps : list component) :
  (forall c, In c comps -> In c all_comps) ->
  forall E comp,
    In comp comps ->
    dict_get (filed all_comps entry comps E) (index all_comps comp) =
      Some (entry comp).
Proof.
  induction comps as [|c rest IH] using rev_ind; intros Hsub E comp Hin;
    [contradiction |].
  unfold filed; rewrite fold_left_app; cbn [fold_left].
  fold (filed all_comps entry rest E).
  destruct (Nat.eq_dec (index all_comps c) (index all_comps comp)) as [Heq | Hne].
  - assert (c = comp).
    { apply (index_inj all_comps); auto; apply Hsub; auto.
      apply in_or_app; right; left; reflexivity. }
    subst c; rewrite dict_get_set_same; reflexivity.
  - rewrite dict_get_set_other by exact Hne.
    apply IH.
    + intros c' Hc'; apply Hsub, in_or_app; left; exact Hc'.
    + apply in_app_or in Hin; destruct Hin as [Hin | [-> | []]];
        [exact Hin | contradiction].
Qed.


(** The generator with components, in closed form. *)
Lemma init_with_components (md : string) (M : nat) (c : component) (cs : list component) :
  (py_in (lower md) "real" || py_in (lower md) "analytic"
   || py_in (lower md) "complex")%bool = true ->
  exists S1,
    Generator.__init__ md M (Some (c :: cs)) =
      Ok (mkSG (arange M) M md (Some (c :: cs)) S1) /\
    samples S1 =
      (if py_in (lower md) "real"
       then FloatArr (map (fun n => real_slot M (c :: cs) n 0) (seq 0 M))
       else if py_in (lower md) "analytic"
       then ComplexArr (map (fun n => analytic_slot M (c :: cs) n C0) (seq 0 M))
       else ComplexArr (map (fun n => complex_slot M (c :: cs) n C0) (seq 0 M))) /\
    info S1 =
      mkInfo (lower md)
        (filed (c :: cs)
           (if py_in (lower md) "real" || py_in (lower md) "analytic"
            then polar_entry else IQ_entry)
           (c :: cs) []).
Proof.
  intros Hvalid.
  unfold Generator.__init__.
  cbn [Signals.__new__ bind].
  destruct (py_in (lower md) "real") eqn:Hr.
  - match goal with
    | |- context [real_loop _ _ _ _ ?S0] =>
        destruct (@real_loop_computes (c :: cs) M (arange M) (c :: cs) S0 (repeat 0 M))
          as (S1 & Hrun & Hv)
    end.
    { cbn [set_samples set_mode samples real]. rewrite zero_signal_real; reflexivity. }
    { unfold arange; rewrite repeat_length, length_seq; reflexivity. }
    rewrite Hrun; cbn [bind].
    exists S1; split; [reflexivity |].
    split.
    + rewrite Hv; unfold arange.
      rewrite (map_combine_repeat_seq
                 (fun p : R * nat => real_slot M (c :: cs) (snd p) (fst p)) 0 M 0).
      reflexivity.
    + rewrite (@real_loop_info _ _ _ _ _ _ Hrun); reflexivity.
  - destruct (py_in (lower md) "analytic") eqn:Ha.
    + match goal with
      | |- context [analytic_loop _ _ _ _ ?S0] =>
          destruct (@analytic_loop_computes (c :: cs) M (arange M) (c :: cs) S0 (repeat C0 M))
            as (S1 & Hrun & Hv)
      end.
      { cbn [set_mode samples]. rewrite zero_signal_complex; reflexivity. }
      { unfold arange; rewrite repeat_length, length_seq; reflexivity. }
      rewrite Hrun; cbn [bind].
      exists S1; split; [reflexivity |].
      split.
      * rewrite Hv; unfold arange.
        rewrite (map_combine_repeat_seq
                   (fun p : C * nat => analytic_slot M (c :: cs) (snd p) (fst p)) C0 M 0).
        reflexivity.
      * rewrite (@analytic_loop_info _ _ _ _ _ _ Hrun); reflexivity.
    + cbn [orb] in Hvalid; rewrite Hvalid.
      match goal with
      | |- context [complex_loop _ _ _ _ ?S0] =>
          destruct (@complex_loop_computes (c :: cs) M (arange M) (c :: cs) S0 (repeat C0 M))
            as (S1 & Hrun & Hv)
      end.
      { cbn [set_mode samples]. rewrite zero_signal_complex; reflexivity. }
      { unfold arange; rewrite repeat_length, length_seq; reflexivity. }
      rewrite Hrun; cbn [bind].
      exists S1; split; [reflexivity |].
      split.
      * rewrite Hv; unfold arange.
        rewrite (map_combine_repeat_seq
                   (fun p : C * nat => complex_slot M (c :: cs) (snd p) (fst p)) C0 M 0).
        reflexivity.
      * rewrite (@complex_loop_info _ _ _ _ _ _ Hrun); reflexivity.
Qed.

Lemma info_signal (g : SignalGenerator) : info (signal g) = info (Generator.S g).
Proof. unfold signal; destruct (String.eqb (Generator.mode g) "real"); reflexivity. Qed.

(** X6.  Analytic mode (the lower-cased mode string is a substring of
    analytic and not of real): sample [n] is the sum over the components
    of [amplitude / 2 * (cos t + i sin t)], [t = 2 pi (frequency n / M + phase)]. *)
Theorem analytic_mode_signal (md : string) (M : nat) (c : component) (cs : list component) :
  py_in (lower md) "real" = false ->
  py_in (lower md) "analytic" = true ->
  generated md M (c :: cs) =
    Ok (ComplexArr (map (fun n => analytic_slot M (c :: cs) n C0) (seq 0 M))).
Proof. apply generated_analytic. Qed.

Lemma analytic_mode_signal_witness :
  generated "analytic" 2 [(1, 1, 0)] =
    Ok (ComplexArr (map (fun n => analytic_slot 2 [(1, 1, 0)] n C0) (seq 0 2))).
Proof. apply (@analytic_mode_signal "analytic" 2 (1, 1, 0) []); reflexivity. Defined.

(** X7.  For the same components, the real part of each analytic-mode sample
    is half the real-mode sample. *)
Theorem analytic_is_half_real (M : nat) (c : component) (cs : list component) :
  exists za xr,
    generated "analytic" M (c :: cs) = Ok (ComplexArr za) /\
    generated "real" M (c :: cs) = Ok (FloatArr xr) /\
    map Re za = map (fun x => x / 2) xr.
Proof.
  eexists _, _.
  split; [apply generated_analytic; reflexivity |].
  split; [apply generated_real; reflexivity |].
  rewrite !map_map; apply map_ext; intros n.
  apply analytic_slot_real; simpl; field.
Qed.

Lemma generated_complex_polar (M : nat) (c : component) (cs : list component) :
  exists zc za,
    generated "complex" M (map polar_to_IQ (c :: cs)) = Ok (ComplexArr zc) /\
    generated "analytic" M (c :: cs) = Ok (ComplexArr za) /\
    zc = map (fun z => cmul (RtoC 2) z) za.
Proof.
  eexists _, _.
  split; [cbn [map]; apply generated_complex |].
  split; [apply generated_analytic; reflexivity |].
  rewrite map_map; apply map_ext; intros n.
  change (polar_to_IQ c :: map polar_to_IQ cs) with (map polar_to_IQ (c :: cs)).
  apply complex_slot_polar.
  apply C_eq; simpl; ring.
Qed.

(** X8.  Complex mode on the components converted to
    [(frequency, amplitude cos(2 pi phase), amplitude sin(2 pi phase))]
    gives twice the analytic-mode signal of the polar components. *)
Theorem complex_doubles_analytic (M : nat) (c : component) (cs : list component) :
  exists zc za,
    generated "complex" M (map polar_to_IQ (c :: cs)) = Ok (ComplexArr zc) /\
    generated "analytic" M (c :: cs) = Ok (ComplexArr za) /\
    zc = map (fun z => cmul (RtoC 2) z) za.
Proof. apply generated_complex_polar. Qed.

(** X9.  For a mode string whose lower case is a substring of real, analytic
    or complex, and components at hand, construction raises nothing; the
    signal has [M] samples, float for the substrings of real and complex
    otherwise, and its mode entry is the lower-cased mode string. *)
Theorem generation_succeeds (md : string) (M : nat) (c : component) (cs : list component) :
  (py_in (lower md) "real" || py_in (lower md) "analytic"
   || py_in (lower md) "complex")%bool = true ->
  exists g,
    Generator.__init__ md M (Some (c :: cs)) = Ok g /\
    len (samples (signal g)) = M /\
    dtype_of (samples (signal g)) =
      (if py_in (lower md) "real" then float else complex) /\
    Signals.mode (info (signal g)) = lower md.
Proof.
  intros Hvalid.
  destruct (@init_with_components md M c cs Hvalid) as (S1 & Hinit & Hv & Hi).
  eexists; split; [exact Hinit |].
  assert (Hs : samples (signal (mkSG (arange M) M md (Some (c :: cs)) S1)) = samples S1).
  { unfold signal; cbn [Generator.mode Generator.S].
    destruct (String.eqb_spec md "real") as [-> | _]; [| reflexivity].
    change (py_in (lower "real") "real") with true in Hv.
    cbn [set_samples samples]; rewrite Hv; reflexivity. }
  rewrite Hs, info_signal; cbn [Generator.S]; rewrite Hi, Hv; cbn [Signals.mode].
  destruct (py_in (lower md) "real"); [| destruct (py_in (lower md) "analytic")];
    cbn [len dtype_of]; rewrite length_map, length_seq; auto.
Qed.

(** X10.  After construction, [info] holds for every component, under its
    position [components.index(comp)], the entry of that component:
    ampl, freq, phas in real and analytic mode, freq, ampI, ampQ in
    complex mode. *)
Theorem components_are_recorded (md : string) (M : nat) (c : component) (cs : list component) :
  (py_in (lower md) "real" || py_in (lower md) "analytic"
   || py_in (lower md) "complex")%bool = true ->
  exists g,
    Generator.__init__ md M (Some (c :: cs)) = Ok g /\
    forall comp,
      In comp (c :: cs) ->
      dict_get (entries (info (signal g))) (index (c :: cs) comp) =
        Some (if py_in (lower md) "real" || py_in (lower md) "analytic"
              then polar_entry comp else IQ_entry comp).
Proof.
  intros Hvalid.
  destruct (@init_with_components md M c cs Hvalid) as (S1 & Hinit & Hv & Hi).
  eexists; split; [exact Hinit |].
  intros comp Hin.
  rewrite info_signal; cbn [Generator.S]; rewrite Hi; cbn [entries].
  destruct (py_in (lower md) "real" || py_in (lower md) "analytic")%bool;
    apply filed_lookup; auto.
Qed.

(** X11.  Without components ([None] or an empty list) no mode string raises,
    and the signal is [M] zeros: float when the mode is exactly real,
    complex otherwise, the mode entry of [info] being complex in both
    cases. *)
Theorem no_components_zero_signal (md : string) (M : nat) :
  forall comps : option (list component),
    match comps with Some (_ :: _) => False | _ => True end ->
    exists g,
      Generator.__init__ md M comps = Ok g /\
      signal g =
        mkSignal (if String.eqb md "real" then FloatArr (repeat 0 M)
                  else ComplexArr (repeat C0 M))
                 (mkInfo "complex" []).
Proof.
  intros comps Hc.
  assert (E : Generator.__init__ md M comps =
              Ok (mkSG (arange M) M md comps
                       (mkSignal (ComplexArr (of_parts (repeat 0 M) (repeat 0 M)))
                                 (mkInfo "complex" [])))).
  { destruct comps as [[|c cs] |]; [reflexivity | contradiction | reflexivity]. }
  eexists; split; [exact E |].
  unfold signal; cbn [Generator.mode Generator.S].
  destruct (String.eqb md "real"); cbn [set_samples samples real info].
  - rewrite zero_signal_real; reflexivity.
  - rewrite zero_signal_complex; reflexivity.
Qed.

Lemma no_components_zero_signal_witness :
  exists g,
    Generator.__init__ "real" 3 None = Ok g /\
    signal g = mkSignal (FloatArr (repeat 0 3)) (mkInfo "complex" []).
Proof. apply (@no_components_zero_signal "real" 3 None); exact Logic.I. Defined.

(** X12.  A mode string that is a substring of none of real, analytic and
    complex raises [ValueError] only when components are given. *)
Theorem unknown_mode_needs_components (md : string) (M : nat) :
  py_in (lower md) "real" = false ->
  py_in (lower md) "analytic" = false ->
  py_in (lower md) "complex" = false ->
  (forall c cs,
     Generator.__init__ md M (Some (c :: cs)) = Raise (ValueError "mode is not valid")) /\
  ~ raises (Generator.__init__ md M None) /\
  ~ raises (Generator.__init__ md M (Some [])).
Proof.
  intros Hr Ha Hc.
  split.
  - intros c cs; unfold Generator.__init__; cbn [Signals.__new__ bind].
    rewrite Hr, Ha, Hc; reflexivity.
  - split; intros [e He]; discriminate He.
Qed.

Lemma generation_succeeds_witness :
  exists g,
    Generator.__init__ "Analytic" 4 (Some [(1, 1, 0)]) = Ok g /\
    len (samples (signal g)) = 4%nat /\
    dtype_of (samples (signal g)) = complex /\
    Signals.mode (info (signal g)) = "analytic"%string.
Proof.
  apply (@generation_succeeds "Analytic" 4 (1, 1, 0) []); reflexivity.
Defined.

Lemma components_are_recorded_witness :
  exists g,
    Generator.__init__ "real" 4 (Some [(1, 1, 0); (2, 3, 0)]) = Ok g /\
    forall comp,
      In comp [(1, 1, 0); (2, 3, 0)] ->
      dict_get (entries (info (signal g))) (index [(1, 1, 0); (2, 3, 0)] comp) =
        Some (polar_entry comp).
Proof.
  apply (@components_are_recorded "real" 4 (1, 1, 0) [(2, 3, 0)]); reflexivity.
Defined.

Lemma unknown_mode_needs_components_witness :
  (forall c cs,
     Generator.__init__ "both" 4 (Some (c :: cs)) =
       Raise (ValueError "mode is not valid")) /\
  ~ raises (Generator.__init__ "both" 4 None) /\
  ~ raises (Generator.__init__ "both" 4 (Some [])).
Proof.
  apply (@unknown_mode_needs_components "both" 4); reflexivity.
Defined.

(** ** show_components *)

Lemma show_components_cases (self : SignalGenerator) (in_mode : string) :
  match components self with
  | Some (_ :: _) =>
      if String.eqb in_mode (mode self) then
        show_components self in_mode = Ok (components self)
      else if String.eqb in_mode "real" || String.eqb in_mode "analytic" then
        if String.eqb (mode self) "complex"
        then show_components self in_mode =
               Raise (AttributeError "'list' object has no attribute 'real'")
        else show_components self in_mode = Ok (components self)
      else if String.eqb in_mode "complex" then
        show_components self in_mode = Raise (NameError "comp")
      else show_components self in_mode = Ok None
  | _ => show_components self in_mode = Ok None
  end.
Proof.
  unfold show_components.
  destruct (components self) as [[|c cs] |]; try reflexivity.
  destruct (String.eqb in_mode (mode self)); [reflexivity |].
  destruct (String.eqb in_mode "real" || String.eqb in_mode "analytic")%bool.
  - destruct (String.eqb (mode self) "complex"); reflexivity.
  - destruct (String.eqb_spec in_mode "complex") as [-> | _]; reflexivity.
Qed.

(** X13.  Whatever [show_components] returns is the component list as it was
    given, or [None]: no call returns converted components. *)
Theorem show_components_never_converts (self : SignalGenerator) (in_mode : string)
    (r : option (list component)) :
  show_components self in_mode = Ok r ->
  r = components self \/ r = None.
Proof.
  intros H.
  pose proof (show_components_cases self in_mode) as Hc.
  destruct (components self) as [[|c cs] |];
    try (rewrite Hc in H; injection H as <-; right; reflexivity).
  destruct (String.eqb in_mode (mode self)).
  { rewrite Hc in H; injection H as <-; left; reflexivity. }
  destruct (String.eqb in_mode "real" || String.eqb in_mode "analytic")%bool.
  - destruct (String.eqb (mode self) "complex"); rewrite Hc in H;
      [discriminate H | injection H as <-; left; reflexivity].
  - destruct (String.eqb in_mode "complex"); rewrite Hc in H;
      [discriminate H | injection H as <-; right; reflexivity].
Qed.

Lemma show_components_never_converts_witness :
  Some [(1, 1, 0)] = Some [(1, 1, 0)] \/
  Some [(1, 1, 0)] = (None : option (list component)).
Proof.
  apply (@show_components_never_converts
           (mkSG [] 0 "real"%string (Some [(1, 1, 0)])
                 (mkSignal (NumPy.FloatArr []) (mkInfo "real"%string [])))
           "analytic"%string (Some [(1, 1, 0)])).
  reflexivity.
Defined.

(** X14.  With components at hand, asking for a form that needs a conversion
    raises: polar form out of complex mode fails inside [rect_to_polar],
    which is handed a list, and complex form out of another mode fails on
    the name [comp], which no statement has bound. *)
Theorem show_components_conversions_raise (self : SignalGenerator) (in_mode : string) :
  (exists c cs, components self = Some (c :: cs)) ->
  (mode self = "complex"%string /\
   (in_mode = "real"%string \/ in_mode = "analytic"%string)) \/
  (mode self <> "complex"%string /\ in_mode = "complex"%string) ->
  show_components self in_mode =
    Raise (if String.eqb in_mode "complex"
           then NameError "comp"
           else AttributeError "'list' object has no attribute 'real'").
Proof.
  intros (c & cs & Hcs) Hreq.
  pose proof (show_components_cases self in_mode) as Hc.
  rewrite Hcs in Hc.
  destruct Hreq as [[Hm Hin] | [Hm ->]].
  - rewrite Hm in Hc.
    destruct Hin as [-> | ->]; exact Hc.
  - destruct (String.eqb_spec "complex" (mode self)) as [E | _];
      [symmetry in E; contradiction | exact Hc].
Qed.

Lemma show_components_conversions_raise_witness :
  show_components
    (mkSG [] 0 "complex"%string (Some [(1, 1, 0)])
          (mkSignal (NumPy.ComplexArr []) (mkInfo "complex"%string [])))
    "real"%string =
    Raise (AttributeError "'list' object has no attribute 'real'").
Proof.
  apply (@show_components_conversions_raise
           (mkSG [] 0 "complex"%string (Some [(1, 1, 0)])
                 (mkSignal (NumPy.ComplexArr []) (mkInfo "complex"%string [])))
           "real"%string).
  - exists (1, 1, 0), []; reflexivity.
  - left; split; [reflexivity | left; reflexivity].
Defined.

End GeneratorMethodProps.

(* ================================================================== *)
(** * [box] and [rect_to_polar] *)

Module HelperProps.
Import Helpers.
Local Open Scope R_scope.

Lemma box_cases (x : R) :
  box x = Some (if Rlt_dec (Rabs x) (1 / 2) then PyInt 1
                else if Req_dec_T (Rabs x) (1 / 2) then PyFloat (1 / 2)
                else PyInt 0).
Proof.
  unfold box, Rltb, Reqb.
  destruct (Rlt_dec x (- (1 / 2))) as [H1 | H1].
  { rewrite Rabs_left by lra.
    destruct (Rlt_dec (- x) (1 / 2)); [lra |].
    destruct (Req_dec_T (- x) (1 / 2)); [lra | reflexivity]. }
  destruct (Req_dec_T x (- (1 / 2))) as [H2 | H2].
  { rewrite Rabs_left by lra.
    destruct (Rlt_dec (- x) (1 / 2)); [lra |].
    destruct (Req_dec_T (- x) (1 / 2)); [reflexivity | lra]. }
  destruct (Rlt_dec (- (1 / 2)) x) as [H3 | H3]; [| lra].
  destruct (Rlt_dec x (1 / 2)) as [H4 | H4]; cbn [andb].
  { destruct (Rlt_dec (Rabs x) (1 / 2)) as [_ | H5]; [reflexivity |].
    exfalso; apply H5; apply Rabs_def1; lra. }
  assert (Hx : Rabs x = x) by (apply Rabs_right; lra).
  rewrite Hx.
  destruct (Rlt_dec x (1 / 2)); [lra |].
  destruct (Req_dec_T x (1 / 2)) as [H5 | H5]; [reflexivity |].
  destruct (Rlt_dec (1 / 2) x); [reflexivity | lra].
Qed.

(** X15.  On every real number [box] returns a value (its last branch is not
    reached), [box(-x) = box(x)], and the value is the int 1 inside the
    box, the float 1/2 on its edges and the int 0 outside. *)
Theorem box_is_total_and_even (x : R) :
  box x <> None /\
  box (- x) = box x /\
  (box x = Some (PyInt 1) <-> Rabs x < 1 / 2) /\
  (box x = Some (PyFloat (1 / 2)) <-> Rabs x = 1 / 2) /\
  (box x = Some (PyInt 0) <-> 1 / 2 < Rabs x).
Proof.
  rewrite !box_cases, Rabs_Ropp.
  split; [discriminate |].
  split; [reflexivity |].
  destruct (Rlt_dec (Rabs x) (1 / 2)) as [H | H].
  - repeat split; intros H'; try lra; try discriminate H'; reflexivity.
  - destruct (Req_dec_T (Rabs x) (1 / 2)) as [E | E].
    + repeat split; intros H'; try lra; try discriminate H'; reflexivity.
    + repeat split; intros H'; try lra; try discriminate H'; try reflexivity.
Qed.

(** ** wbox *)

Lemma trunc_half : trunc (1 / 2) = 0%Z.
Proof.
  unfold trunc; destruct (Rle_dec 0 (1 / 2)) as [_ | H]; [| lra].
  symmetry; apply Int_part_spec; simpl; lra.
Qed.

Lemma traverse_total {A B : Type} (f : A -> result B) (g : A -> B) (l : list A) :
  (forall a, f a = Ok (g a)) -> traverse f l = Ok (map g l).
Proof.
  intros H; induction l as [|a l IH]; [reflexivity |].
  cbn [traverse map]; rewrite H, IH; reflexivity.
Qed.

(** The value [box] intends, and the value left when its result is stored
    as an int. *)
Lemma as_float_box (t : R) :
  as_float (box t) =
    Ok (if Rlt_dec (Rabs t) (1 / 2) then 1
        else if Req_dec_T (Rabs t) (1 / 2) then 1 / 2 else 0).
Proof.
  rewrite box_cases.
  destruct (Rlt_dec (Rabs t) (1 / 2)); [reflexivity |].
  destruct (Req_dec_T (Rabs t) (1 / 2)); reflexivity.
Qed.

Lemma as_int_box (t : R) :
  as_int (box t) = Ok (if Rlt_dec (Rabs t) (1 / 2) then 1%Z else 0%Z).
Proof.
  rewrite box_cases.
  destruct (Rlt_dec (Rabs t) (1 / 2)); [reflexivity |].
  destruct (Req_dec_T (Rabs t) (1 / 2)); [| reflexivity].
  cbn [as_int]; rewrite trunc_half; reflexivity.
Qed.

(** X16.  [wbox] on an array that is not empty gives [1/w] inside the box and 0
    outside; on the edges it gives [1/(2w)] only when the first sample
    is on an edge itself, and 0 otherwise: the vectorized [box] takes its
    dtype from the first result, an int unless that sample is on an edge,
    and the 0.5 of an edge is cut to 0 when stored as an int.  On an empty
    array [wbox] raises [ValueError]. *)
Theorem wbox_edges_follow_first_sample (x0 : R) (xs : list R) (w : R) :
  w <> 0 ->
  wbox (x0 :: xs) w =
    Ok (NumPy.FloatArr
          (map (fun xi =>
                  (if Rlt_dec (Rabs (xi / w)) (1 / 2) then 1
                   else if Req_dec_T (Rabs (xi / w)) (1 / 2)
                        then (if Req_dec_T (Rabs (x0 / w)) (1 / 2) then 1 / 2 else 0)
                        else 0) / w)
               (x0 :: xs))) /\
  wbox [] w =
    Raise (ValueError "cannot call `vectorize` on size 0 inputs unless `otypes` is set").
Proof.
  intros Hw; split; [| reflexivity].
  match goal with
  | |- _ = Ok (NumPy.FloatArr (map ?f _)) => set (g := f)
  end.
  unfold wbox, vbox.
  change (map (fun xi : R => xi / w) (x0 :: xs))
    with (x0 / w :: map (fun xi => xi / w) xs).
  unfold vectorize; rewrite (box_cases (x0 / w)).
  change (x0 / w :: map (fun xi => xi / w) xs) with (map (fun xi => xi / w) (x0 :: xs)).
  destruct (Rlt_dec (Rabs (x0 / w)) (1 / 2)) as [H0 | H0];
    [| destruct (Req_dec_T (Rabs (x0 / w)) (1 / 2)) as [E0 | E0]].
  - rewrite (traverse_total _ _ _ as_int_box); cbv beta iota delta [bind].
    rewrite !map_map; do 2 f_equal; apply map_ext; intros xi; unfold g.
    destruct (Req_dec_T (Rabs (x0 / w)) (1 / 2)) as [E | _]; [lra |].
    destruct (Rlt_dec (Rabs (xi / w)) (1 / 2)); [reflexivity |].
    destruct (Req_dec_T (Rabs (xi / w)) (1 / 2)); reflexivity.
  - rewrite (traverse_total _ _ _ as_float_box); cbv beta iota delta [bind].
    rewrite !map_map; reflexivity.
  - rewrite (traverse_total _ _ _ as_int_box); cbv beta iota delta [bind].
    rewrite !map_map; do 2 f_equal; apply map_ext; intros xi; unfold g.
    destruct (Rlt_dec (Rabs (xi / w)) (1 / 2)); [reflexivity |].
    destruct (Req_dec_T (Rabs (xi / w)) (1 / 2)); reflexivity.
Qed.

Lemma wbox_edges_follow_first_sample_witness :
  wbox (0 :: [1]) 2 =
    Ok (NumPy.FloatArr
          (map (fun xi =>
                  (if Rlt_dec (Rabs (xi / 2)) (1 / 2) then 1
                   else if Req_dec_T (Rabs (xi / 2)) (1 / 2)
                        then (if Req_dec_T (Rabs (0 / 2)) (1 / 2) then 1 / 2 else 0)
                        else 0) / 2)
               (0 :: [1]))) /\
  wbox [] 2 =
    Raise (ValueError "cannot call `vectorize` on size 0 inputs unless `otypes` is set").
Proof.
  apply (@wbox_edges_follow_first_sample 0 [1] 2); lra.
Defined.

(** ** rect_to_polar *)









End HelperProps.

(* ================================================================== *)
(** * The [mixed] methods and the hybrid *)

Module MixerMethodProps.
Import NumPy Signals Mixers SignalProps MixerProps MixerMethods GeneratorProps SciPy SciPyProps ListFacts.
Local Open Scope R_scope.

Lemma SimpleMixer_mixed_float (self : Mixer) (x y : list R) :
  SimpleMixer_mixed self (Some (FloatArr x)) (Some (FloatArr y)) =
    let n := Nat.min (length x) (length y) in
    let sig := mkSignal (FloatArr (map (fun p => fst p * snd p)
                                       (combine (firstn n x) (firstn n y))))
                        (mkInfo "real" []) in
    Ok (Some sig,
        mkMixer (Bound (Some sig))
                (log self ++ truncation_notice (length x) (length y))).
Proof.
  unfold SimpleMixer_mixed; cbn [float_check_inputs dtype_of dtype_eqb negb truthy].
  rewrite BasicMixer_mixed_computes; reflexivity.
Qed.

Lemma parallel_sum (p q : list R) :
  length p = length q ->
  map (fun z => cadd (fst z) (snd z))
      (combine (map RtoC p) (map (fun z => cmul Ci z) (map RtoC q))) =
  of_parts p q.
Proof.
  unfold of_parts.
  revert q; induction p as [|a p IH]; intros [|b q] H; simpl in *;
    try discriminate; [reflexivity |].
  f_equal; [apply C_eq; simpl; ring | apply IH; congruence].
Qed.

Lemma product_parts (v : list C) (l : list R) :
  of_parts (map (fun p => fst p * snd p) (combine (map Re v) l))
           (map (fun p => fst p * snd p) (combine (map Im v) l)) =
  map (fun p => cmul (fst p) (snd p)) (combine v (map RtoC l)).
Proof.
  unfold of_parts.
  revert l; induction v as [|[a b] v IH]; intros [|x l]; simpl; try reflexivity.
  f_equal; [apply C_eq; simpl; ring | apply IH].
Qed.

(** [ParallelMixer.mixed] in closed form *)
Lemma ParallelMixer_mixed_computes (self : Mixer) (v : list C) (l : list R) :
  ParallelMixer_mixed self (Some (ComplexArr v)) (Some (FloatArr l)) =
    let n := Nat.min (length v) (length l) in
    let sig :=
      mkSignal (elementwise (take n (ComplexArr v)) (take n (FloatArr l)))
               (mkInfo "complex" []) in
    Ok (Some sig,
        mkMixer (Bound (Some sig))
                (log self ++ truncation_notice (length v) (length l)
                          ++ truncation_notice (length v) (length l))).
Proof.
  unfold ParallelMixer_mixed;
    cbn [ParallelMixer_check_inputs dtype_of dtype_eqb negb truthy real imag].
  rewrite SimpleMixer_mixed_float; cbv beta iota zeta delta [bind].
  cbn [astype_complex bind set_samples samples as_complex info].
  unfold set_IF at 1; cbn [log].
  rewrite SimpleMixer_mixed_float; cbv beta iota zeta delta [bind].
  cbn [times_1j bind samples as_complex].
  rewrite !length_map.
  rewrite iaddC_same_length
    by (rewrite !length_map, !length_combine, !length_firstn, !length_map; reflexivity).
  cbv beta iota zeta delta [bind].
  rewrite parallel_sum
    by (rewrite !length_map, !length_combine, !length_firstn, !length_map; reflexivity).
  rewrite !firstn_map, product_parts.
  unfold set_IF, set_mode, set_samples; cbn [samples info entries log].
  rewrite <- app_assoc.
  cbn [elementwise take as_complex].
  reflexivity.
Qed.

(** X18.  [ParallelMixer.mixed] returns what [BasicMixer.mixed] returns on the
    same arguments and binds it to [IF]; it logs the truncation warning
    twice, once for each of its two real products. *)
Theorem ParallelMixer_mixed_is_complex_product (self0 : Mixer) (v : list C) (l : list R) :
  exists sig self sig' self',
    ParallelMixer_mixed self0 (Some (ComplexArr v)) (Some (FloatArr l)) =
      Ok (Some sig, self) /\
    BasicMixer_mixed self0 (ComplexArr v) (FloatArr l) = Ok (sig', self') /\
    sig = sig' /\
    IF_attr self = Bound (Some sig) /\
    len (samples sig) = Nat.min (length v) (length l) /\
    log self = log self' ++ truncation_notice (length v) (length l).
Proof.
  eexists _, _, _, _.
  split; [apply ParallelMixer_mixed_computes |].
  split; [apply BasicMixer_mixed_computes |].
  split; [reflexivity |].
  split; [reflexivity |].
  split.
  - cbn [samples]. rewrite len_elementwise, !len_take; cbn [len]. lia.
  - cbn [log set_IF len]; rewrite <- app_assoc; reflexivity.
Qed.

(** X19.  [SimpleMixer(signal, LO)] is [BasicMixer(signal, LO)] on two float
    arrays, raises [ValueError] when an array is not float, and raises
    [AttributeError] when an argument is [None], the defaults included:
    the message of the [ValueError] reads [dtype] off both arguments. *)
Theorem SimpleMixer_accepts_only_floats :
  (forall x y : list R,
     SimpleMixer (Some (FloatArr x)) (Some (FloatArr y)) =
     BasicMixer (Some (FloatArr x)) (Some (FloatArr y))) /\
  (forall s l : ndarray,
     dtype_eqb (dtype_of s) float && dtype_eqb (dtype_of l) float = false ->
     SimpleMixer (Some s) (Some l) =
       Raise (ValueError "signal dtype or LO dtype is wrong")) /\
  (forall LO, SimpleMixer None LO =
     Raise (AttributeError "'NoneType' object has no attribute 'dtype'")) /\
  (forall signal, SimpleMixer signal None =
     Raise (AttributeError "'NoneType' object has no attribute 'dtype'")).
Proof.
  split; [reflexivity |].
  split.
  { intros [x | x] [y | y] H; try reflexivity; discriminate H. }
  split; [intros [l |]; reflexivity |].
  intros [s |]; reflexivity.
Qed.

(** X20.  [ParallelMixer(signal, LO)] raises for no arguments; it has no [IF]
    attribute exactly when the arguments are not a complex signal with a
    float LO. *)
Theorem ParallelMixer_never_raises (signal LO : option ndarray) :
  exists m,
    ParallelMixer signal LO = Ok m /\
    (IF_attr m = Unset <->
     ~ exists v l, signal = Some (ComplexArr v) /\ LO = Some (FloatArr l)).
Proof.
  destruct signal as [[x | v] |], LO as [[l | w] |];
    try (eexists; split; [reflexivity |];
         split; [intros _ (v' & l' & H1 & H2); discriminate | reflexivity]).
  unfold ParallelMixer;
    cbn [ParallelMixer_check_inputs dtype_of dtype_eqb negb truthy].
  unfold BasicMixer_init; rewrite BasicMixer_mixed_computes.
  cbv beta iota zeta delta [bind].
  eexists; split; [reflexivity |].
  cbn [set_IF IF_attr]; split; [discriminate |].
  intros H; exfalso; apply H; eauto.
Qed.

Lemma zip_swap {A B D : Type} (f : A -> B -> D) (a : list A) (b : list B) :
  map (fun p => f (fst p) (snd p)) (combine a b) =
  map (fun p => f (snd p) (fst p)) (combine b a).
Proof.
  revert b; induction a as [|x a IH]; intros [|y b]; simpl; try reflexivity.
  f_equal; apply IH.
Qed.

Lemma elementwise_comm (a b : ndarray) : elementwise a b = elementwise b a.
Proof.
  destruct a as [x | x], b as [y | y]; cbn [elementwise as_complex]; f_equal;
    rewrite zip_swap; apply map_ext; intros [p q]; cbn [fst snd];
    try apply Rmult_comm; apply cmul_comm.
Qed.

(** X21.  Swapping signal and LO gives the same IF signal, and a log of the
    same length. *)
Theorem BasicMixer_is_symmetric (s l : ndarray) :
  exists sig log1 log2,
    BasicMixer (Some s) (Some l) = Ok (mkMixer (Bound (Some sig)) log1) /\
    BasicMixer (Some l) (Some s) = Ok (mkMixer (Bound (Some sig)) log2) /\
    length log1 = length log2.
Proof.
  unfold BasicMixer, BasicMixer_init.
  rewrite !BasicMixer_mixed_computes; cbv beta iota zeta delta [bind].
  eexists _, _, _.
  split; [reflexivity |].
  split.
  - unfold set_IF; cbn [log].
    rewrite (Nat.min_comm (len l) (len s)), (elementwise_comm (take _ l)).
    reflexivity.
  - cbn [fresh log app]; unfold truncation_notice.
    destruct (Nat.eqb_spec (len s) (len l)) as [E | NE].
    + rewrite E, Nat.eqb_refl; reflexivity.
    + destruct (Nat.eqb_spec (len l) (len s)); [lia |].
      destruct (len l <? len s), (len s <? len l); reflexivity.
Qed.

(** ** The hybrid and ComplexMixer on arbitrary lengths *)


Lemma add_zero_r (l : list R) (n : nat) :
  n = length l -> map (fun p => fst p + snd p) (combine l (repeat 0 n)) = l.
Proof.
  intros ->; induction l as [|a l IH]; simpl; [reflexivity |].
  f_equal; [ring | exact IH].
Qed.

Lemma add_zero_l (l : list R) (n : nat) :
  n = length l -> map (fun p => fst p + snd p) (combine (repeat 0 n) l) = l.
Proof.
  intros ->; induction l as [|a l IH]; simpl; [reflexivity |].
  f_equal; [ring | exact IH].
Qed.

Section WithHilbert.

Variable fftpack_hilbert : list R -> result (list R).

Lemma convert_float_parts (l h : list R) :
  fftpack_hilbert l = Ok h -> length h = length l ->
  QuadratureHybrid_convert fftpack_hilbert (FloatArr l) = Ok (l, h).
Proof.
  intros Hh Hhl.
  rewrite (@convert_float fftpack_hilbert l h Hh Hhl).
  rewrite add_zero_r by exact Hhl.
  rewrite add_zero_l by (symmetry; exact Hhl).
  reflexivity.
Qed.

Lemma I_plus_jQ_parts (l h : list R) :
  length h = length l ->
  I_plus_jQ l h = Ok (ComplexArr (of_parts l h)).
Proof.
  intros H; unfold I_plus_jQ.
  rewrite broadcast2_same_length by (rewrite !length_map; auto).
  cbv beta iota delta [bind]. do 2 f_equal.
  unfold of_parts.
  revert h H; induction l as [|a l IH]; intros [|b h] H; simpl in *;
    try discriminate; [reflexivity |].
  f_equal; [apply C_eq; simpl; ring | apply IH; congruence].
Qed.

Lemma ComplexMixer_mixed_any (self : Mixer) (s l h : list R) :
  fftpack_hilbert l = Ok h -> length h = length l ->
  ComplexMixer_mixed fftpack_hilbert self (Some (FloatArr s)) (Some (FloatArr l)) =
    let n := Nat.min (length s) (length l) in
    let sig :=
      mkSignal (elementwise (take n (FloatArr s))
                            (take n (ComplexArr (of_parts l h))))
               (mkInfo "complex" []) in
    Ok (Some sig,
        mkMixer (Bound (Some sig))
                (log self ++ [(INFO, "mixed (Complex): converting LO to quadrature"%string)]
                          ++ truncation_notice (length s) (length l))).
Proof.
  intros Hh Hhl.
  unfold ComplexMixer_mixed; cbn [float_check_inputs dtype_of dtype_eqb negb truthy].
  rewrite (@convert_float_parts l h Hh Hhl); cbv beta iota delta [bind].
  rewrite I_plus_jQ_parts by exact Hhl.
  cbv beta iota delta [bind].
  rewrite BasicMixer_mixed_computes.
  cbv beta iota zeta delta [bind].
  assert (Hq : length (of_parts l h) = length l).
  { rewrite length_of_parts, Hhl; lia. }
  cbn [len]; rewrite Hq.
  unfold emit, set_IF, set_mode; cbn [log samples info entries IF_attr mode_of elementwise take].
  rewrite <- app_assoc; reflexivity.
Qed.

Lemma ComplexMixer_any_computes (s l h : list R) :
  fftpack_hilbert l = Ok h -> length h = length l ->
  ComplexMixer fftpack_hilbert (Some (FloatArr s)) (Some (FloatArr l)) =
    let n := Nat.min (length s) (length l) in
    Ok (mkMixer
          (Bound (Some (mkSignal
                          (elementwise (take n (FloatArr s))
                             (take n (ComplexArr (of_parts l h))))
                          (mkInfo "complex" []))))
          (truncation_notice (length s) (length l)
           ++ [(INFO, "mixed (Complex): converting LO to quadrature"%string)]
           ++ truncation_notice (length s) (length l))).
Proof.
  intros Hh Hhl.
  unfold ComplexMixer; cbn [float_check_inputs dtype_of dtype_eqb negb truthy].
  unfold BasicMixer_init.
  rewrite BasicMixer_mixed_computes; cbv beta iota zeta delta [bind].
  rewrite (@ComplexMixer_mixed_any _ s l h Hh Hhl).
  cbv beta iota zeta delta [bind].
  reflexivity.
Qed.

End WithHilbert.

(** X22.  On a float array for which the transform returns an array [h] of the
    same length, the hybrid returns the array itself and [h], and
    [I + 1j*Q] has them as real and imaginary parts.  When the transform
    raises, as SciPy's does on an empty array, the hybrid raises the same
    exception. *)
Theorem hybrid_on_real_signal (fftpack_hilbert : list R -> result (list R))
    (l h : list R) :
  fftpack_hilbert l = Ok h -> length h = length l ->
  QuadratureHybrid_convert fftpack_hilbert (FloatArr l) = Ok (l, h) /\
  (exists a,
     I_plus_jQ l h = Ok a /\
     dtype_of a = complex /\ real a = l /\ imag a = h) /\
  (forall (fh : list R -> result (list R)) (x : list R) (e : exn),
     fh x = Raise e -> QuadratureHybrid_convert fh (FloatArr x) = Raise e).
Proof.
  intros Hh Hhl.
  split; [exact (@convert_float_parts fftpack_hilbert l h Hh Hhl) |].
  split.
  - eexists; split; [exact (@I_plus_jQ_parts l h Hhl) |].
    split; [reflexivity |].
    cbn [real imag]; unfold of_parts; rewrite !map_map; cbn [Re Im].
    split.
    + change (map (fun x : R * R => fst x) (combine l h)) with (map fst (combine l h)).
      apply map_fst_combine_eq; symmetry; exact Hhl.
    + change (map (fun x : R * R => snd x) (combine l h)) with (map snd (combine l h)).
      apply map_snd_combine_eq; symmetry; exact Hhl.
  - intros fh x e Hfh; exact (@convert_float_raises fh x e Hfh).
Qed.

(** X23.  For float arrays of any two lengths, when the transform of the LO
    returns, ComplexMixer multiplies the first [n = min] samples of the
    signal with the first [n] samples of [LO + i hilbert(LO)], the
    transform being taken of the whole LO; the truncation warning is
    logged twice, around the notice of the conversion.  When the transform
    raises, the constructor raises the same exception. *)
Theorem ComplexMixer_cuts_after_transform (fftpack_hilbert : list R -> result (list R))
    (s l h : list R) :
  fftpack_hilbert l = Ok h -> length h = length l ->
  let n := Nat.min (length s) (length l) in
  (exists sig,
     ComplexMixer fftpack_hilbert (Some (FloatArr s)) (Some (FloatArr l)) =
       Ok (mkMixer (Bound (Some sig))
             (truncation_notice (length s) (length l)
              ++ [(INFO, "mixed (Complex): converting LO to quadrature"%string)]
              ++ truncation_notice (length s) (length l))) /\
     samples sig =
       ComplexArr (map (fun p => cmul (fst p) (snd p))
                       (combine (map RtoC (firstn n s))
                                (firstn n (of_parts l h)))) /\
     Signals.mode (info sig) = "complex"%string) /\
  (forall (fh : list R -> result (list R)) (x : list R) (e : exn),
     fh x = Raise e ->
     ComplexMixer fh (Some (FloatArr s)) (Some (FloatArr x)) = Raise e).
Proof.
  intros Hh Hhl n; split.
  - eexists; split; [exact (@ComplexMixer_any_computes fftpack_hilbert s l h Hh Hhl) |].
    split; reflexivity.
  - intros fh x e Hfh; exact (@ComplexMixer_float_raises fh s x e Hfh).
Qed.

(** X24.  When the transform of the LO returns, the real part of ComplexMixer's
    IF is SimpleMixer's IF. *)
Theorem ComplexMixer_real_part_is_SimpleMixer (fftpack_hilbert : list R -> result (list R))
    (s l h : list R) :
  fftpack_hilbert l = Ok h -> length h = length l ->
  exists sc ss logc logs,
    ComplexMixer fftpack_hilbert (Some (FloatArr s)) (Some (FloatArr l)) =
      Ok (mkMixer (Bound (Some sc)) logc) /\
    SimpleMixer (Some (FloatArr s)) (Some (FloatArr l)) =
      Ok (mkMixer (Bound (Some ss)) logs) /\
    real (samples sc) = real (samples ss).
Proof.
  intros Hh Hhl.
  eexists _, _, _, _.
  split; [exact (@ComplexMixer_any_computes fftpack_hilbert s l h Hh Hhl) |].
  split.
  { unfold SimpleMixer; cbn [float_check_inputs dtype_of dtype_eqb negb truthy].
    unfold BasicMixer_init; rewrite BasicMixer_mixed_computes.
    cbv beta iota zeta delta [bind]; reflexivity. }
  cbn [samples elementwise take as_complex real len].
  rewrite map_map.
  unfold of_parts.
  clear Hh.
  generalize (Nat.min (length s) (length l)); intros n.
  revert s l h Hhl; induction n as [|n IH]; intros [|a s] [|b l] [|c h] Hh;
    simpl in *; try discriminate; try reflexivity.
  f_equal; [ring | apply IH; congruence].
Qed.

(** SciPy's transform of the tone [cos(2 pi n / 4)] is [-sin(2 pi n / 4)]. *)
Lemma hybrid_on_real_signal_witness :
  QuadratureHybrid_convert SciPy.fftpack_hilbert (FloatArr [1; 0; -1; 0]) =
    Ok ([1; 0; -1; 0], [0; -1; 0; 1]) /\
  (exists a,
     I_plus_jQ [1; 0; -1; 0] [0; -1; 0; 1] = Ok a /\
     dtype_of a = complex /\ real a = [1; 0; -1; 0] /\ imag a = [0; -1; 0; 1]) /\
  (forall (fh : list R -> result (list R)) (x : list R) (e : exn),
     fh x = Raise e -> QuadratureHybrid_convert fh (FloatArr x) = Raise e).
Proof.
  apply (@hybrid_on_real_signal SciPy.fftpack_hilbert [1; 0; -1; 0] [0; -1; 0; 1]).
  - exact fftpack_hilbert_cos4.
  - reflexivity.
Defined.

Lemma ComplexMixer_cuts_after_transform_witness :
  let n := Nat.min (length [1; 2; 3]) (length [1; 0; -1; 0]) in
  (exists sig,
     ComplexMixer SciPy.fftpack_hilbert (Some (FloatArr [1; 2; 3]))
                  (Some (FloatArr [1; 0; -1; 0])) =
       Ok (mkMixer (Bound (Some sig))
             (truncation_notice (length [1; 2; 3]) (length [1; 0; -1; 0])
              ++ [(INFO, "mixed (Complex): converting LO to quadrature"%string)]
              ++ truncation_notice (length [1; 2; 3]) (length [1; 0; -1; 0]))) /\
     samples sig =
       ComplexArr (map (fun p => cmul (fst p) (snd p))
                       (combine (map RtoC (firstn n [1; 2; 3]))
                                (firstn n (of_parts [1; 0; -1; 0] [0; -1; 0; 1])))) /\
     Signals.mode (info sig) = "complex"%string) /\
  (forall (fh : list R -> result (list R)) (x : list R) (e : exn),
     fh x = Raise e ->
     ComplexMixer fh (Some (FloatArr [1; 2; 3])) (Some (FloatArr x)) = Raise e).
Proof.
  apply (@ComplexMixer_cuts_after_transform SciPy.fftpack_hilbert
           [1; 2; 3] [1; 0; -1; 0] [0; -1; 0; 1]).
  - exact fftpack_hilbert_cos4.
  - reflexivity.
Defined.

Lemma ComplexMixer_real_part_is_SimpleMixer_witness :
  exists sc ss logc logs,
    ComplexMixer SciPy.fftpack_hilbert (Some (FloatArr [1; 2; 3]))
                 (Some (FloatArr [1; 0; -1; 0])) =
      Ok (mkMixer (Bound (Some sc)) logc) /\
    SimpleMixer (Some (FloatArr [1; 2; 3])) (Some (FloatArr [1; 0; -1; 0])) =
      Ok (mkMixer (Bound (Some ss)) logs) /\
    real (samples sc) = real (samples ss).
Proof.
  apply (@ComplexMixer_real_part_is_SimpleMixer SciPy.fftpack_hilbert
           [1; 2; 3] [1; 0; -1; 0] [0; -1; 0; 1]).
  - exact fftpack_hilbert_cos4.
  - reflexivity.
Defined.

End MixerMethodProps.

(* ================================================================== *)
(** * [sinc_filter] *)

Module FilterProps.
Import NumPy Filters.
Local Open Scope R_scope.

Lemma length_linspace (a b : R) (n : nat) : length (linspace a b n) = n.
Proof.
  destruct n as [|[|n]]; [reflexivity | reflexivity |].
  unfold linspace; rewrite length_map, length_seq; reflexivity.
Qed.

Lemma nth_linspace (a b : R) (n j : nat) :
  (2 <= n)%nat -> (j < n)%nat ->
  nth j (linspace a b n) 0 = a + INR j * ((b - a) / INR (n - 1)).
Proof.
  intros Hn Hj.
  destruct n as [|[|n]]; [lia | lia |].
  unfold linspace.
  set (f := fun j : nat => a + INR j * ((b - a) / INR (Datatypes.S (Datatypes.S n) - 1))).
  rewrite (nth_indep _ 0 (f O)) by (rewrite length_map, length_seq; exact Hj).
  rewrite (map_nth f), seq_nth by exact Hj.
  reflexivity.
Qed.

(** The tap indices run from [-K/2] to [K/2] and mirror about 0. *)
Lemma linspace_mirror (a : R) (n j : nat) :
  (2 <= n)%nat -> (j < n)%nat ->
  nth (n - 1 - j) (linspace (- a) a n) 0 = - nth j (linspace (- a) a n) 0.
Proof.
  intros Hn Hj.
  rewrite !nth_linspace by lia.
  rewrite minus_INR by lia.
  assert (Hd : INR (n - 1) <> 0) by (apply not_0_INR; lia).
  field; exact Hd.
Qed.

Lemma sinc_even (x : R) : sinc (- x) = sinc x.
Proof.
  unfold sinc.
  destruct (Req_dec_T x 0) as [-> | Hx].
  - rewrite Ropp_0; destruct (Req_dec_T 0 0); [reflexivity | contradiction].
  - destruct (Req_dec_T (- x) 0) as [E | _]; [lra |].
    replace (PI * - x) with (- (PI * x)) by ring.
    rewrite sin_neg.
    pose proof PI_RGT_0.
    field; split; lra.
Qed.

Lemma template_tap_even (factor kj : R) :
  template_tap factor (- kj) = template_tap factor kj.
Proof.
  unfold template_tap.
  replace (factor * - kj) with (- (factor * kj)) by ring.
  rewrite sinc_even; reflexivity.
Qed.

Lemma real_tap_even (f0 factor W : R) (M : Z) (kj : R) :
  real_tap f0 factor W M (- kj) = real_tap f0 factor W M kj.
Proof.
  unfold real_tap; rewrite template_tap_even.
  replace (2 * PI * f0 * W * - kj / IZR M) with (- (2 * PI * f0 * W * kj / IZR M))
    by (unfold Rdiv; ring).
  rewrite cos_neg; reflexivity.
Qed.

(** The complex tap written out: the template times
    [cos t + i sin t], [t = -2 pi f0 W k / M]. *)
Lemma complex_tap_value (f0 factor W : R) (M : Z) (kj : R) :
  complex_tap f0 factor W M kj =
    mkC (template_tap factor kj * cos (- 2 * PI * f0 * W * kj / IZR M))
        (template_tap factor kj * sin (- 2 * PI * f0 * W * kj / IZR M)).
Proof.
  unfold complex_tap, cexp, cdivr, cmul, RtoC, Ci; cbn [Re Im].
  match goal with
  | |- context [exp ?e] => replace e with 0 by (unfold Rdiv; ring)
  end.
  match goal with
  | |- context [cos ?e] =>
      replace e with (- 2 * PI * f0 * W * kj / IZR M) by (unfold Rdiv; ring)
  end.
  rewrite exp_0; apply C_eq; cbn [Re Im]; ring.
Qed.

Lemma complex_tap_mirror (f0 factor W : R) (M : Z) (kj : R) :
  complex_tap f0 factor W M (- kj) = conj (complex_tap f0 factor W M kj).
Proof.
  rewrite !complex_tap_value, template_tap_even.
  replace (- 2 * PI * f0 * W * - kj / IZR M) with (- (- 2 * PI * f0 * W * kj / IZR M))
    by (unfold Rdiv; ring).
  rewrite cos_neg, sin_neg.
  apply C_eq; cbn [conj Re Im]; ring.
Qed.

Lemma Rtruthy_true (x : R) : Rtruthy x = true <-> x <> 0.
Proof. unfold Rtruthy; destruct (Req_dec_T x 0); split; intros; congruence. Qed.

Lemma truthy_opt_false (x : option R) :
  truthy_opt x = false <-> x = None \/ x = Some 0.
Proof.
  destruct x as [v |]; cbn [truthy_opt]; [| split; auto].
  unfold Rtruthy; destruct (Req_dec_T v 0) as [-> | Hv]; split; auto.
  - discriminate.
  - intros [H | H]; [discriminate H | injection H as ->; contradiction].
Qed.

(** What [filter_width] decides, by the truth values of the arguments. *)
Lemma filter_width_cases (factor W : option R) (M : Z) :
  filter_width factor W M =
    if truthy_opt factor then
      if (M =? 0)%Z then inl (Exn ZeroDivisionError)
      else match factor with
           | Some fac => inr (fac, fac / IZR M)
           | None => inl (Exn ZeroDivisionError)
           end
    else if truthy_opt W && negb (M =? 0)%Z then
      match W with
      | Some w => inr (w / IZR M, w)
      | None => inl (Exn ZeroDivisionError)
      end
    else inl (RuntimeError "no filter width specified ('factor' or 'W' and 'M')").
Proof.
  destruct factor as [fac |], W as [w |]; cbn [filter_width truthy_opt];
    try destruct (Rtruthy fac); try destruct (Rtruthy w);
    try destruct (M =? 0)%Z; reflexivity.
Qed.

(** X25.  [sinc_filter] raises its [RuntimeError] exactly when [factor] is
    false and [W] or [M] is; it divides by zero exactly when [factor] is
    true and [M] is 0; otherwise it returns. *)
Theorem sinc_filter_needs_a_width (K : nat) (f0 : R) (mode : string)
    (factor W : option R) (M : Z) :
  ((exists msg, sinc_filter K f0 mode factor W M = inl (RuntimeError msg)) <->
   truthy_opt factor = false /\ (truthy_opt W = false \/ M = 0%Z)) /\
  (sinc_filter K f0 mode factor W M = inl (Exn ZeroDivisionError) <->
   truthy_opt factor = true /\ M = 0%Z) /\
  ((exists r, sinc_filter K f0 mode factor W M = inr r) <->
   (truthy_opt factor = true \/ truthy_opt W = true) /\ M <> 0%Z).
Proof.
  unfold sinc_filter; rewrite filter_width_cases.
  destruct factor as [fac |], W as [w |]; cbn [truthy_opt];
    try destruct (Rtruthy fac); try destruct (Rtruthy w);
    destruct (Z.eqb_spec M 0) as [-> | HM]; cbn [andb negb]; cbv beta iota zeta;
    (split; [| split]; split;
     [ intros [x H]; intuition congruence
     | intros H; first [eexists; reflexivity | exfalso; intuition congruence]
     | intuition congruence
     | intuition congruence
     | intros [x H]; intuition congruence
     | intros H; first [eexists; reflexivity | exfalso; intuition congruence] ]).
Qed.

(** What a returning call returns. *)
Lemma sinc_filter_returns (K : nat) (f0 : R) (mode : string)
    (factor W : option R) (M : Z) (k : list R) (F : ndarray) (max_tap : R) :
  sinc_filter K f0 mode factor W M = inr (k, F, max_tap) ->
  exists fac w,
    filter_width factor W M = inr (fac, w) /\
    max_tap = INR K / 2 /\
    k = linspace (- (INR K / 2)) (INR K / 2) K /\
    F = if String.eqb mode "complex" then ComplexArr (map (complex_tap f0 fac w M) k)
        else if String.eqb mode "real" then FloatArr (map (real_tap f0 fac w M) k)
        else FloatArr (map (template_tap fac) k).
Proof.
  unfold sinc_filter.
  destruct (filter_width factor W M) as [e | [fac w]]; [discriminate |].
  intros H; injection H as <- <- <-.
  exists fac, w; repeat split; reflexivity.
Qed.

Lemma nth_map_in (A B : Type) (f : A -> B) (l : list A) (j : nat) (d : A) (e : B) :
  (j < length l)%nat -> nth j (map f l) e = f (nth j l d).
Proof.
  intros Hj.
  rewrite (nth_indep _ e (f d)) by (rewrite length_map; exact Hj).
  apply map_nth.
Qed.

(** X26.  The filter has [K] taps at [K] tap indices spread evenly from [-K/2]
    to [K/2]; from two taps on, the indices mirror about 0, and the taps
    mirror with them: equal in the real and baseband forms, conjugate in
    the complex form. *)
Theorem sinc_filter_is_symmetric (K : nat) (f0 : R) (mode : string)
    (factor W : option R) (M : Z) (k : list R) (F : ndarray) (max_tap : R) :
  sinc_filter K f0 mode factor W M = inr (k, F, max_tap) ->
  length k = K /\ len F = K /\ max_tap = INR K / 2 /\
  dtype_of F = (if String.eqb mode "complex" then complex else float) /\
  forall j, (2 <= K)%nat -> (j < K)%nat ->
    nth j k 0 = - (INR K / 2) + INR j * (INR K / INR (K - 1)) /\
    nth (K - 1 - j) k 0 = - nth j k 0 /\
    nth (K - 1 - j) (real F) 0 = nth j (real F) 0 /\
    nth (K - 1 - j) (imag F) 0 = - nth j (imag F) 0.
Proof.
  intros H.
  destruct (sinc_filter_returns _ _ _ _ _ _ H) as (fac & w & _ & -> & Hk & HF).
  assert (Hlen : length k = K) by (rewrite Hk; apply length_linspace).
  split; [exact Hlen |].
  split.
  { rewrite HF.
    destruct (String.eqb mode "complex"); [| destruct (String.eqb mode "real")];
      cbn [len]; rewrite length_map; exact Hlen. }
  split; [reflexivity |].
  split.
  { rewrite HF.
    destruct (String.eqb mode "complex"); [| destruct (String.eqb mode "real")];
      reflexivity. }
  intros j HK Hj.
  assert (Hm : nth (K - 1 - j) k 0 = - nth j k 0)
    by (rewrite Hk; apply linspace_mirror; assumption).
  split.
  { rewrite Hk, nth_linspace by assumption.
    assert (Hd : INR (K - 1) <> 0) by (apply not_0_INR; lia).
    field; exact Hd. }
  split; [exact Hm |].
  rewrite HF.
  destruct (String.eqb mode "complex"); [| destruct (String.eqb mode "real")];
    cbn [real imag].
  - rewrite !map_map.
    rewrite !(@nth_map_in _ _ (fun x => Re (complex_tap f0 fac w M x)) k _ 0 0),
            !(@nth_map_in _ _ (fun x => Im (complex_tap f0 fac w M x)) k _ 0 0)
      by lia.
    rewrite Hm, complex_tap_mirror; cbn [conj Re Im]; split; reflexivity.
  - rewrite !(@nth_map_in _ _ (real_tap f0 fac w M) k _ 0 0) by lia.
    rewrite Hm, real_tap_even; split; [reflexivity |].
    rewrite !length_map, Hlen, !nth_repeat; ring.
  - rewrite !(@nth_map_in _ _ (template_tap fac) k _ 0 0) by lia.
    rewrite Hm, template_tap_even; split; [reflexivity |].
    rewrite !length_map, Hlen, !nth_repeat; ring.
Qed.

Lemma sinc_filter_is_symmetric_witness :
  exists k F max_tap,
    sinc_filter 3 1 "real" (Some 1) None 4 = inr (k, F, max_tap) /\
    length k = 3%nat /\ len F = 3%nat /\ max_tap = INR 3 / 2 /\
    dtype_of F = float /\
    forall j, (2 <= 3)%nat -> (j < 3)%nat ->
      nth j k 0 = - (INR 3 / 2) + INR j * (INR 3 / INR (3 - 1)) /\
      nth (3 - 1 - j) k 0 = - nth j k 0 /\
      nth (3 - 1 - j) (real F) 0 = nth j (real F) 0 /\
      nth (3 - 1 - j) (imag F) 0 = - nth j (imag F) 0.
Proof.
  assert (E : filter_width (Some 1) None 4 = inr (1, 1 / IZR 4)).
  { cbn [filter_width]. rewrite (proj2 (Rtruthy_true 1)) by lra. reflexivity. }
  eexists _, _, _; split.
  - unfold sinc_filter; rewrite E; reflexivity.
  - apply (@sinc_filter_is_symmetric 3 1 "real"%string (Some 1) None 4%Z).
    unfold sinc_filter; rewrite E; reflexivity.
Defined.

(** X27.  With no frequency shift the two ways of giving the width agree:
    [factor = W/M] gives the filter that [W] and [M] give. *)
Theorem sinc_filter_widths_agree_at_baseband (K : nat) (mode : string) (W : R) (M : Z) :
  W <> 0 -> M <> 0%Z ->
  sinc_filter K 0 mode (Some (W / IZR M)) None M =
  sinc_filter K 0 mode None (Some W) M.
Proof.
  intros HW HM.
  assert (HMr : IZR M <> 0) by (apply not_0_IZR; exact HM).
  assert (Hq : W / IZR M <> 0).
  { intros E; apply HW.
    replace W with (W / IZR M * IZR M) by (field; exact HMr).
    rewrite E; ring. }
  unfold sinc_filter; cbn [filter_width].
  rewrite (proj2 (Rtruthy_true _) Hq), (proj2 (Rtruthy_true _) HW).
  destruct (Z.eqb_spec M 0) as [E | _]; [contradiction |]; cbn [andb negb].
  f_equal; f_equal; f_equal.
  destruct (String.eqb mode "complex"); [| destruct (String.eqb mode "real")];
    f_equal; apply map_ext; intros kj.
  - rewrite !complex_tap_value.
    repeat match goal with
           | |- context [cos ?e] =>
               tryif constr_eq e 0%R then fail
               else replace e with 0 by (unfold Rdiv; ring)
           | |- context [sin ?e] =>
               tryif constr_eq e 0%R then fail
               else replace e with 0 by (unfold Rdiv; ring)
           end.
    reflexivity.
  - unfold real_tap.
    repeat match goal with
           | |- context [cos ?e] =>
               tryif constr_eq e 0%R then fail
               else replace e with 0 by (unfold Rdiv; ring)
           end.
    reflexivity.
Qed.

Lemma sinc_filter_widths_agree_at_baseband_witness :
  sinc_filter 3 0 "complex" (Some (8 / IZR 4)) None 4 =
  sinc_filter 3 0 "complex" None (Some 8) 4.
Proof.
  apply (@sinc_filter_widths_agree_at_baseband 3 "complex"%string 8 4%Z); [lra | lia].
Defined.

End FilterProps.

(* ================================================================== *)
(** * The test support *)

Module TestSupportProps.
Import Sorted Permutation.
Import Generator TestSupport NumPy Signals SignalProps Helpers GeneratorMethods GeneratorMethodProps.
Local Open Scope R_scope.

(** ** signal_components *)

Lemma polar_to_IQ_signal_components :
  map polar_to_IQ (signal_components "analytic") = signal_components "complex".
Proof.
  unfold signal_components, polar_to_IQ;
    cbn [String.eqb Ascii.eqb Bool.eqb orb map c0 c1 c2 fst snd].
  replace (2 * PI * (1 / 2)) with PI by field.
  replace (2 * PI * 0) with 0 by ring.
  replace (2 * PI * (1 / 4)) with (PI / 2) by field.
  rewrite cos_PI, sin_PI, cos_0, sin_0, cos_PI2, sin_PI2.
  repeat match goal with
         | |- (_, _) = (_, _) => apply f_equal2
         | |- _ :: _ = _ :: _ => apply f_equal2
         end; try reflexivity; lra.
Qed.

(** X28.  The I/Q components of the test support module are the polar ones
    converted, so the complex-mode signal made from them is twice the
    analytic-mode signal made from the polar ones, sample by sample. *)
Theorem signal_components_complex_is_twice_analytic (M : nat) :
  map polar_to_IQ (signal_components "analytic") = signal_components "complex" /\
  exists zc za,
    generated "complex" M (signal_components "complex") = Ok (ComplexArr zc) /\
    generated "analytic" M (signal_components "analytic") = Ok (ComplexArr za) /\
    zc = map (fun z => cmul (RtoC 2) z) za.
Proof.
  split; [exact polar_to_IQ_signal_components |].
  rewrite <- polar_to_IQ_signal_components.
  apply (generated_complex_polar M (1 / 2, - 60, 1 / 2) [(1, 75, 0); (1 / 4, 90, 1 / 4)]).
Qed.

(** ** check_component *)

Lemma Reqb_refl (a : R) : Reqb a a = true.
Proof. unfold Reqb; destruct (Req_dec_T a a); [reflexivity | contradiction]. Qed.

Lemma Reqb_eq (a b : R) : Reqb a b = true <-> a = b.
Proof. unfold Reqb; destruct (Req_dec_T a b); split; intros; congruence. Qed.

Lemma check_loop_none (freq : R) (idx_pos : Z) (comps : list component) :
  check_loop freq idx_pos comps = None <->
  Forall (fun comp => freq <> (if negb (Z.eqb idx_pos 0) then c1 comp else c0 comp)) comps.
Proof.
  induction comps as [|comp rest IH]; cbn [check_loop].
  - split; [constructor | reflexivity].
  - destruct (negb (idx_pos =? 0)%Z).
    + destruct (Reqb freq (c1 comp)) eqn:E.
      * split; [discriminate |].
        intros H; inversion H as [| ? ? Hne _]; subst.
        apply Reqb_eq in E; contradiction.
      * rewrite IH; split; intros H.
        -- constructor; [| exact H].
           intros Heq; apply Reqb_eq in Heq; congruence.
        -- inversion H; assumption.
    + destruct (Reqb freq (c0 comp)) eqn:E.
      * split; [discriminate |].
        intros H; inversion H as [| ? ? Hne _]; subst.
        apply Reqb_eq in E; contradiction.
      * rewrite IH; split; intros H.
        -- constructor; [| exact H].
           intros Heq; apply Reqb_eq in Heq; congruence.
        -- inversion H; assumption.
Qed.

Lemma check_loop_finds (idx_pos : Z) (comps : list component) :
  idx_pos <> 0%Z ->
  NoDup (map c1 comps) ->
  forall comp, In comp comps ->
    check_loop (c1 comp) idx_pos comps = Some (c0 comp, c2 comp).
Proof.
  intros Hidx.
  assert (Hb : negb (idx_pos =? 0)%Z = true).
  { destruct (Z.eqb_spec idx_pos 0); [contradiction | reflexivity]. }
  induction comps as [|c rest IH]; intros Hnd comp Hin; [contradiction |].
  cbn [check_loop]; rewrite Hb.
  cbn [map] in Hnd; inversion Hnd as [| ? ? Hnotin Hnd']; subst.
  destruct Hin as [-> | Hin].
  - rewrite Reqb_refl; reflexivity.
  - destruct (Reqb (c1 comp) (c1 c)) eqn:E.
    + apply Reqb_eq in E.
      exfalso; apply Hnotin; rewrite <- E; apply in_map; exact Hin.
    + apply IH; assumption.
Qed.

(** X29.  With sigmode real or analytic and components of pairwise different
    frequencies, [check_component] returns amplitude and phase of the
    component at the frequency asked for, and [None] exactly for a
    frequency no component has; the [idx_pos] passed is not used. *)
Theorem check_component_lookup (comps : list component) (md : string) :
  md = "real"%string \/ md = "analytic"%string ->
  NoDup (map c1 comps) ->
  (forall comp idx_pos, In comp comps ->
     check_component (c1 comp) comps idx_pos (Some md) = Some (c0 comp, c2 comp)) /\
  (forall freq idx_pos,
     check_component freq comps idx_pos (Some md) = None <->
     ~ In freq (map c1 comps)).
Proof.
  intros Hmd Hnd.
  assert (E : forall freq idx_pos,
             check_component freq comps idx_pos (Some md) = check_loop freq 1 comps).
  { intros; unfold check_component; destruct Hmd as [-> | ->]; reflexivity. }
  split.
  - intros comp idx_pos Hin; rewrite E.
    apply check_loop_finds; [discriminate | exact Hnd | exact Hin].
  - intros freq idx_pos; rewrite E, check_loop_none; cbn [negb Z.eqb].
    rewrite Forall_forall; split.
    + intros H Hin; apply in_map_iff in Hin; destruct Hin as (c & <- & Hc).
      apply (H c Hc); reflexivity.
    + intros H c Hc Heq; apply H; rewrite Heq; apply in_map; exact Hc.
Qed.

Lemma check_component_lookup_witness :
  (forall comp idx_pos, In comp [(1, 1, 0); (2, 3, 0)] ->
     check_component (c1 comp) [(1, 1, 0); (2, 3, 0)] idx_pos (Some "real"%string) =
       Some (c0 comp, c2 comp)) /\
  (forall freq idx_pos,
     check_component freq [(1, 1, 0); (2, 3, 0)] idx_pos (Some "real"%string) = None <->
     ~ In freq (map c1 [(1, 1, 0); (2, 3, 0)])).
Proof.
  apply (@check_component_lookup [(1, 1, 0); (2, 3, 0)] "real"%string).
  - left; reflexivity.
  - cbn [map c1 fst snd].
    constructor; [intros [H | []]; lra |].
    constructor; [intros [] | constructor].
Defined.

(** ** expected_peaks *)











End TestSupportProps.
